(** * Dispersa core: resolution pipeline, filters, transforms and bundlers

    A shallow embedding of the parts of [packages/core] that the
    specification's properties talk about, followed by the properties
    themselves.

    Conventions of the embedding.
    - JavaScript values are the inductive [JsValue]; numbers are IEEE-754
      doubles ([PrimFloat.float]).
    - A token object ([ResolvedToken]) is a finite map from property name to
      [JsValue]; the object spread [{ ...token, $value: v }] is the map
      insertion [<["$value" := v]> token].
    - A token table ([ResolvedTokens], a [Record<string, ResolvedToken>]) is
      a finite map from token name to token object.
    - Objects whose key order is observable ([modifierInputs], the
      resolver's [modifiers]) are insertion-ordered association lists.
    - Code that throws returns a [Result]; code that also talks to the
      validation handler or the reference resolver threads a world through
      the state-and-error monad [M].
    - Strings are byte strings; [toLowerCase]/[toUpperCase] and the class
      [\s] are the code's on ASCII text. *)

From Stdlib Require Import String Ascii List ZArith Lia PrimFloat Permutation.
From stdpp Require Import base option list gmap strings fin_maps sorting.

Open Scope string_scope.
Open Scope list_scope.
Set Warnings "-register-all".

(* ===================================================================== *)
(** ** JavaScript values and string primitives *)
(* ===================================================================== *)

Module Js.

(** The values a token document can hold. [JHost] stands for a host
    object or function reached through a prototype (see
    [Object_prototype_get]). *)
Inductive JsValue : Type :=
| JUndefined
| JNull
| JBool (b : bool)
| JNum (x : float)
| JStr (s : string)
| JArr (xs : list JsValue)
| JObj (fields : list (string * JsValue))
| JHost (what : string).

(** [o[key]] on an own-property list. *)
Fixpoint obj_get {V : Type} (key : string) (fields : list (string * V)) : option V :=
  match fields with
  | [] => None
  | (k, v) :: rest => if String.eqb k key then Some v else obj_get key rest
  end.

(** [key in o] restricted to own properties. *)
Definition obj_has {V : Type} (key : string) (fields : list (string * V)) : bool :=
  match obj_get key fields with Some _ => true | None => false end.

(** [o[key] = v]: overwrite in place, or append a new property. *)
Fixpoint obj_set {V : Type} (key : string) (v : V) (fields : list (string * V))
  : list (string * V) :=
  match fields with
  | [] => [(key, v)]
  | (k, w) :: rest =>
      if String.eqb k key then (k, v) :: rest else (k, w) :: obj_set key v rest
  end.

Definition obj_keys {V : Type} (fields : list (string * V)) : list string :=
  map fst fields.

(** [value.prop], [undefined] when the value has no such own property. *)
Definition get_prop (v : JsValue) (key : string) : JsValue :=
  match v with
  | JObj fields => default JUndefined (obj_get key fields)
  | _ => JUndefined
  end.

(** [c.toLowerCase()] and [c.toUpperCase()] of an ASCII character. A
    byte that is no ASCII letter stays as it is: the case mapping is the
    code's on ASCII text, and leaves the letters outside ASCII, which the
    code maps too, alone. *)
Definition lower_ascii (c : ascii) : ascii :=
  let n := nat_of_ascii c in
  if (65 <=? n)%nat && (n <=? 90)%nat then ascii_of_nat (n + 32) else c.

Definition upper_ascii (c : ascii) : ascii :=
  let n := nat_of_ascii c in
  if (97 <=? n)%nat && (n <=? 122)%nat then ascii_of_nat (n - 32) else c.

(** [s.toLowerCase()], on ASCII text. *)
Fixpoint toLowerCase (s : string) : string :=
  match s with
  | EmptyString => EmptyString
  | String c rest => String (lower_ascii c) (toLowerCase rest)
  end.

Fixpoint startsWith (s p : string) : bool :=
  match p, s with
  | EmptyString, _ => true
  | String _ _, EmptyString => false
  | String a p', String b s' => Ascii.eqb a b && startsWith s' p'
  end.

Fixpoint rev_string (s : string) : string :=
  match s with
  | EmptyString => EmptyString
  | String c rest => rev_string rest +:+ String c EmptyString
  end.

Definition endsWith (s p : string) : bool :=
  startsWith (rev_string s) (rev_string p).

(** [s.slice(n)] for [0 <= n]. *)
Fixpoint slice_from (n : nat) (s : string) : string :=
  match n, s with
  | O, _ => s
  | S n', String _ rest => slice_from n' rest
  | S _, EmptyString => EmptyString
  end.

(** [s.split(sep)] for a one-character separator: always at least one
    part. *)
Fixpoint split_on (sep : ascii) (s : string) : list string :=
  match s with
  | EmptyString => [EmptyString]
  | String c rest =>
      if Ascii.eqb c sep then EmptyString :: split_on sep rest
      else match split_on sep rest with
           | [] => [String c EmptyString]
           | p :: ps => String c p :: ps
           end
  end.

(** [parts.join(sep)]. *)
Definition join (sep : string) (parts : list string) : string :=
  String.concat sep parts.

(** [Number.isFinite(x)]. *)
Definition Number_isFinite (x : float) : bool :=
  negb (PrimFloat.is_nan x) && negb (PrimFloat.is_infinity x).

(** What a lower-cased key finds on [Object.prototype] when a plain
    object literal is used as a lookup table: after [toLowerCase] only
    the all-lower-case inherited names can be hit. *)
Definition Object_prototype_get (key : string) : option JsValue :=
  if String.eqb key "constructor" then Some (JHost "Object")
  else if String.eqb key "__proto__" then Some (JHost "Object.prototype")
  else None.

End Js.
Export Js.

(* ===================================================================== *)
(** ** Results of code that may throw *)
(* ===================================================================== *)

Module Outcome.

Inductive Result (E A : Type) : Type :=
| Ok (a : A)
| Throw (e : E).
Arguments Ok {E A} a.
Arguments Throw {E A} e.

Definition bindR {E A B : Type} (r : Result E A) (k : A -> Result E B) : Result E B :=
  match r with
  | Ok a => k a
  | Throw e => Throw e
  end.

#[export] Instance Result_ret {E : Type} : MRet (Result E) := fun A a => Ok a.

#[export] Instance Result_bind {E : Type} : MBind (Result E) := fun A B k r => bindR r k.

(** [for (const x of xs) { out.push(...(await f(x))) }]: stops at the
    first throw. *)
Fixpoint forEachR {E A B : Type} (f : A -> Result E (list B)) (xs : list A)
  : Result E (list B) :=
  match xs with
  | [] => Ok []
  | x :: rest =>
      bindR (f x) (fun bs => bindR (forEachR f rest) (fun more => Ok (bs ++ more)))
  end.

End Outcome.
Export Outcome.

(* ===================================================================== *)
(** ** Tokens and token tables *)
(* ===================================================================== *)

Module Tokens.

(** One resolved token: its own properties. *)
Abbreviation ResolvedToken := (gmap string JsValue).

(** The table of one permutation, keyed by dot-path name. *)
Abbreviation ResolvedTokens := (gmap string (gmap string JsValue)).

(** [token.prop]. *)
Definition prop (token : ResolvedToken) (key : string) : JsValue :=
  default JUndefined (token !! key).

(** [v === 'literal']. *)
Definition is_string (v : JsValue) (lit : string) : bool :=
  match v with
  | JStr s => String.eqb s lit
  | _ => false
  end.

(** [{ ...token, $value: v }]. *)
Definition with_value (token : ResolvedToken) (v : JsValue) : ResolvedToken :=
  <["$value" := v]> token.

End Tokens.
Export Tokens.

(* ===================================================================== *)
(** ** Error classes ([@shared/errors]) *)
(* ===================================================================== *)

Module Errors.

(** The classes re-exported by [dispersa/errors], and the plain [Error]. *)
Inductive ErrorKind : Type :=
| PlainError
| DispersaError
| TokenReferenceError
| CircularReferenceError
| ValidationError
| FileOperationError
| ConfigurationError
| BasePermutationError
| ModifierError.

(** An [Error] instance: its class, its message and, for the reference
    errors, the trail it carries. *)
Record ErrorObj : Type := mkError {
  kind : ErrorKind;
  message : string;
  trail : list string
}.

(** [throw] accepts any value, not only [Error] instances. *)
Inductive Thrown : Type :=
| ThrownError (e : ErrorObj)
| ThrownValue (v : JsValue).

Definition newError (k : ErrorKind) (msg : string) : Thrown :=
  ThrownError (mkError k msg []).

Definition ErrorKind_eqb (a b : ErrorKind) : bool :=
  match a, b with
  | PlainError, PlainError
  | DispersaError, DispersaError
  | TokenReferenceError, TokenReferenceError
  | CircularReferenceError, CircularReferenceError
  | ValidationError, ValidationError
  | FileOperationError, FileOperationError
  | ConfigurationError, ConfigurationError
  | BasePermutationError, BasePermutationError
  | ModifierError, ModifierError => true
  | _, _ => false
  end.

(** [t instanceof K] for the thrown value [t] (subclassing apart). *)
Definition instanceOf (t : Thrown) (k : ErrorKind) : bool :=
  match t with
  | ThrownError e => ErrorKind_eqb (kind e) k
  | ThrownValue _ => false
  end.

End Errors.
Export Errors.

(* ===================================================================== *)
(** ** Global constants ([shared/constants]) *)
(* ===================================================================== *)

Module Constants.

(** Default maximum depth for alias resolution. *)
Definition DEFAULT_MAX_ALIAS_DEPTH : nat := 10.

(** Default base font size in pixels for rem/em conversions. *)
Definition DEFAULT_BASE_FONT_SIZE_PX : nat := 16.

End Constants.
Export Constants.

(* ===================================================================== *)
(** ** Built-in filters ([processing/processors/filters/built-in.ts]) *)
(* ===================================================================== *)

Module Filters.

(** [Filter = { filter(token) -> boolean }]. *)
Record Filter : Type := mkFilter {
  filter : ResolvedToken -> bool
}.

Section BuiltIn.

(** [AliasResolver.hasAliases], imported from [@resolution/alias-resolver];
    the filters only call it. *)
Variable hasAliases : JsValue -> bool.

Definition byType (type : string) : Filter :=
  {| filter := fun token => is_string (prop token "$type") type |}.

Definition isAlias : Filter :=
  {| filter := fun token => hasAliases (prop token "originalValue") |}.

Definition isBase : Filter :=
  {| filter := fun token => negb (hasAliases (prop token "originalValue")) |}.

End BuiltIn.

End Filters.
Export Filters.

(* ===================================================================== *)
(** ** Built-in value transforms *)
(* ===================================================================== *)

Module Transforms.

(** [Transform = { matcher?(token) -> boolean, transform(token) -> token }]. *)
Record Transform : Type := mkTransform {
  matcher : option (ResolvedToken -> bool);
  transform : ResolvedToken -> ResolvedToken
}.

(** The [weightMap] literal of [fontWeightToNumber]. *)
Definition weightMap : list (string * float) :=
  [ ("thin", 100%float); ("hairline", 100%float);
    ("extra-light", 200%float); ("ultra-light", 200%float);
    ("light", 300%float);
    ("normal", 400%float); ("regular", 400%float);
    ("medium", 500%float);
    ("semi-bold", 600%float); ("demi-bold", 600%float);
    ("bold", 700%float);
    ("extra-bold", 800%float); ("ultra-bold", 800%float);
    ("black", 900%float); ("heavy", 900%float);
    ("extra-black", 950%float); ("ultra-black", 950%float) ].

(** [weightMap[key]]: an own entry, else whatever the prototype holds. *)
Definition weightMap_get (key : string) : JsValue :=
  match obj_get key weightMap with
  | Some w => JNum w
  | None => default JUndefined (Object_prototype_get key)
  end.

Definition fontWeightToNumber : Transform :=
  {| matcher := Some (fun token => is_string (prop token "$type") "fontWeight");
     transform := fun token =>
       match prop token "$value" with
       | JNum _ => token
       | JStr value =>
           match weightMap_get (toLowerCase value) with
           | JUndefined => token
           | weight => with_value token weight
           end
       | _ => token
       end |}.

(** [typeof v === 'object' && v !== null && 'value' in v && 'unit' in v]. *)
Definition has_value_and_unit (v : JsValue) : bool :=
  match v with
  | JObj fields => obj_has "value" fields && obj_has "unit" fields
  | _ => false
  end.

Definition durationObject (value : float) (unit : string) : JsValue :=
  JObj [("value", JNum value); ("unit", JStr unit)].

Section Durations.

(** The host's number conversions: [Number(v)], [String(n)] and
    [parseFloat(s)]. *)
Variable toNumber : JsValue -> float.
Variable numberToString : float -> string.
Variable parseFloat : string -> float.

(** [typeof v === 'string' || typeof v === 'number' ? String(v) : '']. *)
Definition stringOrEmpty (v : JsValue) : string :=
  match v with
  | JStr s => s
  | JNum x => numberToString x
  | _ => ""
  end.

Definition durationToMs : Transform :=
  {| matcher := Some (fun token => is_string (prop token "$type") "duration");
     transform := fun token =>
       let rawValue := prop token "$value" in
       if has_value_and_unit rawValue then
         let unit := get_prop rawValue "unit" in
         let numeric := toNumber (get_prop rawValue "value") in
         if Number_isFinite numeric then
           if is_string unit "ms" then token
           else if is_string unit "s" then
             with_value token (durationObject (numeric * 1000)%float "ms")
           else token
         else token
       else
         let value := stringOrEmpty rawValue in
         if endsWith value "ms" then
           let numeric := parseFloat value in
           if Number_isFinite numeric then
             with_value token (durationObject numeric "ms")
           else token
         else if endsWith value "s" then
           let num := parseFloat value in
           with_value token (durationObject (num * 1000)%float "ms")
         else token |}.

Definition durationToSeconds : Transform :=
  {| matcher := Some (fun token => is_string (prop token "$type") "duration");
     transform := fun token =>
       let rawValue := prop token "$value" in
       if has_value_and_unit rawValue then
         let unit := get_prop rawValue "unit" in
         let numeric := toNumber (get_prop rawValue "value") in
         if Number_isFinite numeric then
           if is_string unit "s" then token
           else if is_string unit "ms" then
             with_value token (durationObject (numeric / 1000)%float "s")
           else token
         else token
       else
         let value := stringOrEmpty rawValue in
         if endsWith value "s" && negb (endsWith value "ms") then
           let numeric := parseFloat value in
           if Number_isFinite numeric then
             with_value token (durationObject numeric "s")
           else token
         else if endsWith value "ms" then
           let num := parseFloat value in
           with_value token (durationObject (num / 1000)%float "s")
         else token |}.

End Durations.

(** [component === 'none' ? undefined : component]. *)
Definition componentToCulori (component : JsValue) : JsValue :=
  if is_string component "none" then JUndefined else component.

(** The culori mode and channel names of a DTCG colour space. *)
Definition culoriShape (colorSpace : string) : string * (string * string * string) :=
  if String.eqb colorSpace "srgb" then ("rgb", ("r", "g", "b"))
  else if String.eqb colorSpace "srgb-linear" then ("lrgb", ("r", "g", "b"))
  else if String.eqb colorSpace "hsl" then ("hsl", ("h", "s", "l"))
  else if String.eqb colorSpace "hwb" then ("hwb", ("h", "w", "b"))
  else if String.eqb colorSpace "lab" then ("lab", ("l", "a", "b"))
  else if String.eqb colorSpace "lch" then ("lch", ("l", "c", "h"))
  else if String.eqb colorSpace "oklab" then ("oklab", ("l", "a", "b"))
  else if String.eqb colorSpace "oklch" then ("oklch", ("l", "c", "h"))
  else if String.eqb colorSpace "display-p3" then ("p3", ("r", "g", "b"))
  else if String.eqb colorSpace "a98-rgb" then ("a98", ("r", "g", "b"))
  else if String.eqb colorSpace "prophoto-rgb" then ("prophoto", ("r", "g", "b"))
  else if String.eqb colorSpace "rec2020" then ("rec2020", ("r", "g", "b"))
  else if String.eqb colorSpace "xyz-d65" then ("xyz65", ("x", "y", "z"))
  else if String.eqb colorSpace "xyz-d50" then ("xyz50", ("x", "y", "z"))
  else ("rgb", ("r", "g", "b")).

Definition typeError (msg : string) : Thrown := newError PlainError msg.

Section Colors.

(** [isColorObject] of [./color-converter], and culori's [converter(mode)]
    and [formatCss]; each culori call may throw. *)
Variable isColorObject : JsValue -> bool.
Variable culoriConverter : string -> JsValue -> Result Thrown JsValue.
Variable formatCss : JsValue -> Result Thrown JsValue.

(** [null] is [None]. *)
Definition dtcgObjectToCulori (value : JsValue) : Result Thrown (option JsValue) :=
  if negb (isColorObject value) then Ok None
  else
    match get_prop value "components" with
    | JArr components =>
        let mapped := map componentToCulori components in
        let c1 := nth 0 mapped JUndefined in
        let c2 := nth 1 mapped JUndefined in
        let c3 := nth 2 mapped JUndefined in
        let alpha :=
          match get_prop value "alpha" with
          | JUndefined => JUndefined
          | a => componentToCulori a
          end in
        match get_prop value "colorSpace" with
        | JStr cs =>
            let '(mode, (n1, n2, n3)) := culoriShape (toLowerCase cs) in
            Ok (Some (JObj [("mode", JStr mode); (n1, c1); (n2, c2); (n3, c3);
                            ("alpha", alpha)]))
        | _ => Throw (typeError "value.colorSpace.toLowerCase is not a function")
        end
    | _ => Throw (typeError "value.components.map is not a function")
    end.

Definition createColorTransform (converter : JsValue -> Result Thrown string) : Transform :=
  {| matcher := Some (fun token => is_string (prop token "$type") "color");
     transform := fun token =>
       let value := prop token "$value" in
       if negb (isColorObject value) then token
       else
         match converter value with
         | Ok converted => with_value token (JStr converted)
         | Throw _ => token
         end |}.

Definition createModernColorTransform (mode : string) : Transform :=
  {| matcher := Some (fun token => is_string (prop token "$type") "color");
     transform := fun token =>
       let value := prop token "$value" in
       let attempt :=
         bindR (dtcgObjectToCulori value) (fun parsed =>
           match parsed with
           | None => Ok token
           | Some color =>
               bindR (culoriConverter mode color) (fun converted =>
                 bindR (formatCss converted) (fun formatted =>
                   if is_string formatted "" then Ok token
                   else Ok (with_value token formatted)))
           end) in
       match attempt with
       | Ok result => result
       | Throw _ => token
       end |}.

End Colors.

(** A transform that leaves every property but [$value] as it found it;
    in particular [path] and [$type]. *)
Definition touchesOnlyValue (t : Transform) : Prop :=
  forall token : ResolvedToken,
    prop (transform t token) "path" = prop token "path" /\
    prop (transform t token) "$type" = prop token "$type" /\
    forall key : string, key <> "$value" -> transform t token !! key = token !! key.

End Transforms.
Export Transforms.

(* ===================================================================== *)
(** ** Resolver documents and modifier inputs *)
(* ===================================================================== *)

Module Resolver.

(** [Record<string, string>]: modifier name to context name, in insertion
    order. *)
Abbreviation ModifierInputs := (list (string * string)).

Record SetDef : Type := mkSet {
  set_sources : list JsValue;
  set_description : option string
}.

Record ModifierDef : Type := mkModifier {
  modifier_default : string;
  contexts : list (string * list JsValue);
  modifier_description : option string
}.

Record ResolverDocument : Type := mkResolver {
  version : string;
  sets : option (list (string * SetDef));
  modifiers : option (list (string * ModifierDef));
  resolutionOrder : list JsValue
}.

(** [(item as { $ref?: unknown }).$ref] when it is a string. *)
Definition item_ref (item : JsValue) : option string :=
  match get_prop item "$ref" with
  | JStr ref => Some ref
  | _ => None
  end.

End Resolver.
Export Resolver.

(* ===================================================================== *)
(** ** The token pipeline ([TokenPipeline]) *)
(* ===================================================================== *)

Module Pipeline.

Set Implicit Arguments.

Abbreviation TokenDocument := JsValue.

(** How a promise ends up. *)
Inductive Settled (A : Type) : Type :=
| Fulfilled (a : A)
| Rejected (t : Thrown)
| Pending.
Arguments Fulfilled {A} a.
Arguments Rejected {A} t.
Arguments Pending {A}.

Inductive ReferenceResolution : Type :=
| reference_resolved
| reference_skipped.

Section TokenPipeline.

(** The mutable state behind the pipeline's collaborators: the validation
    handler's sink, the reference resolver's file cache. *)
Variable World : Type.

(** A computation that may throw and may change the world; the world
    changes made before a throw stay. *)
Definition M (A : Type) : Type := World -> Result Thrown A * World.

#[local] Instance M_ret : MRet M := fun A a w => (Ok a, w).

#[local] Instance M_bind : MBind M := fun A B k m w =>
  match m w with
  | (Ok a, w') => k a w'
  | (Throw t, w') => (Throw t, w')
  end.

(** [try { body } catch (error) { handler(error) }]. *)
Definition try_catch {A : Type} (body : M A) (handler : Thrown -> M A) : M A :=
  fun w =>
    match body w with
    | (Ok a, w') => (Ok a, w')
    | (Throw t, w') => handler t w'
    end.

(** A call that throws or returns but leaves the world alone. *)
Definition liftR {A : Type} (r : Result Thrown A) : M A := fun w => (r, w).

(** The collaborators' own data. *)
Variables ResolutionEngine ReferenceResolver FileCache FlatTokens : Type.

(** The stage types of [./pipeline-stages], as the object spreads of the
    stage methods build them: each stage is the previous one with one
    field replaced. *)

Record LoadedResolverStage : Type := mkLoaded {
  resolverDoc : ResolverDocument;
  baseDir : string
}.

Record EngineReadyStage : Type := mkEngineReady {
  loaded : LoadedResolverStage;
  resolutionEngine : ResolutionEngine;
  refResolver : ReferenceResolver
}.

(** What every stage from 3 on carries along unchanged. *)
Record Carried : Type := mkCarried {
  engineReady : EngineReadyStage;
  modifierInputs : ModifierInputs
}.

(** [stage.modifierInputs]. *)
Definition stageModifierInputs (rest : Carried) : ModifierInputs := modifierInputs rest.

Record RawTokensStage : Type := mkRaw {
  raw_rest : Carried;
  rawTokens : TokenDocument
}.

Record PreprocessedStage : Type := mkPreprocessed {
  preprocessed_rest : Carried;
  preprocessedTokens : TokenDocument
}.

(** The annotation Stage 5 adds; later stages carry it along. *)
Record ResolutionNote : Type := mkNote {
  referenceResolution : ReferenceResolution;
  referenceResolutionMessage : option string
}.

Record ReferenceResolvedStage : Type := mkReferenceResolved {
  referenceResolved_rest : Carried;
  referenceResolved_note : ResolutionNote;
  referenceResolvedTokens : TokenDocument
}.

Record FlattenedStage : Type := mkFlattened {
  flattened_rest : Carried;
  flattened_note : ResolutionNote;
  flatTokens : FlatTokens
}.

Record AliasResolvedStage : Type := mkAliasResolved {
  aliasResolved_rest : Carried;
  aliasResolved_note : ResolutionNote;
  aliasResolvedTokens : ResolvedTokens
}.

Record FinalStage : Type := mkFinal {
  final_rest : Carried;
  final_note : ResolutionNote;
  tokens : ResolvedTokens
}.

(** [Preprocessor = { preprocess(doc) -> doc }]. *)
Record Preprocessor : Type := mkPreprocessor {
  preprocess : TokenDocument -> M TokenDocument
}.

(** The collaborators of [TokenPipeline], as the pipeline calls them. *)
Record Collaborators : Type := mkCollaborators {
  (** [resolverLoader.load] *)
  load : string + ResolverDocument -> M LoadedResolverStage;
  (** [new ReferenceResolver(baseDir, { validation, cache })] *)
  newReferenceResolver : string -> option FileCache -> ReferenceResolver;
  (** [new ResolutionEngine(resolverDoc, refResolver, { validation })] *)
  newResolutionEngine : ResolverDocument -> ReferenceResolver -> ResolutionEngine;
  (** [resolutionEngine.resolveWithInputs] *)
  resolveWithInputs : ResolutionEngine -> ModifierInputs -> M (TokenDocument * ModifierInputs);
  (** [resolutionEngine.generatePermutations] *)
  generatePermutations : ResolutionEngine -> M (list ModifierInputs);
  (** [refResolver.resolveDeepTokenDocument] *)
  resolveDeepTokenDocument : ReferenceResolver -> TokenDocument -> TokenDocument -> M JsValue;
  (** [tokenParser.flatten] *)
  flatten : TokenDocument -> M FlatTokens;
  (** [aliasResolver.resolve] *)
  aliasResolve : FlatTokens -> M ResolvedTokens;
  (** [applyFilters] and [applyTransforms] of [@lib/processing/token-modifier] *)
  applyFilters : ResolvedTokens -> list Filter -> Result Thrown ResolvedTokens;
  applyTransforms : ResolvedTokens -> list Transform -> Result Thrown ResolvedTokens;
  (** [validationHandler.handleIssue] and [validationHandler.warn] *)
  handleIssue : ErrorObj -> M unit;
  warn : string -> M unit;
  (** [new Map()] *)
  newMap : M FileCache;
  (** [String(value)] *)
  toString : JsValue -> string
}.

Variable env : Collaborators.

(** Stage 1: load and parse the resolver document. *)
Definition loadResolver (resolver : string + ResolverDocument) : M LoadedResolverStage :=
  load env resolver.

(** Stage 2: create the resolution engine. *)
Definition createEngine (stage : LoadedResolverStage) (sharedCache : option FileCache)
  : EngineReadyStage :=
  let refResolver := newReferenceResolver env (baseDir stage) sharedCache in
  let resolutionEngine := newResolutionEngine env (resolverDoc stage) refResolver in
  mkEngineReady stage resolutionEngine refResolver.

(** Stage 3: resolve tokens using modifier inputs. *)
Definition resolveTokens (stage : EngineReadyStage) (modifierInputs : ModifierInputs)
  : M RawTokensStage :=
  result ← resolveWithInputs env (resolutionEngine stage) modifierInputs;
  mret (mkRaw (mkCarried stage result.2) result.1).

Fixpoint applyPreprocessors (rawTokens : TokenDocument) (preprocessorList : list Preprocessor)
  : M TokenDocument :=
  match preprocessorList with
  | [] => mret rawTokens
  | preprocessor :: rest =>
      result ← preprocess preprocessor rawTokens;
      applyPreprocessors result rest
  end.

(** Stage 4: apply preprocessors to raw tokens. *)
Definition preprocessTokens (stage : RawTokensStage)
    (preprocessorList : option (list Preprocessor)) : M PreprocessedStage :=
  preprocessedTokens ←
    match preprocessorList with
    | Some (p :: ps) => applyPreprocessors (rawTokens stage) (p :: ps)
    | _ => mret (rawTokens stage)
    end;
  mret (mkPreprocessed (raw_rest stage) preprocessedTokens).

(** [error instanceof Error ? error : new Error(String(error))]. *)
Definition wrapError (error : Thrown) : ErrorObj :=
  match error with
  | ThrownError e => e
  | ThrownValue v => mkError PlainError (toString env v) []
  end.

Definition handleReferenceResolutionError (stage : PreprocessedStage) (error : Thrown)
  : M ReferenceResolvedStage :=
  let wrappedError := wrapError error in
  _ ← handleIssue env wrappedError;
  let message := message wrappedError in
  _ ← warn env ("Reference resolution skipped: " +:+ message);
  mret (mkReferenceResolved (preprocessed_rest stage)
          (mkNote reference_skipped (Some message))
          (preprocessedTokens stage)).

(** Stage 5: resolve JSON Pointer references. *)
Definition resolveReferences (stage : PreprocessedStage) : M ReferenceResolvedStage :=
  try_catch
    (resolved ← resolveDeepTokenDocument env (refResolver (engineReady (preprocessed_rest stage)))
                  (preprocessedTokens stage) (preprocessedTokens stage);
     mret (mkReferenceResolved (preprocessed_rest stage) (mkNote reference_resolved None) resolved))
    (fun error => handleReferenceResolutionError stage error).

(** Stage 6: parse and flatten the token structure. *)
Definition flattenTokens (stage : ReferenceResolvedStage) : M FlattenedStage :=
  flatTokens ← flatten env (referenceResolvedTokens stage);
  mret (mkFlattened (referenceResolved_rest stage) (referenceResolved_note stage) flatTokens).

(** Stage 7: resolve alias references. *)
Definition resolveAliases (stage : FlattenedStage) : M AliasResolvedStage :=
  aliasResolvedTokens ← aliasResolve env (flatTokens stage);
  mret (mkAliasResolved (flattened_rest stage) (flattened_note stage) aliasResolvedTokens).

(** Stage 8: apply filters (before transforms). *)
Definition applyFilterStage (stage : AliasResolvedStage) (filterList : option (list Filter))
  : M AliasResolvedStage :=
  tokens ←
    match filterList with
    | Some (f :: fs) => liftR (applyFilters env (aliasResolvedTokens stage) (f :: fs))
    | _ => mret (aliasResolvedTokens stage)
    end;
  mret (mkAliasResolved (aliasResolved_rest stage) (aliasResolved_note stage) tokens).

(** Stage 9: apply transforms to the filtered token set. *)
Definition applyTransformStage (stage : AliasResolvedStage)
    (transformList : option (list Transform)) : M FinalStage :=
  tokens ←
    match transformList with
    | Some (t :: ts) => liftR (applyTransforms env (aliasResolvedTokens stage) (t :: ts))
    | _ => mret (aliasResolvedTokens stage)
    end;
  mret (mkFinal (aliasResolved_rest stage) (aliasResolved_note stage) tokens).

(** Stages 1 to 7 of [resolve]. *)
Definition resolveToAliasResolved (resolver : string + ResolverDocument)
    (modifierInputs : ModifierInputs) (preprocessorList : option (list Preprocessor))
  : M AliasResolvedStage :=
  stage1 ← loadResolver resolver;
  let stage2 := createEngine stage1 None in
  stage3 ← resolveTokens stage2 modifierInputs;
  stage4 ← preprocessTokens stage3 preprocessorList;
  stage5 ← resolveReferences stage4;
  stage6 ← flattenTokens stage5;
  resolveAliases stage6.

Record Resolution : Type := mkResolution {
  resolution_tokens : ResolvedTokens;
  resolution_engine : ResolutionEngine;
  resolution_modifierInputs : ModifierInputs
}.

(** [TokenPipeline.resolve]. *)
Definition resolve (resolver : string + ResolverDocument) (modifierInputs : ModifierInputs)
    (transformList : option (list Transform))
    (preprocessorList : option (list Preprocessor))
    (filterList : option (list Filter)) : M Resolution :=
  stage7 ← resolveToAliasResolved resolver modifierInputs preprocessorList;
  stage8 ← applyFilterStage stage7 filterList;
  stage9 ← applyTransformStage stage8 transformList;
  mret (mkResolution (tokens stage9)
          (resolutionEngine (engineReady (final_rest stage9)))
          (stageModifierInputs (final_rest stage9))).

(** *** [Promise.all] over per-permutation tasks

    A task is run to its end when its turn comes in the completion order;
    the world it leaves is the one the next task to complete sees.
    [Promise.all] stores each fulfilment value at the index of its
    promise and remembers the first rejection. *)

Record AllState (A : Type) : Type := mkAll {
  values : list (option A);
  rejection : option Thrown
}.
Arguments mkAll {A} values rejection.
Arguments values {A} _.
Arguments rejection {A} _.

Fixpoint settleAll {A : Type} (tasks : list (M A)) (completionOrder : list nat)
    (st : AllState A) (w : World) : AllState A * World :=
  match completionOrder with
  | [] => (st, w)
  | i :: rest =>
      match tasks !! i with
      | None => settleAll tasks rest st w
      | Some task =>
          match task w with
          | (Ok a, w') =>
              settleAll tasks rest (mkAll (<[i := Some a]> (values st)) (rejection st)) w'
          | (Throw t, w') =>
              settleAll tasks rest
                (mkAll (values st)
                       (match rejection st with Some first => Some first | None => Some t end))
                w'
          end
      end
  end.

(** The values once every slot is filled. *)
Fixpoint allValues {A : Type} (slots : list (option A)) : option (list A) :=
  match slots with
  | [] => Some []
  | Some a :: rest => option_map (cons a) (allValues rest)
  | None :: _ => None
  end.

Definition Promise_all {A : Type} (tasks : list (M A)) (completionOrder : list nat)
    (w : World) : Settled (list A) * World :=
  let '(st, w') :=
    settleAll tasks completionOrder (mkAll (replicate (length tasks) None) None) w in
  match rejection st with
  | Some t => (Rejected t, w')
  | None =>
      match allValues (values st) with
      | Some vs => (Fulfilled vs, w')
      | None => (Pending, w')
      end
  end.

(** What a filled slot holds was returned by the task at its index. *)
Definition slotsFromTasks {A : Type} (tasks : list (M A)) (slots : list (option A)) : Prop :=
  length slots = length tasks
  /\ forall i a, slots !! i = Some (Some a) ->
       exists task w0 w1, tasks !! i = Some task /\ task w0 = (Ok a, w1).

Record PermutationResult : Type := mkPermutationResult {
  result_tokens : ResolvedTokens;
  result_modifierInputs : ModifierInputs
}.

(** The body of the [permutationInputs.map(async (modifierInputs) => ...)]
    callback. *)
Definition resolvePermutation (stage1 : LoadedResolverStage) (sharedCache : FileCache)
    (transformList : option (list Transform))
    (preprocessorList : option (list Preprocessor))
    (filterList : option (list Filter))
    (modifierInputs : ModifierInputs) : M PermutationResult :=
  let engine := createEngine stage1 (Some sharedCache) in
  stage3 ← resolveTokens engine modifierInputs;
  stage4 ← preprocessTokens stage3 preprocessorList;
  stage5 ← resolveReferences stage4;
  stage6 ← flattenTokens stage5;
  stage7 ← resolveAliases stage6;
  stage8 ← applyFilterStage stage7 filterList;
  stage9 ← applyTransformStage stage8 transformList;
  mret (mkPermutationResult (tokens stage9) (stageModifierInputs (final_rest stage9))).

(** What [resolveAllPermutations] does before it hands the tasks to
    [Promise.all]: load the resolver once, enumerate the permutations,
    create the shared cache. *)
Definition prepareAllPermutations (resolver : string + ResolverDocument)
  : M (LoadedResolverStage * list ModifierInputs * FileCache) :=
  stage1 ← loadResolver resolver;
  let discoveryEngine := createEngine stage1 None in
  permutationInputs ← generatePermutations env (resolutionEngine discoveryEngine);
  sharedCache ← newMap env;
  mret (stage1, permutationInputs, sharedCache).

(** [TokenPipeline.resolveAllPermutations]; [completionOrder] is the order
    in which the per-permutation tasks happen to finish. *)
Definition resolveAllPermutations (resolver : string + ResolverDocument)
    (transformList : option (list Transform))
    (preprocessorList : option (list Preprocessor))
    (filterList : option (list Filter))
    (completionOrder : list nat) (w : World) : Settled (list PermutationResult) * World :=
  match prepareAllPermutations resolver w with
  | (Throw t, w') => (Rejected t, w')
  | (Ok (stage1, permutationInputs, sharedCache), w') =>
      Promise_all
        (map (resolvePermutation stage1 sharedCache transformList preprocessorList filterList)
             permutationInputs)
        completionOrder w'
  end.

End TokenPipeline.

Unset Implicit Arguments.

(** *** The validation handler *)

(** [ValidationMode] of [@shared/types/validation]. *)
Inductive ValidationMode : Type :=
| mode_error
| mode_warn
| mode_off.

(** The handler's state: the configured mode, and the messages that have
    reached the [onWarning] sink. *)
Record HandlerWorld : Type := mkHandlerWorld {
  mode : ValidationMode;
  onWarning : list string
}.

Definition emitWarning (msg : string) (w : HandlerWorld) : HandlerWorld :=
  mkHandlerWorld (mode w) (onWarning w ++ [msg]).

(** Modelled from the spec: [ValidationHandler.handleIssue] is not among
    the sources. A failure is "downgraded to a warning when the configured
    mode is warn"; in mode [error] it is raised, in mode [off] dropped. *)
Definition ValidationHandler_handleIssue (error : ErrorObj) : M HandlerWorld unit :=
  fun w =>
    match mode w with
    | mode_off => (Ok tt, w)
    | mode_warn => (Ok tt, emitWarning (message error) w)
    | mode_error => (Throw (ThrownError error), w)
    end.

(** Modelled from the spec: [ValidationHandler.warn] is not among the
    sources. Warnings "are emitted through the configured onWarning sink";
    mode [off] silences them. *)
Definition ValidationHandler_warn (msg : string) : M HandlerWorld unit :=
  fun w =>
    match mode w with
    | mode_off => (Ok tt, w)
    | _ => (Ok tt, emitWarning msg w)
    end.

End Pipeline.

(* ===================================================================== *)
(** ** Applying filters and transforms ([@lib/processing/token-modifier]) *)
(* ===================================================================== *)

Module TokenModifier.

(** [filters.every((f) => f.filter(token))]. *)
Definition passesAll (filters : list Filter) (token : ResolvedToken) : bool :=
  forallb (fun f => filter f token) filters.

(** Modelled from the spec: [applyFilters] of
    [@lib/processing/token-modifier] is not among the sources. "A filter is
    a pure predicate over a resolved token returning include?. The set of
    filters for an output is applied as a logical AND." *)
Definition applyFilters (tokens : ResolvedTokens) (filters : list Filter) : ResolvedTokens :=
  base.filter (fun entry => passesAll filters entry.2 = true) tokens.

(** One transform on one token: the mapping function, gated by the
    matcher when there is one. *)
Definition applyTransform (t : Transform) (token : ResolvedToken) : ResolvedToken :=
  match matcher t with
  | Some matches => if matches token then transform t token else token
  | None => transform t token
  end.

(** The transforms in list order, each on the output of the previous. *)
Definition applyTransformList (transforms : list Transform) (token : ResolvedToken)
  : ResolvedToken :=
  fold_left (fun current t => applyTransform t current) transforms token.

(** Modelled from the spec: [applyTransforms] of
    [@lib/processing/token-modifier] is not among the sources. "A transform
    has an optional matcher predicate and a mapping function token ->
    token. Transforms for an output run in list order; each transform sees
    the output of the previous." *)
Definition applyTransforms (tokens : ResolvedTokens) (transforms : list Transform)
  : ResolvedTokens :=
  applyTransformList transforms <$> tokens.

End TokenModifier.

(* ===================================================================== *)
(** ** Alias resolution ([@lib/resolution/alias-resolver]) *)
(* ===================================================================== *)

Module AliasResolver.

(** The characters of [s] up to the first ["}"], and what follows it. *)
Fixpoint until_close (s : string) : option (string * string) :=
  match s with
  | EmptyString => None
  | String c rest =>
      if Ascii.eqb c "}"%char then Some (EmptyString, rest)
      else match until_close rest with
           | Some (inside, after) => Some (String c inside, after)
           | None => None
           end
  end.

(** The dot-path of a standalone alias string ["{dot.path}"]. *)
Definition aliasTarget (s : string) : option string :=
  match s with
  | String c rest =>
      if Ascii.eqb c "{"%char then
        match until_close rest with
        | Some (String c' inside, EmptyString) => Some (String c' inside)
        | _ => None
        end
      else None
  | EmptyString => None
  end.

(** Whether the string holds the alias pattern [{...}] anywhere. *)
Fixpoint hasAliasPattern (s : string) : bool :=
  match s with
  | EmptyString => false
  | String c rest =>
      (Ascii.eqb c "{"%char &&
       match until_close rest with
       | Some (String _ _, _) => true
       | _ => false
       end)
      || hasAliasPattern rest
  end.

(** Modelled from the spec: [AliasResolver.hasAliases] is not among the
    sources. The built-in filters "introspect originalValue for the {...}
    pattern"; alias strings may sit "anywhere at any depth" of an object or
    array value. *)
Fixpoint hasAliases (value : JsValue) : bool :=
  match value with
  | JStr s => hasAliasPattern s
  | JArr xs => existsb hasAliases xs
  | JObj fields => existsb (fun field => hasAliases field.2) fields
  | _ => false
  end.

Record AliasResolverOptions : Type := mkAliasOptions {
  maxDepth : option nat
}.

(** [options.maxDepth ?? DEFAULT_MAX_ALIAS_DEPTH]. *)
Definition depthBound (options : AliasResolverOptions) : nat :=
  default DEFAULT_MAX_ALIAS_DEPTH (maxDepth options).

Definition circularReference (msg : string) (visited : list string) (name : string) : Thrown :=
  ThrownError (mkError CircularReferenceError msg (rev (name :: visited))).

Section Expand.

(** What following an alias to the token [name] gives, the chain so far
    being [visited] (most recent first). *)
Variable follow : list string -> string -> Result Thrown JsValue.

Fixpoint expand (visited : list string) (value : JsValue) : Result Thrown JsValue :=
  match value with
  | JStr s =>
      match aliasTarget s with
      | Some target => follow visited target
      | None => Ok value
      end
  | JArr xs =>
      bindR
        ((fix each (xs : list JsValue) : Result Thrown (list JsValue) :=
            match xs with
            | [] => Ok []
            | x :: rest =>
                bindR (expand visited x) (fun x' =>
                  bindR (each rest) (fun rest' => Ok (x' :: rest')))
            end) xs)
        (fun xs' => Ok (JArr xs'))
  | JObj fields =>
      bindR
        ((fix each (fields : list (string * JsValue))
            : Result Thrown (list (string * JsValue)) :=
            match fields with
            | [] => Ok []
            | (k, x) :: rest =>
                bindR (expand visited x) (fun x' =>
                  bindR (each rest) (fun rest' => Ok ((k, x') :: rest')))
            end) fields)
        (fun fields' => Ok (JObj fields'))
  | _ => Ok value
  end.

End Expand.

(** Modelled from the spec: the alias resolver is not among the sources.
    "Replace every {a.b.c} alias expression with the referenced token's
    $value"; "a visited-set of dot-paths guards a single chain. Exceeding
    the configured depth bound (default 10) is CircularReferenceError.
    A->B->A is rejected with the cycle path"; "depth bound exactly at
    limit succeeds; at limit+1 fails". [remaining] is the number of alias
    hops the bound still allows. Interpolated aliases and property-level
    [$ref]s, which need the textual form of values, are left out: they do
    not bear on the depth bound. *)
Fixpoint resolveAlias (tokens : ResolvedTokens) (remaining : nat)
    (visited : list string) (name : string) : Result Thrown JsValue :=
  if existsb (String.eqb name) visited then
    Throw (circularReference "Circular reference detected" visited name)
  else
    match remaining with
    | O => Throw (circularReference "Maximum alias depth exceeded" visited name)
    | S remaining' =>
        match tokens !! name with
        | None =>
            Throw (ThrownError (mkError TokenReferenceError "Token not found" [name]))
        | Some token =>
            expand (resolveAlias tokens remaining') (name :: visited) (prop token "$value")
        end
    end.

(** The resolved [$value] of the token [name]. *)
Definition resolveTokenValue (options : AliasResolverOptions) (tokens : ResolvedTokens)
    (name : string) : Result Thrown JsValue :=
  match tokens !! name with
  | None => Throw (ThrownError (mkError TokenReferenceError "Token not found" [name]))
  | Some token =>
      expand (resolveAlias tokens (depthBound options)) [name] (prop token "$value")
  end.

(** [name] starts a chain of at least [n] standalone alias hops. *)
Inductive aliasChain (tokens : ResolvedTokens) : nat -> string -> Prop :=
| chain_here (name : string) : aliasChain tokens 0 name
| chain_hop (n : nat) (name target s : string) (token : ResolvedToken) :
    tokens !! name = Some token ->
    prop token "$value" = JStr s ->
    aliasTarget s = Some target ->
    aliasChain tokens n target ->
    aliasChain tokens (S n) name.

(** The alias token [name], whose value is the alias [{target}]. *)
Definition aliasTo (target : string) : ResolvedToken :=
  <["$value" := JStr ("{" +:+ target +:+ "}")]> ∅.

(** The table [t0 = "{t1}", t1 = "{t2}", ..., t(n-1) = "{tn}",
    tn = "#000"], written with explicit names. *)
Definition chainOfEleven : ResolvedTokens :=
  list_to_map
    [ ("t0", aliasTo "t1"); ("t1", aliasTo "t2"); ("t2", aliasTo "t3");
      ("t3", aliasTo "t4"); ("t4", aliasTo "t5"); ("t5", aliasTo "t6");
      ("t6", aliasTo "t7"); ("t7", aliasTo "t8"); ("t8", aliasTo "t9");
      ("t9", aliasTo "t10"); ("t10", aliasTo "t11");
      ("t11", <["$value" := JStr "#000"]> ∅) ].

End AliasResolver.

(* ===================================================================== *)
(** ** Schema validation ([lib/validation/validator.ts]) *)
(* ===================================================================== *)

Module Validator.

(** [ValidationError = { message, path?, params? }]. *)
Record ValidationError : Type := mkValidationError {
  error_message : string;
  error_path : option string;
  error_params : option JsValue
}.

(** An AJV [ErrorObject], as far as [formatErrors] reads it. *)
Record ErrorObject : Type := mkErrorObject {
  ajv_message : option string;
  instancePath : string;
  params : JsValue
}.

(** An AJV [ValidateFunction]: the verdict, and the [errors] property it
    leaves behind ([None] is [null]). *)
Abbreviation ValidateFunction := (JsValue -> bool * option (list ErrorObject)).

Abbreviation ValidationHook := (JsValue -> list ValidationError -> list ValidationError).

Record SchemaValidatorOptions : Type := mkValidatorOptions {
  onValidate : option ValidationHook;
  typeValidators : option (list (string * ValidationHook))
}.

Record SchemaValidator : Type := mkValidator {
  validators : gmap string ValidateFunction;
  options : SchemaValidatorOptions
}.

Definition formatErrors (errors : list ErrorObject) : list ValidationError :=
  map (fun error =>
         mkValidationError (default "Validation error" (ajv_message error))
                           (Some (instancePath error))
                           (Some (params error)))
      errors.

(** [registerSchema], the schema already compiled. *)
Definition registerSchema (name : string) (validate : ValidateFunction)
    (this : SchemaValidator) : SchemaValidator :=
  mkValidator (<[name := validate]> (validators this)) (options this).

(** [validate]. The hook of [typeValidators] is looked up among the
    table's own entries. The code's [typeValidators?.[schemaName]] also
    finds the members of [Object.prototype] ([valueOf], [__proto__],
    ...) when the table has no entry of that name, and then calls what it
    found: the definition is the code's for every schema name that is not
    the name of such a member, which covers the names the validator
    registers itself. *)
Definition validate (this : SchemaValidator) (schemaName : string) (data : JsValue)
  : Result Thrown (list ValidationError) :=
  match validators this !! schemaName with
  | None => Throw (newError ConfigurationError ("Schema not found: " +:+ schemaName))
  | Some validator =>
      let verdict : bool * option (list ErrorObject) := validator data in
      let errors := if verdict.1 then [] else formatErrors (default [] verdict.2) in
      let errors :=
        match onValidate (options this) with
        | Some hook => hook data errors
        | None => errors
        end in
      let errors :=
        match typeValidators (options this) with
        | Some table =>
            match obj_get schemaName table with
            | Some typeValidator => typeValidator data errors
            | None => errors
            end
        | None => errors
        end in
      Ok errors
  end.

Definition validateToken (this : SchemaValidator) (data : JsValue)
  : Result Thrown (list ValidationError) :=
  validate this "token" data.

Definition validateGroup (this : SchemaValidator) (data : JsValue)
  : Result Thrown (list ValidationError) :=
  validate this "group" data.

Inductive NodeType : Type :=
| type_token
| type_group
| type_invalid.

Record Classification : Type := mkClassification {
  type : NodeType;
  errors : list ValidationError;
  classification_message : option string
}.

(** [typeof obj === 'object' && obj !== null &&
     ('$value' in obj || '$ref' in obj)]. *)
Definition hasValue (obj : JsValue) : bool :=
  match obj with
  | JObj fields => obj_has "$value" fields || obj_has "$ref" fields
  | _ => false
  end.

Definition validateTokenOrGroup (this : SchemaValidator) (obj : JsValue)
  : Result Thrown Classification :=
  if hasValue obj then
    bindR (validateToken this obj) (fun tokenErrors =>
      if (length tokenErrors =? 0)%nat then Ok (mkClassification type_token [] None)
      else Ok (mkClassification type_invalid tokenErrors
                 (Some "Object has $value/$ref but failed token validation")))
  else
    bindR (validateGroup this obj) (fun groupErrors =>
      if (length groupErrors =? 0)%nat then Ok (mkClassification type_group [] None)
      else
        bindR (validateToken this obj) (fun tokenErrors =>
          if (length tokenErrors =? 0)%nat then Ok (mkClassification type_token [] None)
          else
            Ok (mkClassification type_invalid
                  (if (length groupErrors <? length tokenErrors)%nat
                   then groupErrors else tokenErrors)
                  (Some (if (length groupErrors <? length tokenErrors)%nat
                         then "Object appears to be a group but failed validation"
                         else "Object appears to be a token but failed validation"))))).

(** The type [validateTokenOrGroup] settles on, given what the two
    validations report. *)
Definition classify (obj : JsValue) (tokenErrors groupErrors : list ValidationError)
  : NodeType :=
  if hasValue obj then
    match tokenErrors with [] => type_token | _ => type_invalid end
  else
    match groupErrors, tokenErrors with
    | [], _ => type_group
    | _, [] => type_token
    | _, _ => type_invalid
    end.

(** A compiled schema that accepts every node. *)
Definition acceptAll : ValidateFunction := fun _ => (true, None).

(** [new SchemaValidator()] over schemas that accept everything. *)
Definition lenient : SchemaValidator :=
  registerSchema "group" acceptAll
    (registerSchema "token" acceptAll (mkValidator ∅ (mkValidatorOptions None None))).

(** [new SchemaValidator({ onValidate })] with a hook that turns every
    node down. *)
Definition rejecting : SchemaValidator :=
  registerSchema "group" acceptAll
    (registerSchema "token" acceptAll
       (mkValidator ∅
          (mkValidatorOptions
             (Some (fun _ errors => errors ++ [mkValidationError "rejected" None None]))
             None))).

End Validator.

(* ===================================================================== *)
(** ** Bundler utilities ([renderers/bundlers/utils]) *)
(* ===================================================================== *)

Module BundlerUtils.

(** [BundleDataItem] of [renderers/bundlers/types]. *)
Record BundleDataItem : Type := mkItem {
  tokens : ResolvedTokens;
  modifierInputs : ModifierInputs;
  isBase : bool
}.

(** What [buildMetadata] returns, as far as the bundlers read it. *)
Record Metadata : Type := mkMetadata {
  dimensions : list string;
  defaults : list (string * string)
}.

(** Modelled from the spec: [normalizeModifierInputs] is not among the
    sources. "Modifier and context names are compared case-insensitively
    throughout the pipeline"; "permutation labels use the normalized
    (lower-case) modifier/context strings". *)
Definition normalizeModifierInputs (inputs : ModifierInputs) : ModifierInputs :=
  fold_left (fun normalized entry =>
               obj_set (toLowerCase entry.1) (toLowerCase entry.2) normalized)
            inputs [].

(** Whether the permutation's value for [entry.1] is not the base's. *)
Definition differsFrom (base : ModifierInputs) (entry : string * string) : bool :=
  match obj_get entry.1 base with
  | Some v => negb (String.eqb v entry.2)
  | None => true
  end.

(** Modelled from the spec: [countModifierDifferences] is not among the
    sources. It counts the modifiers in which a permutation "differ[s] from
    base": a "single-dimension deviation" has one, a "multi-dimension
    deviation" more. *)
Definition countModifierDifferences (current base : ModifierInputs) : nat :=
  length (List.filter (differsFrom (normalizeModifierInputs base))
                      (normalizeModifierInputs current)).

(** Modelled from the spec: [getExpectedSource] is not among the sources.
    It names "the deviating modifier-context", written as the provenance
    stamp is (["theme-dark"]); the empty string when nothing deviates. *)
Definition getExpectedSource (current base : ModifierInputs) : string :=
  match List.filter (differsFrom (normalizeModifierInputs base))
                    (normalizeModifierInputs current) with
  | entry :: _ => entry.1 +:+ "-" +:+ entry.2
  | [] => ""
  end.

(** [typeof token._sourceModifier === 'string' ? token._sourceModifier :
    undefined] (the token being an object). *)
Definition getSourceModifier (token : ResolvedToken) : option string :=
  match token !! "_sourceModifier" with
  | Some (JStr s) => Some s
  | _ => None
  end.

Definition getSourceSet (token : ResolvedToken) : option string :=
  match token !! "_sourceSet" with
  | Some (JStr s) => Some s
  | _ => None
  end.

(** Whether the token's [_sourceModifier], case apart, is [expectedSource]. *)
Definition fromSource (expectedSource : string) (token : ResolvedToken) : Prop :=
  toLowerCase <$> getSourceModifier token = Some (toLowerCase expectedSource).

#[export] Instance fromSource_dec (expectedSource : string) (token : ResolvedToken)
  : Decision (fromSource expectedSource token).
Proof. unfold fromSource. apply _. Defined.

(** Modelled from the spec: [filterTokensBySource] is not among the
    sources. It keeps "only the tokens whose _sourceModifier matches the
    deviating modifier-context"; the match is case-insensitive, as in
    [buildDefaultLayerBlocks]. *)
Definition filterTokensBySource (tokens : ResolvedTokens) (expectedSource : string)
  : ResolvedTokens :=
  base.filter (fun entry => fromSource expectedSource entry.2) tokens.

(** Modelled from the spec: [buildMetadata] is not among the sources. The
    metadata carries "dimensions and defaults"; the dimension order is the
    order of the modifiers in the resolver document, and names are
    normalized to lower case. *)
Definition buildMetadata (resolver : ResolverDocument) : Metadata :=
  let modifiers := default [] (modifiers resolver) in
  mkMetadata (map (fun entry => toLowerCase entry.1) modifiers)
             (map (fun entry => (toLowerCase entry.1, toLowerCase (modifier_default entry.2)))
                  modifiers).

(** A [selector] or [mediaQuery] option: a string, or a function of
    [(modifier, context, isBase, allInputs)]. *)
Inductive StringOrFunction : Type :=
| AsString (s : string)
| AsFunction (f : string -> string -> bool -> ModifierInputs -> Result Thrown string).

Definition quote : string := String "034"%char EmptyString.

(** Modelled from the spec: [resolveSelector] is not among the sources.
    "The default selector for a modifier deviation is
    [data-<modifier>=<context>] (the context quoted); configurable via a
    selector function receiving (modifier, context, isBase, allInputs)";
    the base permutation goes "under a default selector (e.g., :root)". *)
Definition resolveSelector (selector : option StringOrFunction) (modifier context : string)
    (isBase : bool) (allInputs : ModifierInputs) : Result Thrown string :=
  match selector with
  | Some (AsString s) => Ok s
  | Some (AsFunction f) => f modifier context isBase allInputs
  | None =>
      Ok (if isBase then ":root"
          else "[data-" +:+ modifier +:+ "=" +:+ quote +:+ context +:+ quote +:+ "]")
  end.

(** Modelled from the spec: [resolveMediaQuery] is not among the sources.
    It is the selector's counterpart for the media query; none is the
    empty string. *)
Definition resolveMediaQuery (mediaQuery : option StringOrFunction)
    (modifier context : string) (isBase : bool) (allInputs : ModifierInputs)
  : Result Thrown string :=
  match mediaQuery with
  | Some (AsString s) => Ok s
  | Some (AsFunction f) => f modifier context isBase allInputs
  | None => Ok ""
  end.

(** The text before the first ["-"] and the text after it. *)
Fixpoint splitAtDash (s : string) : string * string :=
  match s with
  | EmptyString => (EmptyString, EmptyString)
  | String c rest =>
      if Ascii.eqb c "-"%char then (EmptyString, rest)
      else let '(before, after) := splitAtDash rest in (String c before, after)
  end.

(** Modelled from the spec: [parseModifierSource] is not among the
    sources. It reads a provenance stamp "modifier-context" back into the
    modifier and the context. *)
Definition parseModifierSource (source : string) : string * string :=
  splitAtDash source.

(** Modelled from the spec: [stripInternalMetadata] is not among the
    sources. The provenance fields [_sourceSet] and [_sourceModifier] are
    "stripped before a renderer receives tokens". *)
Definition stripInternalMetadata (tokens : ResolvedTokens) : ResolvedTokens :=
  (fun token : ResolvedToken => delete "_sourceSet" (delete "_sourceModifier" token))
  <$> tokens.

(** Modelled from the spec: [buildStablePermutationKey] is not among the
    sources; the repository's unit tests give its result for
    [({ theme: dark, scale: mobile }, [theme, scale])] as
    [theme=dark|scale=mobile]. *)
Definition buildStablePermutationKey (inputs : ModifierInputs) (dimensions : list string)
  : string :=
  join "|"
    (map (fun dimension => dimension +:+ "=" +:+ default "" (obj_get dimension inputs))
         dimensions).

End BundlerUtils.

(* ===================================================================== *)
(** ** CSS bundler ([renderers/bundlers/css.ts]) *)
(* ===================================================================== *)

Module CssBundler.
Import BundlerUtils.

Definition nl : string := String "010"%char EmptyString.

(** Whether [s] is a truthy string. *)
Definition nonEmpty (s : string) : bool := negb (String.eqb s "").

(** [keys.sort()]: by code unit. *)
Fixpoint insertSorted (k : string) (sorted : list string) : list string :=
  match sorted with
  | [] => [k]
  | x :: rest => if String.leb k x then k :: sorted else x :: insertSorted k rest
  end.

Definition sortKeys (keys : list string) : list string :=
  fold_right insertSorted [] keys.

Record DefaultLayerBlock : Type := mkBlock {
  block_key : string;
  block_description : option string;
  block_tokens : ResolvedTokens
}.

Record ResolvedCssOptions : Type := mkResolvedCssOptions {
  resolved_selector : string;
  resolved_mediaQuery : string;
  resolved_minify : option bool;
  referenceTokens : ResolvedTokens
}.

(** The [formatTokens] callback of the CSS renderer. *)
Abbreviation Formatter := (ResolvedTokens -> ResolvedCssOptions -> Result Thrown string).

Set Implicit Arguments.

Section Css.

(** The [selector] and [mediaQuery] options: a string or a function. *)
Variables Selector MediaQuery : Type.

Record CssRendererOptions : Type := mkCssOptions {
  selector : option Selector;
  mediaQuery : option MediaQuery;
  minify : option bool
}.

(** What [css.ts] imports from [./utils]. The selector and media-query
    resolvers may call into user functions, which may throw. *)
Record Utils : Type := mkUtils {
  stripInternalMetadata : ResolvedTokens -> ResolvedTokens;
  resolveSelector :
    option Selector -> string -> string -> bool -> ModifierInputs -> Result Thrown string;
  resolveMediaQuery :
    option MediaQuery -> string -> string -> bool -> ModifierInputs -> Result Thrown string;
  utils_countModifierDifferences : ModifierInputs -> ModifierInputs -> nat;
  utils_getExpectedSource : ModifierInputs -> ModifierInputs -> string;
  utils_filterTokensBySource : ResolvedTokens -> string -> ResolvedTokens;
  parseModifierSource : string -> string * string;
  utils_normalizeModifierInputs : ModifierInputs -> ModifierInputs
}.

Variable utils : Utils.

(** [Object.values(tokens).some((token) => token != null &&
    getSourceModifier(token) !== undefined)]. *)
Definition hasSourceMetadata (tokens : ResolvedTokens) : bool :=
  existsb (fun entry => match getSourceModifier entry.2 with Some _ => true | None => false end)
          (map_to_list tokens).

(** The tokens a modifier block is formatted from. *)
Definition tokensToInclude (tokens : ResolvedTokens) (expectedSource : string)
  : ResolvedTokens :=
  let filtered := utils_filterTokensBySource utils tokens expectedSource in
  if (size filtered =? 0)%nat && negb (hasSourceMetadata tokens) then tokens else filtered.

Definition formatModifierPermutation (item baseItem : BundleDataItem)
    (options : option CssRendererOptions) (formatTokens : Formatter)
  : Result Thrown (option string) :=
  let differenceCount :=
    utils_countModifierDifferences utils (modifierInputs item) (modifierInputs baseItem) in
  if (1 <? differenceCount)%nat then Ok None
  else
    let expectedSource :=
      utils_getExpectedSource utils (modifierInputs item) (modifierInputs baseItem) in
    let included := tokensToInclude (tokens item) expectedSource in
    if (size included =? 0)%nat then Ok None
    else
      let '(modifier, context) := parseModifierSource utils expectedSource in
      let cleanTokens := stripInternalMetadata utils included in
      let referenceTokens := stripInternalMetadata utils (tokens item) in
      selector ← resolveSelector utils (options ≫= selector) modifier context false
                   (modifierInputs item);
      mediaQuery ← resolveMediaQuery utils (options ≫= mediaQuery) modifier context false
                     (modifierInputs item);
      css ← formatTokens cleanTokens
              (mkResolvedCssOptions selector mediaQuery (options ≫= minify) referenceTokens);
      Ok (Some ("/* Modifier: " +:+ modifier +:+ "=" +:+ context +:+ " */" +:+ nl +:+ css)).

(** The blocks built so far and the names already placed in one. *)
Abbreviation LayerState := (list DefaultLayerBlock * gset string)%type.

Definition addBlock (key : string) (blockTokens : ResolvedTokens)
    (description : option string) (st : LayerState) : LayerState :=
  if (size blockTokens =? 0)%nat then st
  else (st.1 ++ [mkBlock key description blockTokens], st.2 ∪ dom blockTokens).

Definition layerStep (tokens : ResolvedTokens) (baseInputs : ModifierInputs)
    (resolver : ResolverDocument) (st : LayerState) (item : JsValue) : LayerState :=
  match item_ref item with
  | None => st
  | Some ref =>
      if startsWith ref "#/sets/" then
        let setName := slice_from (String.length "#/sets/") ref in
        let setDescription :=
          (sets resolver ≫= obj_get setName) ≫= set_description in
        let setTokens :=
          base.filter (fun entry => (entry.1 ∉ st.2) ∧ getSourceSet entry.2 = Some setName)
                      tokens in
        addBlock ("Set: " +:+ setName) setTokens setDescription st
      else if startsWith ref "#/modifiers/" then
        let modifierName := slice_from (String.length "#/modifiers/") ref in
        match modifiers resolver ≫= obj_get modifierName with
        | None => st
        | Some modifier =>
            match obj_get (toLowerCase modifierName) baseInputs with
            | None => st
            | Some selectedContext =>
                if nonEmpty selectedContext then
                  let expectedSource :=
                    toLowerCase (modifierName +:+ "-" +:+ selectedContext) in
                  let modifierTokens :=
                    base.filter
                      (fun entry =>
                         (entry.1 ∉ st.2) ∧
                         toLowerCase (default "" (getSourceModifier entry.2)) = expectedSource)
                      tokens in
                  addBlock ("Modifier: " +:+ modifierName +:+ "=" +:+ selectedContext
                            +:+ " (default)")
                           modifierTokens (modifier_description modifier) st
                else st
            end
        end
      else st
  end.

Definition buildDefaultLayerBlocks (tokens : ResolvedTokens)
    (baseModifierInputs : ModifierInputs) (resolver : ResolverDocument)
  : list DefaultLayerBlock :=
  let baseInputs := utils_normalizeModifierInputs utils baseModifierInputs in
  let st := fold_left (layerStep tokens baseInputs resolver) (resolutionOrder resolver)
                      ([], ∅) in
  (* Safety: include any remaining tokens *)
  let remainder := base.filter (fun entry => entry.1 ∉ st.2) tokens in
  (addBlock "Unattributed" remainder None st).1.

Definition blockHeader (block : DefaultLayerBlock) : string :=
  match block_description block with
  | Some description =>
      if nonEmpty description then
        "/* " +:+ block_key block +:+ " */" +:+ nl +:+ "/* " +:+ description +:+ " */"
      else "/* " +:+ block_key block +:+ " */"
  | None => "/* " +:+ block_key block +:+ " */"
  end.

Definition formatBasePermutation (item : BundleDataItem) (resolver : ResolverDocument)
    (options : option CssRendererOptions) (formatTokens : Formatter)
  : Result Thrown (list string) :=
  let firstModifierName :=
    match modifiers resolver with
    | Some declared => head (obj_keys declared)
    | None => Some ""
    end in
  let modifier := default "" firstModifierName in
  let context := default "" (obj_get modifier (modifierInputs item)) in
  selector ← resolveSelector utils (options ≫= selector) modifier context true
               (modifierInputs item);
  mediaQuery ← resolveMediaQuery utils (options ≫= mediaQuery) modifier context true
                 (modifierInputs item);
  let referenceTokens := stripInternalMetadata utils (tokens item) in
  let defaultBlocks := buildDefaultLayerBlocks (tokens item) (modifierInputs item) resolver in
  forEachR
    (fun block =>
       let cleanTokens := stripInternalMetadata utils (block_tokens block) in
       css ← formatTokens cleanTokens
               (mkResolvedCssOptions selector mediaQuery (options ≫= minify) referenceTokens);
       Ok [blockHeader block +:+ nl +:+ css])
    defaultBlocks.

(** The first pass of [getOrderedModifierNames]: the modifiers named by
    [resolutionOrder], first mention first. [name in modifiers] is read
    as an own-property test. *)
Definition orderedStep (declared : list (string * ModifierDef))
    (st : list string * list string) (item : JsValue) : list string * list string :=
  match item_ref item with
  | None => st
  | Some ref =>
      if negb (startsWith ref "#/modifiers/") then st
      else
        let name := slice_from (String.length "#/modifiers/") ref in
        if existsb (String.eqb name) st.1 then st
        else if negb (obj_has name declared) then st
        else (st.1 ++ [name], st.2 ++ [name])
  end.

(** [getOrderedModifierNames]; the state is [(seen, ordered)]. *)
Definition getOrderedModifierNames (resolver : ResolverDocument) : list string :=
  let declared := default [] (modifiers resolver) in
  let st := fold_left (orderedStep declared) (resolutionOrder resolver) ([], []) in
  (fold_left
     (fun (st : list string * list string) name =>
        if existsb (String.eqb name) st.1 then st else (st.1 ++ [name], st.2 ++ [name]))
     (obj_keys declared) st).2.

Definition stableInputsKey (modifierInputs : ModifierInputs) : string :=
  let normalized := utils_normalizeModifierInputs utils modifierInputs in
  join "|"
    (map (fun k => k +:+ "=" +:+ default "undefined" (obj_get k normalized))
         (sortKeys (obj_keys normalized))).

(** The state of [orderBundleData]'s loop: [(includedKeys, ordered)]. *)
Abbreviation OrderState := (list string * list BundleDataItem)%type.

Definition pushUnique (item : option BundleDataItem) (st : OrderState) : OrderState :=
  match item with
  | None => st
  | Some item =>
      let key := stableInputsKey (modifierInputs item) in
      if existsb (String.eqb key) st.1 then st
      else (st.1 ++ [key], st.2 ++ [item])
  end.

Definition findSingleDiff (bundleData : list BundleDataItem) (baseInputs : ModifierInputs)
    (modifierName context : string) : option BundleDataItem :=
  let normalizedModifier := toLowerCase modifierName in
  let normalizedContext := toLowerCase context in
  List.find
    (fun item =>
       if isBase item then false
       else
         let inputs := utils_normalizeModifierInputs utils (modifierInputs item) in
         match obj_get normalizedModifier inputs with
         | Some v =>
             String.eqb v normalizedContext &&
             forallb
               (fun entry =>
                  String.eqb entry.1 normalizedModifier ||
                  match obj_get entry.1 inputs with
                  | Some v' => String.eqb v' entry.2
                  | None => false
                  end)
               baseInputs
         | None => false
         end)
    bundleData.

Definition orderBundleData (bundleData : list BundleDataItem) (resolver : ResolverDocument)
    (baseItem : BundleDataItem) : list BundleDataItem :=
  match modifiers resolver with
  | None => bundleData
  | Some declared =>
      let baseInputs := utils_normalizeModifierInputs utils (modifierInputs baseItem) in
      let orderedModifierNames := getOrderedModifierNames resolver in
      match orderedModifierNames with
      | [] => bundleData
      | firstModifier :: _ =>
          if negb (nonEmpty firstModifier) then bundleData
          else
            match obj_get firstModifier declared with
            | None => bundleData
            | Some _ =>
                (* Base (root) always comes first *)
                let st := pushUnique (Some baseItem) ([], []) in
                let st :=
                  fold_left
                    (fun st modifierName =>
                       match obj_get modifierName declared with
                       | None => st
                       | Some modifierDef =>
                           let defaultValue :=
                             default "" (obj_get (toLowerCase modifierName) baseInputs) in
                           fold_left
                             (fun st ctx =>
                                if String.eqb defaultValue (toLowerCase ctx) then st
                                else pushUnique
                                       (findSingleDiff bundleData baseInputs modifierName ctx)
                                       st)
                             (obj_keys (contexts modifierDef)) st
                       end)
                    orderedModifierNames st in
                match st.2 with
                | [] => bundleData
                | ordered => ordered
                end
            end
      end
  end.

(** [bundleAsCss]; [formatTokens] is [None] when the caller passed none. *)
Definition bundleAsCss (bundleData : list BundleDataItem) (resolver : ResolverDocument)
    (options : option CssRendererOptions) (formatTokens : option Formatter)
  : Result Thrown string :=
  match List.find isBase bundleData with
  | None => Throw (newError BasePermutationError "Base permutation not found in bundle data")
  | Some baseItem =>
      match formatTokens with
      | None => Throw (newError ConfigurationError "CSS formatter was not provided")
      | Some formatTokens =>
          let orderedBundleData := orderBundleData bundleData resolver baseItem in
          cssBlocks ←
            forEachR
              (fun item =>
                 if isBase item then formatBasePermutation item resolver options formatTokens
                 else
                   block ← formatModifierPermutation item baseItem options formatTokens;
                   Ok (match block with
                       | Some block => if nonEmpty block then [block] else []
                       | None => []
                       end))
              orderedBundleData;
          Ok (join (nl +:+ nl) cssBlocks)
      end
  end.

(** The thrown value [t] came out of one of the callbacks [bundleAsCss]
    runs: the selector or media-query option, or the formatter. *)
Definition thrownByCallback (options : option CssRendererOptions)
    (formatTokens : option Formatter) (t : Thrown) : Prop :=
  (exists modifier context isBase inputs,
     resolveSelector utils (options ≫= selector) modifier context isBase inputs = Throw t)
  \/ (exists modifier context isBase inputs,
        resolveMediaQuery utils (options ≫= mediaQuery) modifier context isBase inputs
        = Throw t)
  \/ (exists format tokens resolvedOptions,
        formatTokens = Some format /\ format tokens resolvedOptions = Throw t).

End Css.

Unset Implicit Arguments.

(** The utilities as modelled in [BundlerUtils]. *)
Definition defaultUtils : Utils StringOrFunction StringOrFunction :=
  mkUtils
          BundlerUtils.stripInternalMetadata
          BundlerUtils.resolveSelector BundlerUtils.resolveMediaQuery
          countModifierDifferences getExpectedSource filterTokensBySource
          BundlerUtils.parseModifierSource normalizeModifierInputs.

(** The utilities with the modelled ones filled in; the rest as given. *)
Definition modelledUtils {Selector MediaQuery : Type}
    (strip : ResolvedTokens -> ResolvedTokens)
    (resolveSelector :
       option Selector -> string -> string -> bool -> ModifierInputs -> Result Thrown string)
    (resolveMediaQuery :
       option MediaQuery -> string -> string -> bool -> ModifierInputs -> Result Thrown string)
    (parseModifierSource : string -> string * string) : Utils Selector MediaQuery :=
  mkUtils strip resolveSelector resolveMediaQuery
          countModifierDifferences getExpectedSource filterTokensBySource
          parseModifierSource normalizeModifierInputs.

(** A formatter that writes the selector and the names of the tokens it
    is given. *)
Definition listNames : ResolvedTokens -> ResolvedCssOptions -> Result Thrown string :=
  fun tokens options =>
    Ok (resolved_selector options +:+ " { "
        +:+ join " " (map fst (map_to_list tokens)) +:+ " }").

(** The [light] (base) and [dark] permutations of a resolver whose
    tokens all come from the set [core]: no token carries a
    [_sourceModifier]. *)
Definition coreOnly (value : string) : ResolvedTokens :=
  {[ "color.text" := <["_sourceSet" := JStr "core"]> (<["$value" := JStr value]> ∅) ]}.

Definition lightItem : BundleDataItem := mkItem (coreOnly "#000") [("theme", "light")] true.
Definition darkItem : BundleDataItem := mkItem (coreOnly "#000") [("theme", "dark")] false.

(** The [dark] permutation when the context redefines [color.text]. *)
Definition darkOverride : BundleDataItem :=
  mkItem
    (<["color.text" :=
         <["_sourceModifier" := JStr "theme-dark"]> (<["$value" := JStr "#fff"]> ∅)]>
       (<["color.link" := <["_sourceSet" := JStr "core"]> (<["$value" := JStr "#00f"]> ∅)]> ∅))
    [("theme", "dark")] false.

End CssBundler.

(* ===================================================================== *)
(** ** JS-module and JSON bundlers ([renderers/bundlers/js.ts], [json.ts]) *)
(* ===================================================================== *)

Module JsBundler.
Import BundlerUtils.

Definition nl : string := String "010"%char EmptyString.

(** [\s] on ASCII text: the space and the control characters from tab
    to carriage return. The code's class also holds the white space
    outside ASCII (U+00A0, U+FEFF, the Unicode space separators and line
    terminators), which is not white space here. *)
Definition isSpace (c : ascii) : bool :=
  let n := nat_of_ascii c in
  (n =? 32)%nat || ((9 <=? n)%nat && (n <=? 13)%nat).

(** [\w]. *)
Definition isWord (c : ascii) : bool :=
  let n := nat_of_ascii c in
  ((48 <=? n)%nat && (n <=? 57)%nat) || ((65 <=? n)%nat && (n <=? 90)%nat)
  || ((97 <=? n)%nat && (n <=? 122)%nat) || (n =? 95)%nat.

(** The longest prefix of characters in the class, and the rest. *)
Fixpoint span (class : ascii -> bool) (s : string) : string * string :=
  match s with
  | String c rest =>
      if class c then let '(taken, others) := span class rest in (String c taken, others)
      else (EmptyString, s)
  | EmptyString => (EmptyString, EmptyString)
  end.

(** [s] without the prefix [p], when it starts with it. *)
Fixpoint stripPrefix (p s : string) : option string :=
  match p, s with
  | EmptyString, _ => Some s
  | String a p', String b s' => if Ascii.eqb a b then stripPrefix p' s' else None
  | String _ _, EmptyString => None
  end.

(** The length of the match of [/const\s+\w+\s*=\s*\{/] anchored at the
    start of [s]. The classes are pairwise disjoint, so the greedy match
    is the only one. *)
Definition matchAssignment (s : string) : option nat :=
  rest ← stripPrefix "const" s;
  let '(ws1, rest) := span isSpace rest in
  if (String.length ws1 =? 0)%nat then None
  else
    let '(name, rest) := span isWord rest in
    if (String.length name =? 0)%nat then None
    else
      let '(ws2, rest) := span isSpace rest in
      rest ← stripPrefix "=" rest;
      let '(ws3, rest) := span isSpace rest in
      _ ← stripPrefix "{" rest;
      Some (5 + String.length ws1 + String.length name + String.length ws2 + 1
            + String.length ws3 + 1)%nat.

(** [regex.exec(s)]: the index and length of the leftmost match. *)
Fixpoint execAssignment (index : nat) (s : string) : option (nat * nat) :=
  match matchAssignment s with
  | Some len => Some (index, len)
  | None =>
      match s with
      | String _ rest => execAssignment (S index) rest
      | EmptyString => None
      end
  end.

Definition isQuote (c : ascii) : bool :=
  Ascii.eqb c "034"%char || Ascii.eqb c "'"%char || Ascii.eqb c "`"%char.

(** The scanning loop of [extractObjectFromJsModule] from the opening
    brace on: the text up to and including the matching closing brace. *)
Fixpoint scanObject (s : string) (braceCount : Z) (inString : bool)
    (stringChar : option ascii) (escaped : bool) : option string :=
  match s with
  | EmptyString => None
  | String char rest =>
      let '(inString, stringChar) :=
        if negb escaped && isQuote char then
          if negb inString then (true, Some char)
          else if match stringChar with Some q => Ascii.eqb char q | None => false end
               then (false, None)
               else (inString, stringChar)
        else (inString, stringChar) in
      let escaped := negb escaped && Ascii.eqb char "092"%char in
      if negb inString then
        if Ascii.eqb char "{"%char then
          option_map (String char)
            (scanObject rest (braceCount + 1)%Z inString stringChar escaped)
        else if Ascii.eqb char "}"%char then
          let braceCount := (braceCount - 1)%Z in
          if (braceCount =? 0)%Z then Some (String char EmptyString)
          else option_map (String char) (scanObject rest braceCount inString stringChar escaped)
        else option_map (String char) (scanObject rest braceCount inString stringChar escaped)
      else option_map (String char) (scanObject rest braceCount inString stringChar escaped)
  end.

Definition extractObjectFromJsModule (formattedJs : string) : string :=
  match execAssignment 0 formattedJs with
  | None => "{}"
  | Some (index, len) =>
      let startIndex := (index + len - 1)%nat in
      default "{}" (scanObject (slice_from startIndex formattedJs) 0%Z false None false)
  end.

(** [w.charAt(0).toUpperCase() + w.slice(1)]. *)
Definition capitalize (w : string) : string :=
  match w with
  | String c rest => String (upper_ascii c) rest
  | EmptyString => EmptyString
  end.

Definition toCamelKey (key : string) : string :=
  if String.eqb key "" then ""
  else
    join ""
      (imap (fun i w => match i with O => w | S _ => capitalize w end)
            (List.filter (fun part => negb (String.eqb part "")) (split_on "-"%char key))).

(** [tokenObject.replace(/\n/g, '\n  ')]. *)
Fixpoint indent (s : string) : string :=
  match s with
  | EmptyString => EmptyString
  | String c rest =>
      if Ascii.eqb c "010"%char then String c ("  " +:+ indent rest)
      else String c (indent rest)
  end.

Section Js.

(** [normalizeModifierInputs], [buildMetadata], [stripInternalMetadata] and
    [buildStablePermutationKey] of [./utils], and the host's
    [JSON.stringify] and [JSON.parse]. *)
Variable normalizeModifierInputs : ModifierInputs -> ModifierInputs.
Variable buildMetadata : ResolverDocument -> Metadata.
Variable stripInternalMetadata : ResolvedTokens -> ResolvedTokens.
Variable buildStablePermutationKey : ModifierInputs -> list string -> string.
Variable stringifyString : string -> string.
Variable stringifyMetadata : Metadata -> string.
Variable JSON_parse : string -> Result Thrown JsValue.

Definition buildStableDashKey (modifierInputs : ModifierInputs) (dimensions : list string)
    (defaults : list (string * string)) : string :=
  let inputs := normalizeModifierInputs modifierInputs in
  join "-"
    (map (fun dimension =>
            match obj_get dimension inputs with
            | Some value => value
            | None => default "" (obj_get dimension defaults)
            end)
         dimensions).

Record JsModuleRendererOptions : Type := mkJsOptions {
  generateHelper : option bool
}.

(** One entry of the [tokens] object literal: the comment above it, its
    quoted key and the object text. *)
Record JsEntry : Type := mkEntry {
  entry_comment : string;
  entry_key : string;
  entry_object : string
}.

Definition renderEntry (e : JsEntry) : string :=
  entry_comment e +:+ nl +:+ "  " +:+ stringifyString (entry_key e) +:+ ": "
  +:+ entry_object e.

(** The body of the [for (const { tokens, modifierInputs } of bundleData)]
    loop of [bundleAsJsModule]. *)
Definition jsEntry (metadata : Metadata)
    (formatTokens : option (ResolvedTokens -> Result Thrown string))
    (item : BundleDataItem) : Result Thrown JsEntry :=
  let cleanTokens := stripInternalMetadata (tokens item) in
  let key := buildStableDashKey (modifierInputs item) (dimensions metadata)
                                (defaults metadata) in
  let camelKey := toCamelKey key in
  match formatTokens with
  | None => Throw (newError ConfigurationError "JS formatter was not provided")
  | Some formatTokens =>
      formattedJs ← formatTokens cleanTokens;
      let tokenObject := extractObjectFromJsModule formattedJs in
      Ok (mkEntry ("  // " +:+ key) camelKey (indent tokenObject))
  end.

Fixpoint jsEntries (metadata : Metadata)
    (formatTokens : option (ResolvedTokens -> Result Thrown string))
    (bundleData : list BundleDataItem) : Result Thrown (list JsEntry) :=
  match bundleData with
  | [] => Ok []
  | item :: rest =>
      e ← jsEntry metadata formatTokens item;
      es ← jsEntries metadata formatTokens rest;
      Ok (e :: es)
  end.

Definition helperText (metadata : Metadata) : string :=
  let dimensionOrder := join ", " (map stringifyString (dimensions metadata)) in
  "/**" +:+ nl
  +:+ " * Get tokens for a specific modifier combination" +:+ nl
  +:+ " * @param {Object} modifiers - Modifier values (e.g., { theme: 'dark', brand: 'partner-a' })" +:+ nl
  +:+ " * @returns {Object} Resolved tokens for the combination" +:+ nl
  +:+ " */" +:+ nl
  +:+ "export function getTokens(modifiers = {}) {" +:+ nl
  +:+ "  const key = [" +:+ dimensionOrder +:+ "]" +:+ nl
  +:+ "    .map(dim => modifiers[dim] || tokenBundle._meta.defaults[dim])" +:+ nl
  +:+ "    .join('-')" +:+ nl
  +:+ "  const camelKey = key" +:+ nl
  +:+ "    .split('-')" +:+ nl
  +:+ "    .filter(Boolean)" +:+ nl
  +:+ "    .map((w, i) => (i === 0 ? w : w.charAt(0).toUpperCase() + w.slice(1)))" +:+ nl
  +:+ "    .join('')" +:+ nl
  +:+ "  return tokenBundle.tokens[camelKey]" +:+ nl
  +:+ "}" +:+ nl +:+ nl.

Definition bundleAsJsModule (bundleData : list BundleDataItem) (resolver : ResolverDocument)
    (options : option JsModuleRendererOptions)
    (formatTokens : option (ResolvedTokens -> Result Thrown string))
  : Result Thrown string :=
  let metadata := buildMetadata resolver in
  entries ← jsEntries metadata formatTokens bundleData;
  let jsBlocks := map renderEntry entries in
  let generateHelper := default false (options ≫= generateHelper) in
  let outputContent :=
    "const tokenBundle = {" +:+ nl
    +:+ "  _meta: " +:+ indent (stringifyMetadata metadata) +:+ "," +:+ nl
    +:+ "  tokens: {" +:+ nl +:+ join ("," +:+ nl) jsBlocks +:+ nl +:+ "  }" +:+ nl
    +:+ "}" +:+ nl +:+ nl in
  let outputContent :=
    if generateHelper then outputContent +:+ helperText metadata else outputContent in
  Ok (outputContent +:+ "export default tokenBundle" +:+ nl).

(** The [bundle] object of [bundleAsJson] before it is stringified. *)
Record JsonBundle : Type := mkJsonBundle {
  _meta : Metadata;
  bundle_tokens : list (string * JsValue)
}.

Variable stringifyBundle : JsonBundle -> string.

(** The key [bundleAsJson] files a permutation under. *)
Definition jsonKey (metadata : Metadata) (item : BundleDataItem) : string :=
  buildStablePermutationKey (normalizeModifierInputs (modifierInputs item))
                            (dimensions metadata).

(** The [for] loop of [bundleAsJson], filling the [tokens] object. *)
Fixpoint jsonEntries (metadata : Metadata) (formatTokens : ResolvedTokens -> Result Thrown string)
    (bundleData : list BundleDataItem) (tokens : list (string * JsValue))
  : Result Thrown (list (string * JsValue)) :=
  match bundleData with
  | [] => Ok tokens
  | item :: rest =>
      let cleanTokens := stripInternalMetadata (BundlerUtils.tokens item) in
      let normalizedInputs := normalizeModifierInputs (modifierInputs item) in
      let key := buildStablePermutationKey normalizedInputs (dimensions metadata) in
      themeJson ← formatTokens cleanTokens;
      parsed ← JSON_parse themeJson;
      jsonEntries metadata formatTokens rest (obj_set key parsed tokens)
  end.

Definition jsonBundle (bundleData : list BundleDataItem) (resolver : ResolverDocument)
    (formatTokens : option (ResolvedTokens -> Result Thrown string))
  : Result Thrown JsonBundle :=
  match formatTokens with
  | None => Throw (newError ConfigurationError "JSON formatter was not provided")
  | Some formatTokens =>
      let metadata := buildMetadata resolver in
      tokens ← jsonEntries metadata formatTokens bundleData [];
      Ok (mkJsonBundle metadata tokens)
  end.

Definition bundleAsJson (bundleData : list BundleDataItem) (resolver : ResolverDocument)
    (formatTokens : option (ResolvedTokens -> Result Thrown string))
  : Result Thrown string :=
  bundle ← jsonBundle bundleData resolver formatTokens;
  Ok (stringifyBundle bundle).

End Js.

(** A resolver with the modifiers [theme] and [platform], in that order. *)
Definition themePlatformResolver : ResolverDocument :=
  mkResolver "2025.10" None
    (Some [("theme", mkModifier "light" [("light", []); ("dark", [])] None);
           ("platform", mkModifier "web" [("web", []); ("mobile", [])] None)])
    [JObj [("$ref", JStr "#/modifiers/theme")]; JObj [("$ref", JStr "#/modifiers/platform")]].

(** Its permutation [dark], [mobile]. *)
Definition darkMobile : BundleDataItem :=
  mkItem {[ "color.text" := <["$value" := JStr "#fff"]> ∅ ]}
         [("theme", "dark"); ("platform", "mobile")] false.


End JsBundler.

(* ===================================================================== *)
(** ** A small pipeline to run the properties on *)
(* ===================================================================== *)

Module Scenarios.
Import Pipeline.

(** A reference resolver that cannot find what a top-level [$ref] points
    at, and hands back any other document as it is. *)
Definition resolveDeepOrFail (_ : unit) (document _ : TokenDocument)
  : M HandlerWorld JsValue :=
  fun w =>
    match get_prop document "$ref" with
    | JStr uri =>
        (Throw (ThrownError (mkError TokenReferenceError "Unresolved reference" [uri])), w)
    | _ => (Ok document, w)
    end.

(** The document an engine merges for one permutation: one token per
    modifier, valued by the chosen context. *)
Definition documentFor (inputs : ModifierInputs) : TokenDocument :=
  JObj (map (fun entry => (entry.1, JObj [("$value", JStr entry.2)])) inputs).

(** The permutations of a resolver with at most one modifier. *)
Definition permutationsOf (resolver : ResolverDocument) : list ModifierInputs :=
  match modifiers resolver with
  | Some ((name, def) :: _) => map (fun context => [(name, context.1)]) (contexts def)
  | _ => [[]]
  end.

(** A flattener for documents one level deep. *)
Definition flattenOneLevel (document : TokenDocument) : ResolvedTokens :=
  match document with
  | JObj fields =>
      list_to_map
        (map (fun field =>
                (field.1,
                 <["$value" := get_prop field.2 "$value"]> (<["name" := JStr field.1]> ∅)))
             fields)
  | _ => ∅
  end.

(** Collaborators small enough to run: resolvers given inline, documents
    one level deep, the validation handler as modelled. *)
Definition exampleEnv : Collaborators HandlerWorld ResolverDocument unit unit ResolvedTokens :=
  {| load := fun resolver w =>
       match resolver with
       | inr document => (Ok (mkLoaded document "."), w)
       | inl path => (Throw (newError FileOperationError ("read " +:+ path)), w)
       end;
     newReferenceResolver := fun _ _ => tt;
     newResolutionEngine := fun document _ => document;
     resolveWithInputs := fun _ inputs w => (Ok (documentFor inputs, inputs), w);
     generatePermutations := fun engine w => (Ok (permutationsOf engine), w);
     resolveDeepTokenDocument := resolveDeepOrFail;
     flatten := fun document w => (Ok (flattenOneLevel document), w);
     aliasResolve := fun flat w => (Ok flat, w);
     applyFilters := fun tokens filters => Ok (TokenModifier.applyFilters tokens filters);
     applyTransforms := fun tokens transforms =>
       Ok (TokenModifier.applyTransforms tokens transforms);
     handleIssue := ValidationHandler_handleIssue;
     warn := ValidationHandler_warn;
     newMap := fun w => (Ok tt, w);
     toString := fun _ => "[object]" |}.

(** The collaborators [env] with [applyFilters] and [applyTransforms] as
    modelled in [TokenModifier]. *)
Definition withTokenModifier {World ResolutionEngine ReferenceResolver FileCache FlatTokens}
    (env : Collaborators World ResolutionEngine ReferenceResolver FileCache FlatTokens)
  : Collaborators World ResolutionEngine ReferenceResolver FileCache FlatTokens :=
  {| load := load env;
     newReferenceResolver := newReferenceResolver env;
     newResolutionEngine := newResolutionEngine env;
     resolveWithInputs := resolveWithInputs env;
     generatePermutations := generatePermutations env;
     resolveDeepTokenDocument := resolveDeepTokenDocument env;
     flatten := flatten env;
     aliasResolve := aliasResolve env;
     applyFilters := fun tokens filters => Ok (TokenModifier.applyFilters tokens filters);
     applyTransforms := fun tokens transforms =>
       Ok (TokenModifier.applyTransforms tokens transforms);
     handleIssue := handleIssue env;
     warn := warn env;
     newMap := newMap env;
     toString := toString env |}.

(** A resolver with the modifier [theme] and its contexts [light] and
    [dark]. *)
Definition themeResolver : ResolverDocument :=
  mkResolver "2025.10" None
    (Some [("theme", mkModifier "light" [("light", []); ("dark", [])] None)])
    [JObj [("$ref", JStr "#/modifiers/theme")]].

(** A preprocessor that leaves a dangling [$ref] behind. *)
Definition danglingRef : Preprocessor HandlerWorld :=
  {| preprocess := fun _ w => (Ok (JObj [("$ref", JStr "#/missing")]), w) |}.

(** The Stage 4 result that holds the dangling [$ref]. *)
Definition danglingStage : PreprocessedStage ResolverDocument unit :=
  mkPreprocessed
    (mkCarried (mkEngineReady (mkLoaded themeResolver ".") themeResolver tt)
               [("theme", "dark")])
    (JObj [("$ref", JStr "#/missing")]).

Definition unresolved : ErrorObj :=
  mkError TokenReferenceError "Unresolved reference" ["#/missing"].

(** The handler's world in each validation mode, nothing warned yet. *)
Definition strictWorld : HandlerWorld := mkHandlerWorld mode_error [].
Definition warningWorld : HandlerWorld := mkHandlerWorld mode_warn [].

End Scenarios.

(* ===================================================================== *)
(** ** Characters of a string *)
(* ===================================================================== *)

Module Chars.

(** Whether the character [c] occurs in [s]. *)
Fixpoint occurs (c : ascii) (s : string) : bool :=
  match s with
  | EmptyString => false
  | String d rest => Ascii.eqb d c || occurs c rest
  end.

(** Whether every character of [s] is in the class. *)
Fixpoint allChars (class : ascii -> bool) (s : string) : bool :=
  match s with
  | EmptyString => true
  | String c rest => class c && allChars class rest
  end.


(** A character that the scanner of [extractObjectFromJsModule] passes
    over without changing its state: no brace, no quote, no backslash. *)
Definition plain (c : ascii) : bool :=
  negb (Ascii.eqb c "{"%char) && negb (Ascii.eqb c "}"%char)
  && negb (JsBundler.isQuote c) && negb (Ascii.eqb c "092"%char).

End Chars.

(* ===================================================================== *)
(** ** Invariants of the CSS bundler's loops *)
(* ===================================================================== *)

Module CssInvariants.
Import BundlerUtils CssBundler.

(** What the loop of [buildDefaultLayerBlocks] keeps true of the blocks
    built so far and of the names recorded in [included]: no block is
    empty, every block is part of [tokens], [included] holds the names
    of the blocks, and no name is in two blocks. *)
Record layered (tokens : ResolvedTokens) (st : list DefaultLayerBlock * gset string)
  : Prop := mkLayered {
  layered_nonempty : Forall (fun block => block_tokens block <> ∅) st.1;
  layered_subset : Forall (fun block => block_tokens block ⊆ tokens) st.1;
  layered_included :
    forall name,
      name ∈ st.2 <-> exists block, block ∈ st.1 /\ is_Some (block_tokens block !! name);
  layered_disjoint :
    forall i j b b' name,
      st.1 !! i = Some b -> st.1 !! j = Some b' ->
      is_Some (block_tokens b !! name) -> is_Some (block_tokens b' !! name) -> i = j
}.

(** The names a plain object inherits from [Object.prototype]. *)
Definition Object_prototype_names : list string :=
  [ "constructor"; "__proto__"; "hasOwnProperty"; "isPrototypeOf"; "propertyIsEnumerable";
    "toLocaleString"; "toString"; "valueOf"; "__defineGetter__"; "__defineSetter__";
    "__lookupGetter__"; "__lookupSetter__" ].

Definition inheritedName (name : string) : bool :=
  existsb (String.eqb name) Object_prototype_names.

(** The resolution order names no modifier by a name that plain objects
    inherit. For such a name [name in modifiers] and [modifiers[name]]
    find the inherited member, whatever the resolver declares. *)
Definition ownNamesOnly (resolver : ResolverDocument) : Prop :=
  forall item ref,
    item ∈ resolutionOrder resolver ->
    item_ref item = Some ref ->
    startsWith ref "#/modifiers/" = true ->
    inheritedName (slice_from (String.length "#/modifiers/") ref) = false.

(** The resolution order of [resolver] names the modifier [name]. *)
Definition referenced (resolver : ResolverDocument) (name : string) : Prop :=
  exists item,
    item ∈ resolutionOrder resolver /\ item_ref item = Some ("#/modifiers/" +:+ name).

(** What the first pass of [getOrderedModifierNames] keeps true, [done]
    being the items of the resolution order already seen: [seen] and
    [ordered] hold the same names, each once, and these are the declared
    modifiers that [done] names. *)
Definition mentionedBy (declared : list (string * ModifierDef)) (done : list JsValue)
    (st : list string * list string) : Prop :=
  st.1 = st.2 /\ NoDup st.2
  /\ forall name,
       name ∈ st.2
       <-> name ∈ obj_keys declared
           /\ exists item, item ∈ done /\ item_ref item = Some ("#/modifiers/" +:+ name).

(** The permutation [item] deviates from the base permutation in one
    modifier: there its context is not the base's, and in every other
    modifier of the base it has the base's context. *)
Definition deviatesInOne {Selector MediaQuery : Type} (utils : Utils Selector MediaQuery)
    (baseItem item : BundleDataItem) : Prop :=
  let baseInputs := utils_normalizeModifierInputs utils (modifierInputs baseItem) in
  let inputs := utils_normalizeModifierInputs utils (modifierInputs item) in
  exists modifier,
    obj_get modifier inputs <> obj_get modifier baseInputs
    /\ forall entry,
         entry ∈ baseInputs -> entry.1 <> modifier -> obj_get entry.1 inputs = Some entry.2.

End CssInvariants.

(* ===================================================================== *)
(** ** Bundles to run the properties on *)
(* ===================================================================== *)

Module BundleScenarios.
Import BundlerUtils JsBundler.

(** A JSON formatter that tells an empty token table from the others:
    it writes the empty object for the one and [null] for the others. *)
Definition emptyOrNot : ResolvedTokens -> Result Thrown string :=
  fun tokens => Ok (if decide (tokens = ∅) then "{}" else "null").


(** [JSON.parse] as far as these bundles need it: the texts of the
    empty object and of [null] are parsed, and no other text is read
    here. *)
Definition parseSmallJson : string -> Result Thrown JsValue :=
  fun text =>
    if String.eqb text "{}" then Ok (JObj [])
    else if String.eqb text "null" then Ok JNull
    else Throw (newError PlainError "Unexpected token").

(** A formatter that fails on every token table. *)
Definition failingFormatter : ResolvedTokens -> Result Thrown string :=
  fun _ => Throw (newError PlainError "cannot format").

(** The permutation [dark], [mobile] without a token. *)
Definition darkMobileEmpty : BundleDataItem :=
  mkItem ∅ [("theme", "dark"); ("platform", "mobile")] false.

End BundleScenarios.

(* ===================================================================== *)
(** ** Duration objects and the path filter *)
(* ===================================================================== *)

Module DurationFormat.

(** [isDurationObject]: an object with the keys [value] and [unit], the
    unit not [undefined]. *)
Definition isDurationObject (value : JsValue) : bool :=
  match value with
  | JObj fields =>
      obj_has "value" fields && obj_has "unit" fields
      && match get_prop value "unit" with
         | JUndefined => false
         | _ => true
         end
  | _ => false
  end.

End DurationFormat.

Module PathFilter.


Section ByPath.

(** [String(element)] for a path element that is neither a string nor
    [null] nor [undefined]. *)
Variable elementToString : JsValue -> string.



End ByPath.

End PathFilter.

(* ===================================================================== *)
(** ** Plugin validation ([lib/validation/validator.ts]) *)
(* ===================================================================== *)

Module PluginValidation.
Import Validator.

Definition quoted (s : string) : string :=
  String "034"%char EmptyString +:+ s +:+ String "034"%char EmptyString.

Section Plugins.

(** [typeof v === 'function']. *)
Variable isFunction : JsValue -> bool.

(** [typeof data === 'object' && data !== null]. *)
Definition isObject (data : JsValue) : bool :=
  match data with
  | JObj _ | JArr _ => true
  | JHost _ => negb (isFunction data)
  | _ => false
  end.

Definition isUndefined (v : JsValue) : bool :=
  match v with
  | JUndefined => true
  | _ => false
  end.

(** [errors.push({ message, path })]. *)
Definition push (errors : list ValidationError) (message path : string)
  : list ValidationError :=
  errors ++ [mkValidationError message (Some path) None].

Definition validateTransform (this : SchemaValidator) (data : JsValue)
  : Result Thrown (list ValidationError) :=
  bindR (validate this "transformPlugin" data) (fun errors =>
    (* Additional runtime validation for function properties *)
    if (length errors =? 0)%nat && isObject data then
      let errors :=
        if negb (isFunction (get_prop data "transform")) then
          push errors ("Transform " +:+ quoted "transform" +:+ " property must be a function")
               "/transform"
        else errors in
      let errors :=
        if negb (isUndefined (get_prop data "matcher"))
           && negb (isFunction (get_prop data "matcher")) then
          push errors
               ("Transform " +:+ quoted "matcher" +:+ " property must be a function if provided")
               "/matcher"
        else errors in
      Ok errors
    else Ok errors).

Definition validateRenderer (this : SchemaValidator) (data : JsValue)
  : Result Thrown (list ValidationError) :=
  bindR (validate this "rendererPlugin" data) (fun errors =>
    if (length errors =? 0)%nat && isObject data then
      if negb (isFunction (get_prop data "format")) then
        Ok (push errors ("Renderer " +:+ quoted "format" +:+ " property must be a function")
                 "/format")
      else Ok errors
    else Ok errors).

Definition validateFilter (this : SchemaValidator) (data : JsValue)
  : Result Thrown (list ValidationError) :=
  bindR (validate this "filterPlugin" data) (fun errors =>
    if (length errors =? 0)%nat && isObject data then
      if negb (isFunction (get_prop data "filter")) then
        Ok (push errors ("Filter " +:+ quoted "filter" +:+ " property must be a function")
                 "/filter")
      else Ok errors
    else Ok errors).

Definition validatePreprocessor (this : SchemaValidator) (data : JsValue)
  : Result Thrown (list ValidationError) :=
  bindR (validate this "preprocessorPlugin" data) (fun errors =>
    if (length errors =? 0)%nat && isObject data then
      if negb (isFunction (get_prop data "preprocess")) then
        Ok (push errors
                 ("Preprocessor " +:+ quoted "preprocess" +:+ " property must be a function")
                 "/preprocess")
      else Ok errors
    else Ok errors).

End Plugins.

End PluginValidation.

(* ===================================================================== *)
(** ** File utilities *)
(* ===================================================================== *)

Module FileUtils.
Import Pipeline.

Set Implicit Arguments.

Section Files.

(** The file system. *)
Variable World : Type.

(** What the utilities call: [node:path], [node:fs/promises],
    [process.cwd], [JSON.parse], [String], and the constructors of
    [FileOperationError] and [ValidationError]. *)
Record Host : Type := mkHost {
  isAbsolute : string -> bool;
  path_resolve : string -> string -> string;
  dirname : string -> string;
  cwd : World -> string;
  access : string -> M World unit;
  readFile : string -> M World string;
  mkdir : string -> M World unit;
  writeFile : string -> string -> string -> M World unit;
  JSON_parse : string -> Result Thrown JsValue;
  toString : JsValue -> string;
  newFileOperationError : string -> string -> Thrown -> Thrown;
  newValidationError : string -> list string -> Thrown
}.

Variable host : Host.

#[local] Existing Instances M_ret M_bind.

(** [error instanceof Error ? error.message : String(error)]. *)
Definition errorMessage (error : Thrown) : string :=
  match error with
  | ThrownError e => message e
  | ThrownValue v => toString host v
  end.

Definition absolutePathOf (filePath : string) (baseDir : option string) (w : World) : string :=
  if isAbsolute host filePath then filePath
  else path_resolve host (default (cwd host w) baseDir) filePath.

Definition readJSONFile (filePath : string) (baseDir : option string) : M World JsValue :=
  fun w =>
    let absolutePath := absolutePathOf filePath baseDir w in
    (_ ← try_catch (access host absolutePath)
           (fun error => liftR (Throw (newFileOperationError host "read" absolutePath error)));
     try_catch
       (content ← readFile host absolutePath;
        liftR (JSON_parse host content))
       (fun error =>
          let errorMsg := errorMessage error in
          liftR (Throw (newValidationError host
                          ("Failed to read or parse file " +:+ absolutePath +:+ ": "
                           +:+ errorMsg)
                          [errorMsg])))) w.

Definition writeOutputFile (fileName content : string) (encoding : option string)
  : M World unit :=
  try_catch
    ((* Create parent directories if they don't exist *)
     _ ← mkdir host (dirname host fileName);
     (* Write the file *)
     writeFile host fileName content (default "utf-8" encoding))
    (fun error => liftR (Throw (newFileOperationError host "write" fileName error))).

End Files.

Unset Implicit Arguments.

End FileUtils.

(* ===================================================================== *)
(** ** Pipelines to run the batch properties on *)
(* ===================================================================== *)

Module BatchScenarios.
Import Pipeline Scenarios.

Definition refused : Thrown := newError ModifierError "Invalid context: dark".

(** The collaborators of [exampleEnv], with an engine that refuses the
    context [dark] of the modifier [theme]. *)
Definition darkRefused : Collaborators HandlerWorld ResolverDocument unit unit ResolvedTokens :=
  {| load := load exampleEnv;
     newReferenceResolver := newReferenceResolver exampleEnv;
     newResolutionEngine := newResolutionEngine exampleEnv;
     resolveWithInputs := fun engine inputs w =>
       match obj_get "theme" inputs with
       | Some context =>
           if String.eqb context "dark" then (Throw refused, w)
           else resolveWithInputs exampleEnv engine inputs w
       | None => resolveWithInputs exampleEnv engine inputs w
       end;
     generatePermutations := generatePermutations exampleEnv;
     resolveDeepTokenDocument := resolveDeepTokenDocument exampleEnv;
     flatten := flatten exampleEnv;
     aliasResolve := aliasResolve exampleEnv;
     applyFilters := applyFilters exampleEnv;
     applyTransforms := applyTransforms exampleEnv;
     handleIssue := handleIssue exampleEnv;
     warn := warn exampleEnv;
     newMap := newMap exampleEnv;
     toString := toString exampleEnv |}.

(** The collaborators of [exampleEnv], with a reference resolver that
    remembers whether it was given a cache and an engine that remembers
    its reference resolver. *)
Definition cachingEnv
  : Collaborators HandlerWorld (ResolverDocument * bool) bool unit ResolvedTokens :=
  {| load := load exampleEnv;
     newReferenceResolver := fun _ cache =>
       match cache with Some _ => true | None => false end;
     newResolutionEngine := fun document refResolver => (document, refResolver);
     resolveWithInputs := fun _ inputs w => (Ok (documentFor inputs, inputs), w);
     generatePermutations := fun engine w => (Ok (permutationsOf engine.1), w);
     resolveDeepTokenDocument := fun _ => resolveDeepOrFail tt;
     flatten := flatten exampleEnv;
     aliasResolve := aliasResolve exampleEnv;
     applyFilters := applyFilters exampleEnv;
     applyTransforms := applyTransforms exampleEnv;
     handleIssue := handleIssue exampleEnv;
     warn := warn exampleEnv;
     newMap := newMap exampleEnv;
     toString := toString exampleEnv |}.

End BatchScenarios.

(* ===================================================================== *)
(** ** A file system to run the file utilities on *)
(* ===================================================================== *)

Module FileScenarios.
Import Pipeline FileUtils.

(** A file system: the readable files and their contents. *)
Abbreviation Disk := (list (string * string)).

Definition enoent : Thrown := newError PlainError "ENOENT".

(** A host over [Disk]: every path is absolute, a file can be accessed
    and read when the disk has it, directories need no making, and the
    only JSON text is [null]. *)
Definition diskHost : Host Disk :=
  {| isAbsolute := fun _ => true;
     path_resolve := fun baseDir filePath => baseDir +:+ "/" +:+ filePath;
     dirname := fun _ => "/";
     cwd := fun _ => "/";
     access := fun path disk =>
       if obj_has path disk then (Ok tt, disk) else (Throw enoent, disk);
     readFile := fun path disk =>
       match obj_get path disk with
       | Some content => (Ok content, disk)
       | None => (Throw enoent, disk)
       end;
     mkdir := fun _ disk => (Ok tt, disk);
     writeFile := fun path content _ disk =>
       if String.eqb path "" then (Throw enoent, disk)
       else (Ok tt, obj_set path content disk);
     JSON_parse := fun text =>
       if String.eqb text "null" then Ok JNull
       else Throw (newError PlainError "Unexpected token");
     toString := fun _ => "[object]";
     newFileOperationError := fun operation filePath _ =>
       newError FileOperationError (operation +:+ " " +:+ filePath);
     newValidationError := fun message _ => newError ValidationError message |}.

End FileScenarios.

(* ===================================================================== *)
(** ** Swift identifiers and string literals ([renderers/ios.ts]) *)
(* ===================================================================== *)

Module Swift.

(** Swift reserved keywords that require backtick-escaping when used as
    identifiers. *)
Definition SWIFT_KEYWORDS : list string :=
  [ "associatedtype"; "class"; "deinit"; "enum"; "extension"; "fileprivate"; "func";
    "import"; "init"; "inout"; "internal"; "let"; "open"; "operator"; "private";
    "protocol"; "public"; "rethrows"; "static"; "struct"; "subscript"; "typealias"; "var";
    "break"; "case"; "continue"; "default"; "defer"; "do"; "else"; "fallthrough"; "for";
    "guard"; "if"; "in"; "repeat"; "return"; "switch"; "where"; "while";
    "as"; "catch"; "false"; "is"; "nil"; "super"; "self"; "Self"; "throw"; "throws";
    "true"; "try"; "Type"; "Protocol" ].

(** [SWIFT_KEYWORDS.has(s)]. *)
Definition isKeyword (s : string) : bool := existsb (String.eqb s) SWIFT_KEYWORDS.

(** The class [[-._]]. *)
Definition isSeparator (c : ascii) : bool :=
  Ascii.eqb c "-"%char || Ascii.eqb c "."%char || Ascii.eqb c "_"%char.

(** The line terminators, which [.] does not match: line feed and
    carriage return (the two that are single bytes). *)
Definition isLineTerminator (c : ascii) : bool :=
  Ascii.eqb c "010"%char || Ascii.eqb c "013"%char.

(** An ASCII character that ends no line. *)
Definition inLineAscii (c : ascii) : bool :=
  (nat_of_ascii c <? 128)%nat && negb (isLineTerminator c).

(** [\d]. *)
Definition isDigit (c : ascii) : bool :=
  let n := nat_of_ascii c in (48 <=? n)%nat && (n <=? 57)%nat.

Fixpoint lastChar (c : ascii) (s : string) : ascii :=
  match s with
  | EmptyString => c
  | String d rest => lastChar d rest
  end.

(** What [/[-._]+(.)/g] leaves of a run of separators that no other
    character follows on its line: a run of one is no match and stays; of
    a longer run the last separator is the captured character, and the
    match is replaced by it. *)
Definition flushRun (run : string) : string :=
  match run with
  | EmptyString => EmptyString
  | String c EmptyString => run
  | String c rest => String (upper_ascii (lastChar c rest)) EmptyString
  end.

(** [s.replace(/[-._]+(.)/g, (_, c) => c.toUpperCase())]; [run] is the
    run of separators read so far. *)
Fixpoint camelize (run : string) (s : string) : string :=
  match s with
  | EmptyString => flushRun run
  | String c rest =>
      if isSeparator c then camelize (run +:+ String c EmptyString) rest
      else
        match run with
        | EmptyString => String c (camelize EmptyString rest)
        | _ =>
            if isLineTerminator c then flushRun run +:+ String c (camelize EmptyString rest)
            else String (upper_ascii c) (camelize EmptyString rest)
        end
  end.

(** [s.replace(/[-._]+$/g, '')]. *)
Fixpoint stripTrailing (s : string) : string :=
  match s with
  | EmptyString => EmptyString
  | String c rest =>
      match stripTrailing rest with
      | EmptyString => if isSeparator c then EmptyString else String c EmptyString
      | kept => String c kept
      end
  end.

(** [s.replace(/^[-._]+/g, '')]. *)
Fixpoint stripLeading (s : string) : string :=
  match s with
  | String c rest => if isSeparator c then stripLeading rest else s
  | EmptyString => EmptyString
  end.

(** [s.charAt(0).toLowerCase() + s.slice(1)]. *)
Definition uncapitalize (s : string) : string :=
  match s with
  | String c rest => String (lower_ascii c) rest
  | EmptyString => EmptyString
  end.

(** [/^\d/.test(s)]. *)
Definition startsWithDigit (s : string) : bool :=
  match s with
  | String c _ => isDigit c
  | EmptyString => false
  end.

Definition toSwiftIdentifier (name : string) : string :=
  (* Convert kebab-case, dot-notation, or snake_case to camelCase *)
  let camel := stripLeading (stripTrailing (camelize EmptyString name)) in
  (* Ensure first character is lowercase *)
  let identifier := uncapitalize camel in
  (* Prefix with underscore if it starts with a digit *)
  let safe := if startsWithDigit identifier then "_" +:+ identifier else identifier in
  (* Escape Swift reserved keywords with backticks *)
  if isKeyword safe then "`" +:+ safe +:+ "`" else safe.

(** [s.replace(/c/g, replacement)] for a one-character pattern. *)
Fixpoint replaceChar (c : ascii) (replacement : string) (s : string) : string :=
  match s with
  | EmptyString => EmptyString
  | String d rest =>
      if Ascii.eqb d c then replacement +:+ replaceChar c replacement rest
      else String d (replaceChar c replacement rest)
  end.

Definition backslash : ascii := "092"%char.
Definition doubleQuote : ascii := "034"%char.
Definition lineFeed : ascii := "010"%char.

Definition escapeSwiftString (str : string) : string :=
  replaceChar lineFeed (String backslash "n")
    (replaceChar doubleQuote (String backslash (String doubleQuote EmptyString))
       (replaceChar backslash (String backslash (String backslash EmptyString)) str)).

(** What [escapeSwiftString] writes for one character. *)
Definition escapeChar (c : ascii) : string :=
  if Ascii.eqb c backslash then String backslash (String backslash EmptyString)
  else if Ascii.eqb c doubleQuote then String backslash (String doubleQuote EmptyString)
  else if Ascii.eqb c lineFeed then String backslash "n"
  else String c EmptyString.

End Swift.

(* ===================================================================== *)
(** * Properties *)
(* ===================================================================== *)

(** ** Built-in filters *)

Module FilterFacts.

Section Built_in.

Variable hasAliases : JsValue -> bool.

Lemma isAlias_reads_originalValue (token : ResolvedToken) :
  filter (isAlias hasAliases) token = hasAliases (prop token "originalValue").
Proof. reflexivity. Qed.

Lemma isBase_reads_originalValue (token : ResolvedToken) :
  filter (isBase hasAliases) token = negb (hasAliases (prop token "originalValue")).
Proof. reflexivity. Qed.

(** C10. For every resolved token, [isBase().filter] returns the negation
    of [isAlias().filter]; both look at the token only through what
    [AliasResolver.hasAliases] says of its [originalValue], so two tokens
    with the same [originalValue] are treated alike by each filter. *)
Theorem isBase_complements_isAlias (token : ResolvedToken) :
  filter (isBase hasAliases) token = negb (filter (isAlias hasAliases) token)
  /\ filter (isAlias hasAliases) token = hasAliases (prop token "originalValue")
  /\ forall token' : ResolvedToken,
       prop token' "originalValue" = prop token "originalValue" ->
       filter (isAlias hasAliases) token' = filter (isAlias hasAliases) token
       /\ filter (isBase hasAliases) token' = filter (isBase hasAliases) token.
Proof.
  split; [| split].
  - now rewrite isBase_reads_originalValue, isAlias_reads_originalValue.
  - apply isAlias_reads_originalValue.
  - intros token' Hsame.
    rewrite !isAlias_reads_originalValue, !isBase_reads_originalValue.
    now rewrite Hsame.
Qed.

(** Every token passes exactly one of the two filters. *)
Lemma isAlias_xor_isBase (token : ResolvedToken) :
  xorb (filter (isAlias hasAliases) token) (filter (isBase hasAliases) token) = true.
Proof.
  rewrite isAlias_reads_originalValue, isBase_reads_originalValue.
  now destruct (hasAliases _).
Qed.

(** The two filters split a table in two: no token is in both parts and
    none is lost. *)
Lemma isAlias_isBase_partition (tokens : ResolvedTokens) (name : string) :
  tokens !! name =
    match TokenModifier.applyFilters tokens [isAlias hasAliases] !! name with
    | Some token => Some token
    | None => TokenModifier.applyFilters tokens [isBase hasAliases] !! name
    end
  /\ (is_Some (TokenModifier.applyFilters tokens [isAlias hasAliases] !! name) ->
      TokenModifier.applyFilters tokens [isBase hasAliases] !! name = None).
Proof.
  unfold TokenModifier.applyFilters, TokenModifier.passesAll.
  rewrite !map_lookup_filter. simpl.
  destruct (tokens !! name) as [token|] eqn:Hlook; simpl; [| split; [done | intros [? ?]; done]].
  rewrite !andb_true_r.
  destruct (hasAliases (prop token "originalValue")) eqn:Hhas; simpl;
    repeat case_guard; simpl; try done;
    (split; [done | intros [? ?]; done]).
Qed.

End Built_in.

(** With the alias detection as modelled, a token whose original value
    was the alias [{color.neutral.black}] is an alias token and not a base
    token. *)
Example isAlias_on_alias_token :
  let token : ResolvedToken :=
    <["originalValue" := JStr "{color.neutral.black}"]> (<["$value" := JStr "#000"]> ∅) in
  filter (isAlias AliasResolver.hasAliases) token = true
  /\ filter (isBase AliasResolver.hasAliases) token = false.
Proof. split; reflexivity. Qed.

End FilterFacts.

(** ** Built-in value transforms *)

Module TransformFacts.

Lemma with_value_other (token : ResolvedToken) (v : JsValue) (key : string) :
  key <> "$value" -> with_value token v !! key = token !! key.
Proof. intros Hkey. unfold with_value. now rewrite lookup_insert_ne. Qed.

Lemma with_value_prop (token : ResolvedToken) (v : JsValue) (key : string) :
  key <> "$value" -> prop (with_value token v) key = prop token key.
Proof. intros Hkey. unfold prop. now rewrite with_value_other. Qed.

(** A transform that hands back its token, or the token with a new
    [$value], touches only [$value]. *)
Lemma returns_token_or_new_value (t : Transform) :
  (forall token : ResolvedToken,
     transform t token = token \/ exists v, transform t token = with_value token v) ->
  touchesOnlyValue t.
Proof.
  intros Hshape token.
  destruct (Hshape token) as [Hsame | [v Hnew]].
  - rewrite Hsame. repeat split; reflexivity.
  - rewrite Hnew. repeat split.
    + now apply with_value_prop.
    + now apply with_value_prop.
    + intros key Hkey. now apply with_value_other.
Qed.

#[local] Ltac token_or_new_value :=
  first [ left; reflexivity | right; eexists; reflexivity ].

(** Case analysis on the condition of the outermost conditional. *)
#[local] Ltac split_on_condition :=
  match goal with
  | |- context [if ?b then _ else _] => destruct b
  end.

Lemma fontWeightToNumber_frame : touchesOnlyValue fontWeightToNumber.
Proof.
  apply returns_token_or_new_value. intros token. simpl.
  destruct (prop token "$value") as [ | | | | value | | | ]; try token_or_new_value.
  destruct (weightMap_get (toLowerCase value)); token_or_new_value.
Qed.

Section Durations.

Variable toNumber : JsValue -> float.
Variable numberToString : float -> string.
Variable parseFloat : string -> float.

Lemma durationToMs_frame :
  touchesOnlyValue (durationToMs toNumber numberToString parseFloat).
Proof.
  apply returns_token_or_new_value. intros token.
  unfold durationToMs. cbn [transform]. cbv zeta.
  repeat split_on_condition; token_or_new_value.
Qed.

Lemma durationToSeconds_frame :
  touchesOnlyValue (durationToSeconds toNumber numberToString parseFloat).
Proof.
  apply returns_token_or_new_value. intros token.
  unfold durationToSeconds. cbn [transform]. cbv zeta.
  repeat split_on_condition; token_or_new_value.
Qed.

End Durations.

Section Colors.

Variable isColorObject : JsValue -> bool.
Variable culoriConverter : string -> JsValue -> Result Thrown JsValue.
Variable formatCss : JsValue -> Result Thrown JsValue.

Lemma createColorTransform_frame (converter : JsValue -> Result Thrown string) :
  touchesOnlyValue (createColorTransform isColorObject converter).
Proof.
  apply returns_token_or_new_value. intros token.
  unfold createColorTransform. cbn [transform]. cbv zeta.
  destruct (isColorObject (prop token "$value")); cbn [negb]; [| token_or_new_value].
  destruct (converter (prop token "$value")); token_or_new_value.
Qed.

Lemma createModernColorTransform_frame (mode : string) :
  touchesOnlyValue (createModernColorTransform isColorObject culoriConverter formatCss mode).
Proof.
  apply returns_token_or_new_value. intros token.
  unfold createModernColorTransform. cbn [transform]. cbv zeta.
  destruct (dtcgObjectToCulori isColorObject (prop token "$value")) as [[color|]|];
    cbn [bindR]; try token_or_new_value.
  destruct (culoriConverter mode color) as [converted|]; cbn [bindR]; try token_or_new_value.
  destruct (formatCss converted) as [formatted|]; cbn [bindR]; try token_or_new_value.
  destruct (is_string formatted ""); token_or_new_value.
Qed.

End Colors.

(** C7. Each built-in value transform (the colour transforms of
    [createColorTransform] and [createModernColorTransform], whatever the
    converter or mode, [fontWeightToNumber], [durationToMs],
    [durationToSeconds]) returns, on every input token, a token with the
    input's [path] and [$type]; no property other than [$value] differs. *)
Theorem builtin_transforms_keep_path_and_type
    (toNumber : JsValue -> float) (numberToString : float -> string)
    (parseFloat : string -> float) (isColorObject : JsValue -> bool)
    (culoriConverter : string -> JsValue -> Result Thrown JsValue)
    (formatCss : JsValue -> Result Thrown JsValue)
    (converter : JsValue -> Result Thrown string) (mode : string) :
  Forall touchesOnlyValue
    [ createColorTransform isColorObject converter;
      createModernColorTransform isColorObject culoriConverter formatCss mode;
      fontWeightToNumber;
      durationToMs toNumber numberToString parseFloat;
      durationToSeconds toNumber numberToString parseFloat ].
Proof.
  constructor; [apply createColorTransform_frame |].
  constructor; [apply createModernColorTransform_frame |].
  constructor; [apply fontWeightToNumber_frame |].
  constructor; [apply durationToMs_frame |].
  constructor; [apply durationToSeconds_frame |].
  constructor.
Qed.

(** The same holds when the transform is run behind its matcher, and for
    a whole list of such transforms run in order. *)
Lemma applyTransform_frame (t : Transform) (token : ResolvedToken) (key : string) :
  touchesOnlyValue t -> key <> "$value" ->
  TokenModifier.applyTransform t token !! key = token !! key.
Proof.
  intros Ht Hkey. unfold TokenModifier.applyTransform.
  destruct (matcher t) as [matches|].
  - destruct (matches token); [| reflexivity]. now apply Ht.
  - now apply Ht.
Qed.

Lemma applyTransformList_frame (ts : list Transform) (token : ResolvedToken) (key : string) :
  Forall touchesOnlyValue ts -> key <> "$value" ->
  TokenModifier.applyTransformList ts token !! key = token !! key.
Proof.
  intros Hts Hkey. revert token.
  induction Hts as [| t ts Ht _ IH]; intros token; [reflexivity |].
  unfold TokenModifier.applyTransformList in *. simpl.
  rewrite IH. now apply applyTransform_frame.
Qed.

(** A duration of 1.5 seconds becomes 1500 milliseconds; [path] and
    [$type] stay. *)
Example durationToMs_on_seconds :
  let id := fun _ : JsValue => 1.5%float in
  let token : ResolvedToken :=
    <["$value" := durationObject 1.5 "s"]>
      (<["$type" := JStr "duration"]> (<["path" := JArr [JStr "motion"; JStr "fast"]]> ∅)) in
  let out := transform (durationToMs id (fun _ => "") (fun _ => 0%float)) token in
  out !! "$value" = Some (durationObject 1500 "ms")
  /\ out !! "path" = token !! "path"
  /\ out !! "$type" = token !! "$type".
Proof. repeat split; vm_compute; reflexivity. Qed.

(** A named font weight becomes its number. *)
Example fontWeightToNumber_on_bold :
  let token : ResolvedToken := <["$value" := JStr "Bold"]> (<["$type" := JStr "fontWeight"]> ∅) in
  transform fontWeightToNumber token !! "$value" = Some (JNum 700).
Proof. vm_compute. reflexivity. Qed.

End TransformFacts.

(** ** Token-or-group classification *)

Module ValidatorFacts.
Import Validator.

(** A validator as the constructor leaves it has the [token] and [group]
    schemas registered, so neither validation throws. *)
Lemma validate_registered (this : SchemaValidator) (schemaName : string) (data : JsValue) :
  is_Some (validators this !! schemaName) ->
  exists errors, validate this schemaName data = Ok errors.
Proof.
  intros [validator Hv]. unfold validate. rewrite Hv. eauto.
Qed.

(** C6, as the code has it. A node that carries [$value] or [$ref] is
    classified as a token when token validation reports no error and as
    invalid otherwise, never as a group; a node that carries neither is a
    group when group validation reports no error, else a token when token
    validation reports none, else invalid. *)
Theorem validateTokenOrGroup_classifies
    (this : SchemaValidator) (obj : JsValue)
    (tokenErrors groupErrors : list ValidationError) :
  validateToken this obj = Ok tokenErrors ->
  validateGroup this obj = Ok groupErrors ->
  exists result,
    validateTokenOrGroup this obj = Ok result
    /\ type result = classify obj tokenErrors groupErrors
    /\ (type result = type_token -> hasValue obj = false -> groupErrors <> [])
    /\ (type result = type_group -> hasValue obj = false /\ groupErrors = [])
    /\ (hasValue obj = true -> type result <> type_group).
Proof.
  intros Htoken Hgroup.
  unfold validateTokenOrGroup, classify.
  destruct (hasValue obj) eqn:Hhas.
  - rewrite Htoken. cbn [bindR].
    destruct tokenErrors as [| e es]; cbn [length Nat.eqb];
      eexists; (split; [reflexivity |]); cbn [type]; repeat split; try done.
  - rewrite Hgroup. cbn [bindR].
    destruct groupErrors as [| g gs]; cbn [length Nat.eqb].
    + eexists; (split; [reflexivity |]); cbn [type]; repeat split; try done.
    + rewrite Htoken. cbn [bindR].
      destruct tokenErrors as [| e es]; cbn [length Nat.eqb];
        eexists; (split; [reflexivity |]); cbn [type]; repeat split; try done.
Qed.

Lemma validateTokenOrGroup_classifies_witness :
  exists result,
    validateTokenOrGroup lenient (JObj [("$value", JStr "#fff")]) = Ok result
    /\ type result = classify (JObj [("$value", JStr "#fff")]) [] []
    /\ (type result = type_token ->
        hasValue (JObj [("$value", JStr "#fff")]) = false -> @nil ValidationError <> [])
    /\ (type result = type_group ->
        hasValue (JObj [("$value", JStr "#fff")]) = false /\ @nil ValidationError = [])
    /\ (hasValue (JObj [("$value", JStr "#fff")]) = true -> type result <> type_group).
Proof.
  apply (validateTokenOrGroup_classifies lenient (JObj [("$value", JStr "#fff")]) [] []);
    vm_compute; reflexivity.
Defined.

(** C6 as stated fails: under a validator that turns the node down, the
    node [{ "$value": "#fff" }] carries [$value] and is classified as
    invalid, not as a token; and the node [{}] carries neither key and is
    not classified as a group. *)
Lemma carrying_value_is_not_enough :
  ~ (forall (this : SchemaValidator) (obj : JsValue) (result : Classification),
       validateTokenOrGroup this obj = Ok result ->
       (type result = type_token <-> hasValue obj = true)
       /\ (hasValue obj = false -> type result = type_group)).
Proof.
  intros Hclaim.
  destruct (Hclaim rejecting (JObj [("$value", JStr "#fff")])
              (mkClassification type_invalid [mkValidationError "rejected" None None]
                 (Some "Object has $value/$ref but failed token validation")))
    as [[_ Htoken] _].
  - vm_compute. reflexivity.
  - specialize (Htoken eq_refl). discriminate Htoken.
Qed.

Example empty_node_not_a_group :
  type <$> (match validateTokenOrGroup rejecting (JObj []) with
            | Ok result => Some result
            | Throw _ => None
            end) = Some type_invalid.
Proof. vm_compute. reflexivity. Qed.

End ValidatorFacts.

(** ** The alias depth bound *)

Module AliasFacts.
Import AliasResolver.

Lemma aliasChain_shorter (tokens : ResolvedTokens) (n m : nat) (name : string) :
  aliasChain tokens n name -> m <= n -> aliasChain tokens m name.
Proof.
  intros Hchain. revert m.
  induction Hchain as [name | n name target s token Hlook Hval Htarget _ IH]; intros m Hle.
  - replace m with 0 by lia. constructor.
  - destruct m as [| m]; [constructor |].
    econstructor; eauto. apply IH. lia.
Qed.

(** Following a chain that has at least as many hops left as the bound
    still allows ends in a [CircularReferenceError]: either a name comes
    back, or the hops run out. *)
Lemma resolveAlias_exhausts (tokens : ResolvedTokens) (remaining : nat) :
  forall (visited : list string) (name : string),
    aliasChain tokens remaining name ->
    exists e, resolveAlias tokens remaining visited name = Throw (ThrownError e)
              /\ kind e = CircularReferenceError.
Proof.
  induction remaining as [| remaining IH]; intros visited name Hchain.
  - cbn [resolveAlias]. destruct (existsb (String.eqb name) visited);
      eexists; split; reflexivity.
  - cbn [resolveAlias].
    destruct (existsb (String.eqb name) visited); [eexists; split; reflexivity |].
    inversion Hchain as [| n name' target s token Hlook Hval Htarget Hrest]; subst.
    rewrite Hlook, Hval. cbn [expand]. rewrite Htarget.
    apply IH, Hrest.
Qed.

(** C9. The constant the bound defaults from is 10, so is the bound of
    a resolver configured with no [maxDepth]; and a chain of alias hops
    longer than the configured bound is a [CircularReferenceError]. *)
Theorem alias_depth_bound_default_is_10 :
  DEFAULT_MAX_ALIAS_DEPTH = 10
  /\ depthBound (mkAliasOptions None) = 10
  /\ forall (options : AliasResolverOptions) (tokens : ResolvedTokens) (name : string),
       aliasChain tokens (S (depthBound options)) name ->
       exists e, resolveTokenValue options tokens name = Throw (ThrownError e)
                 /\ kind e = CircularReferenceError.
Proof.
  split; [reflexivity |]. split; [reflexivity |].
  intros options tokens name Hchain.
  inversion Hchain as [| n name' target s token Hlook Hval Htarget Hrest]; subst.
  unfold resolveTokenValue. rewrite Hlook, Hval. cbn [expand]. rewrite Htarget.
  apply resolveAlias_exhausts, Hrest.
Qed.

#[local] Ltac hop n name target :=
  apply (chain_hop chainOfEleven n name target ("{" +:+ target +:+ "}") (aliasTo target));
  [reflexivity | reflexivity | reflexivity |].

Lemma chainOfEleven_has_eleven_hops : aliasChain chainOfEleven 11 "t0".
Proof.
  hop 10 "t0" "t1". hop 9 "t1" "t2". hop 8 "t2" "t3". hop 7 "t3" "t4".
  hop 6 "t4" "t5". hop 5 "t5" "t6". hop 4 "t6" "t7". hop 3 "t7" "t8".
  hop 2 "t8" "t9". hop 1 "t9" "t10". hop 0 "t10" "t11". constructor.
Qed.

(** Eleven hops under the default bound of ten. *)
Lemma alias_depth_bound_default_is_10_witness :
  exists e, resolveTokenValue (mkAliasOptions None) chainOfEleven "t0" = Throw (ThrownError e)
            /\ kind e = CircularReferenceError.
Proof.
  apply (proj2 (proj2 alias_depth_bound_default_is_10)).
  apply chainOfEleven_has_eleven_hops.
Defined.

(** The boundary: ten hops ([t1] to [t11]) resolve under the default
    bound; the eleven from [t0] do not; with a bound of eleven they do. *)
Example ten_hops_resolve :
  resolveTokenValue (mkAliasOptions None) chainOfEleven "t1" = Ok (JStr "#000").
Proof. vm_compute. reflexivity. Qed.

Example eleven_hops_resolve_under_a_larger_bound :
  resolveTokenValue (mkAliasOptions (Some 11)) chainOfEleven "t0" = Ok (JStr "#000").
Proof. vm_compute. reflexivity. Qed.

(** A cycle is reported with its trail, whatever the bound. *)
Example cycle_trail :
  let tokens : ResolvedTokens := list_to_map [("a", aliasTo "b"); ("b", aliasTo "a")] in
  resolveTokenValue (mkAliasOptions (Some 100)) tokens "a"
  = Throw (ThrownError (mkError CircularReferenceError "Circular reference detected"
                          ["a"; "b"; "a"])).
Proof. vm_compute. reflexivity. Qed.

End AliasFacts.

(** ** The token pipeline *)

Module PipelineFacts.
Import Pipeline Scenarios.

#[local] Existing Instances M_ret M_bind.

Section Stages.

Context {World ResolutionEngine ReferenceResolver FileCache FlatTokens : Type}.
Variable env : Collaborators World ResolutionEngine ReferenceResolver FileCache FlatTokens.

(** *** Stage 5 *)

(** C1, as the code has it. When the reference resolver returns, the
    stage result holds what it returned and is marked [resolved]. When it
    throws, the error (wrapped if it is not an [Error]) goes to the
    validation handler; if [handleIssue] and [warn] return, the stage does
    not throw: its result holds the preprocessed document unchanged and is
    marked [skipped], with the error's message; if the handler itself
    throws, that is what the stage throws. *)
Theorem resolveReferences_failure_policy
    (stage : PreprocessedStage ResolutionEngine ReferenceResolver) (w : World) :
  let attempt :=
    resolveDeepTokenDocument env (refResolver (engineReady (preprocessed_rest stage)))
      (preprocessedTokens stage) (preprocessedTokens stage) w in
  (forall resolved w1,
     attempt = (Ok resolved, w1) ->
     resolveReferences env stage w
     = (Ok (mkReferenceResolved (preprocessed_rest stage)
              (mkNote reference_resolved None) resolved), w1))
  /\ (forall error w1,
        attempt = (Throw error, w1) ->
        let wrapped := wrapError env error in
        let notice := "Reference resolution skipped: " +:+ message wrapped in
        (forall w2 w3,
           handleIssue env wrapped w1 = (Ok tt, w2) ->
           warn env notice w2 = (Ok tt, w3) ->
           resolveReferences env stage w
           = (Ok (mkReferenceResolved (preprocessed_rest stage)
                    (mkNote reference_skipped (Some (message wrapped)))
                    (preprocessedTokens stage)), w3))
        /\ (forall t w2,
              handleIssue env wrapped w1 = (Throw t, w2) ->
              resolveReferences env stage w = (Throw t, w2))
        /\ (forall t w2 w3,
              handleIssue env wrapped w1 = (Ok tt, w2) ->
              warn env notice w2 = (Throw t, w3) ->
              resolveReferences env stage w = (Throw t, w3))).
Proof.
  cbv zeta. split.
  - intros resolved w1 Hattempt.
    unfold resolveReferences, try_catch, mbind, M_bind. now rewrite Hattempt.
  - intros error w1 Hattempt.
    assert (Hcatch : resolveReferences env stage w
                     = handleReferenceResolutionError env stage error w1).
    { unfold resolveReferences, try_catch, mbind, M_bind. now rewrite Hattempt. }
    rewrite Hcatch. unfold handleReferenceResolutionError, mbind, M_bind.
    repeat split.
    + intros w2 w3 Hissue Hwarn. now rewrite Hissue, Hwarn.
    + intros t w2 Hissue. now rewrite Hissue.
    + intros t w2 w3 Hissue Hwarn. now rewrite Hissue, Hwarn.
Qed.

(** *** Stages 8 and 9 *)

(** Stage 8 then Stage 9, for non-empty lists, whatever [applyFilters]
    and [applyTransforms] are: the transforms get the table the filters
    returned, and a throw of either ends the run. *)
Lemma filter_then_transform
    (stage7 : AliasResolvedStage ResolutionEngine ReferenceResolver)
    (f : Filter) (fs : list Filter) (t : Transform) (ts : list Transform) (w : World) :
  (stage8 ← applyFilterStage env stage7 (Some (f :: fs));
   applyTransformStage env stage8 (Some (t :: ts))) w
  = (bindR (applyFilters env (aliasResolvedTokens stage7) (f :: fs)) (fun filtered =>
       bindR (applyTransforms env filtered (t :: ts)) (fun tokens =>
         Ok (mkFinal (aliasResolved_rest stage7) (aliasResolved_note stage7) tokens))),
     w).
Proof.
  unfold applyFilterStage, applyTransformStage, mbind, M_bind, mret, M_ret, liftR.
  destruct (applyFilters env (aliasResolvedTokens stage7) (f :: fs)) as [filtered|];
    cbn; [| reflexivity].
  destruct (applyTransforms env filtered (t :: ts)); reflexivity.
Qed.

End Stages.

Section Modelled_modifier.

Context {World ResolutionEngine ReferenceResolver FileCache FlatTokens : Type}.
Variable env : Collaborators World ResolutionEngine ReferenceResolver FileCache FlatTokens.

Lemma applyFilters_nil (tokens : ResolvedTokens) :
  TokenModifier.applyFilters tokens [] = tokens.
Proof.
  unfold TokenModifier.applyFilters. apply map_eq. intros name.
  rewrite map_lookup_filter. destruct (tokens !! name); [| reflexivity].
  cbn. now rewrite option_guard_True.
Qed.

Lemma applyTransforms_nil (tokens : ResolvedTokens) :
  TokenModifier.applyTransforms tokens [] = tokens.
Proof.
  unfold TokenModifier.applyTransforms. apply map_eq. intros name.
  rewrite lookup_fmap. now destruct (tokens !! name).
Qed.

Lemma applyFilters_lookup (tokens : ResolvedTokens) (filters : list Filter)
    (name : string) (token : ResolvedToken) :
  TokenModifier.applyFilters tokens filters !! name = Some token
  <-> tokens !! name = Some token /\ Forall (fun f => filter f token = true) filters.
Proof.
  unfold TokenModifier.applyFilters, TokenModifier.passesAll.
  rewrite map_lookup_filter_Some. cbn.
  rewrite forallb_forall, Forall_forall.
  split; intros [Hlook Hall]; (split; [exact Hlook |]);
    intros f Hf; apply Hall; now apply list_elem_of_In.
Qed.

Lemma stage8_modelled (stage7 : AliasResolvedStage ResolutionEngine ReferenceResolver)
    (filterList : list Filter) (w : World) :
  applyFilterStage (withTokenModifier env) stage7 (Some filterList) w
  = (Ok (mkAliasResolved (aliasResolved_rest stage7) (aliasResolved_note stage7)
           (TokenModifier.applyFilters (aliasResolvedTokens stage7) filterList)), w).
Proof.
  unfold applyFilterStage. destruct filterList as [| f fs].
  - now rewrite applyFilters_nil.
  - reflexivity.
Qed.

Lemma stage9_modelled (stage8 : AliasResolvedStage ResolutionEngine ReferenceResolver)
    (transformList : list Transform) (w : World) :
  applyTransformStage (withTokenModifier env) stage8 (Some transformList) w
  = (Ok (mkFinal (aliasResolved_rest stage8) (aliasResolved_note stage8)
           (TokenModifier.applyTransforms (aliasResolvedTokens stage8) transformList)), w).
Proof.
  unfold applyTransformStage. destruct transformList as [| t ts].
  - now rewrite applyTransforms_nil.
  - reflexivity.
Qed.

(** C5. In a run of [resolve] given a filter list and a transform list,
    the final table is [applyTransforms(applyFilters(aliasResolvedTokens,
    filters), transforms)]: whenever Stages 1 to 7 deliver, so does the
    run, with that table; a token is in the filtered table exactly when it
    was in the alias-resolved one and every filter accepts it, and the
    transforms are run on the tokens of the filtered table only. *)
Theorem resolve_filters_then_transforms
    (resolver : string + ResolverDocument) (modifierInputs : ModifierInputs)
    (transformList : list Transform) (preprocessorList : option (list (Preprocessor World)))
    (filterList : list Filter) (w : World) :
  (forall stage7 w7,
     resolveToAliasResolved (withTokenModifier env) resolver modifierInputs preprocessorList w
     = (Ok stage7, w7) ->
     resolve (withTokenModifier env) resolver modifierInputs (Some transformList)
       preprocessorList (Some filterList) w
     = (Ok (mkResolution
              (TokenModifier.applyTransforms
                 (TokenModifier.applyFilters (aliasResolvedTokens stage7) filterList)
                 transformList)
              (resolutionEngine (engineReady (aliasResolved_rest stage7)))
              (stageModifierInputs (aliasResolved_rest stage7))), w7))
  /\ (forall tokens name token,
        TokenModifier.applyFilters tokens filterList !! name = Some token
        <-> tokens !! name = Some token
            /\ Forall (fun f => filter f token = true) filterList)
  /\ (forall tokens name,
        TokenModifier.applyTransforms (TokenModifier.applyFilters tokens filterList)
          transformList !! name
        = TokenModifier.applyTransformList transformList
            <$> TokenModifier.applyFilters tokens filterList !! name).
Proof.
  split; [| split].
  - intros stage7 w7 Hstage7.
    unfold resolve. unfold mbind at 1, M_bind at 1. rewrite Hstage7.
    unfold mbind at 1, M_bind at 1. rewrite stage8_modelled.
    unfold mbind at 1, M_bind at 1. rewrite stage9_modelled.
    reflexivity.
  - intros tokens name token. apply applyFilters_lookup.
  - intros tokens name. unfold TokenModifier.applyTransforms. apply lookup_fmap.
Qed.

End Modelled_modifier.


(** *** [Promise.all] and [resolveAllPermutations] *)

Section All.

Context {World A : Type}.

Lemma settleAll_slots (tasks : list (M World A)) (order : list nat) :
  forall (st : AllState A) (w : World),
    slotsFromTasks tasks (values st) ->
    slotsFromTasks tasks (values (settleAll tasks order st w).1).
Proof.
  induction order as [| i order IH]; intros st w Hinv; [exact Hinv |].
  cbn [settleAll].
  destruct (tasks !! i) as [task|] eqn:Htask; [| now apply IH].
  destruct (task w) as [[a | t] w'] eqn:Hrun; apply IH; [| exact Hinv].
  destruct Hinv as [Hlen Hslots]. split; cbn [values].
  - now rewrite length_insert.
  - intros j b Hj.
    destruct (decide (i = j)) as [-> | Hne].
    + rewrite list_lookup_insert_eq in Hj
        by (rewrite Hlen; now apply lookup_lt_Some with task).
      injection Hj as <-. eauto.
    + rewrite list_lookup_insert_ne in Hj by exact Hne. now apply Hslots.
Qed.

Lemma allValues_Some (slots : list (option A)) (vs : list A) :
  allValues slots = Some vs -> slots = Some <$> vs.
Proof.
  revert vs. induction slots as [| [a|] slots IH]; intros vs Hall; cbn in Hall.
  - now injection Hall as <-.
  - destruct (allValues slots) as [rest|]; [| discriminate].
    injection Hall as <-. cbn. f_equal. now apply IH.
  - discriminate.
Qed.

Lemma allValues_filled (slots : list (option A)) :
  (forall i, i < length slots -> exists a, slots !! i = Some (Some a)) ->
  exists vs, allValues slots = Some vs.
Proof.
  induction slots as [| [a|] slots IH]; intros Hfilled.
  - now exists [].
  - destruct IH as [vs Hvs].
    { intros i Hi. apply (Hfilled (S i)). cbn. lia. }
    exists (a :: vs). cbn. now rewrite Hvs.
  - destruct (Hfilled 0) as [a Ha]; [cbn; lia | discriminate].
Qed.

(** The values [Promise.all] fulfils with: as many as there are tasks,
    the one at index [i] returned by the task at index [i], in whatever
    order the tasks completed. *)
Lemma Promise_all_in_task_order (tasks : list (M World A)) (order : list nat)
    (w w' : World) (vs : list A) :
  Promise_all tasks order w = (Fulfilled vs, w') ->
  length vs = length tasks
  /\ forall i a, vs !! i = Some a ->
       exists task w0 w1, tasks !! i = Some task /\ task w0 = (Ok a, w1).
Proof.
  unfold Promise_all.
  pose proof (settleAll_slots tasks order (mkAll (replicate (length tasks) None) None) w)
    as Hinv.
  destruct (settleAll tasks order _ w) as [st w1]. cbn [fst] in Hinv.
  destruct (rejection st); [discriminate |].
  destruct (allValues (values st)) as [vs'|] eqn:Hall; [| discriminate].
  intros [= -> ->].
  destruct Hinv as [Hlen Hslots].
  { split; cbn [values]; [apply length_replicate |].
    intros i a Hi. apply lookup_replicate in Hi as [Hi _]. discriminate. }
  apply allValues_Some in Hall.
  rewrite Hall in Hlen, Hslots. rewrite length_fmap in Hlen.
  split; [exact Hlen |].
  intros i a Hi. apply Hslots. rewrite list_lookup_fmap, Hi. reflexivity.
Qed.

(** When no task throws, every task in the completion order leaves its
    slot filled and nothing is rejected. *)
Lemma settleAll_fills (tasks : list (M World A)) (order : list nat) :
  (forall task w, task ∈ tasks -> exists a w', task w = (Ok a, w')) ->
  forall (st : AllState A) (w : World),
    rejection st = None ->
    length (values st) = length tasks ->
    let st' := (settleAll tasks order st w).1 in
    rejection st' = None
    /\ forall i, i < length tasks ->
         (exists a, values st !! i = Some (Some a)) \/ i ∈ order ->
         exists a, values st' !! i = Some (Some a).
Proof.
  intros Hok. induction order as [| i order IH]; intros st w Hrej Hlen; cbn [settleAll].
  - split; [exact Hrej |]. intros i Hi [Hset | Hin]; [exact Hset | inversion Hin].
  - destruct (tasks !! i) as [task|] eqn:Htask.
    + destruct (Hok task w) as (a & w' & Hrun);
        [apply list_elem_of_lookup; eauto |].
      rewrite Hrun.
      destruct (IH (mkAll (<[i := Some a]> (values st)) (rejection st)) w' Hrej) as [Hrej' Hfill];
        [cbn [values]; now rewrite length_insert |].
      split; [exact Hrej' |].
      intros j Hj Hcases. apply Hfill; [exact Hj |]. cbn [values].
      destruct (decide (i = j)) as [-> | Hne].
      * left. exists a. apply list_lookup_insert_eq. now rewrite Hlen.
      * destruct Hcases as [[b Hb] | Hin].
        -- left. exists b. now rewrite list_lookup_insert_ne.
        -- apply elem_of_cons in Hin as [-> | Hin]; [done | now right].
    + destruct (IH st w Hrej Hlen) as [Hrej' Hfill].
      split; [exact Hrej' |].
      intros j Hj [Hset | Hin]; apply Hfill; try exact Hj; [now left |].
      apply elem_of_cons in Hin as [-> | Hin]; [| now right].
      exfalso. apply lookup_ge_None in Htask. unfold M in *. lia.
Qed.

Lemma Promise_all_fulfils (tasks : list (M World A)) (order : list nat) (w : World) :
  (forall task w, task ∈ tasks -> exists a w', task w = (Ok a, w')) ->
  order ≡ₚ seq 0 (length tasks) ->
  exists vs w', Promise_all tasks order w = (Fulfilled vs, w').
Proof.
  intros Hok Hperm. unfold Promise_all.
  pose proof (settleAll_fills tasks order Hok
                (mkAll (replicate (length tasks) None) None) w eq_refl) as Hfill.
  pose proof (settleAll_slots tasks order (mkAll (replicate (length tasks) None) None) w)
    as Hinv.
  destruct (settleAll tasks order _ w) as [st w1]. cbn [fst values] in Hfill, Hinv.
  destruct Hfill as [Hrej Hfill]; [apply length_replicate |].
  destruct Hinv as [Hlen _].
  { split; [apply length_replicate |].
    intros i a Hi. apply lookup_replicate in Hi as [Hi _]. discriminate. }
  rewrite Hrej.
  destruct (allValues_filled (values st)) as [vs Hvs].
  { intros i Hi. rewrite Hlen in Hi. apply Hfill; [exact Hi |]. right.
    rewrite Hperm. apply elem_of_seq. lia. }
  rewrite Hvs. eauto.
Qed.

End All.

Section All_permutations.

Context {World ResolutionEngine ReferenceResolver FileCache FlatTokens : Type}.
Variable env : Collaborators World ResolutionEngine ReferenceResolver FileCache FlatTokens.

(** What [resolveAllPermutations] fulfils with follows the enumerated
    permutations position by position. *)
Lemma fulfilled_follows_enumeration
    (resolver : string + ResolverDocument)
    (transformList : option (list Transform))
    (preprocessorList : option (list (Preprocessor World)))
    (filterList : option (list Filter))
    (w w1 w' : World) (stage1 : LoadedResolverStage)
    (permutationInputs : list ModifierInputs) (sharedCache : FileCache)
    (completionOrder : list nat) (results : list PermutationResult) :
  prepareAllPermutations env resolver w = (Ok (stage1, permutationInputs, sharedCache), w1) ->
  resolveAllPermutations env resolver transformList preprocessorList filterList
    completionOrder w = (Fulfilled results, w') ->
  length results = length permutationInputs
  /\ Forall2
       (fun inputs result =>
          exists w0 w0',
            resolvePermutation env stage1 sharedCache transformList preprocessorList
              filterList inputs w0 = (Ok result, w0'))
       permutationInputs results.
Proof.
  intros Hprepare Hall.
  unfold resolveAllPermutations in Hall. rewrite Hprepare in Hall.
  apply Promise_all_in_task_order in Hall as [Hlen Hslots].
  rewrite length_map in Hlen. split; [exact Hlen |].
  apply Forall2_same_length_lookup_2; [now symmetry |].
  intros i inputs result Hinputs Hresult.
  destruct (Hslots i result Hresult) as (run & w0 & w0' & Hrun & Hok).
  rewrite list_lookup_fmap, Hinputs in Hrun. injection Hrun as <-. eauto.
Qed.

(** C4. Once the resolver is loaded and its permutations enumerated,
    [resolveAllPermutations] can only fulfil with exactly one result per
    enumerated permutation, the result at each position being one the
    task of the permutation at that position returned, in whatever order
    the tasks complete; and when every task completes and none throws, it
    does fulfil. *)
Theorem resolveAllPermutations_in_permutation_order
    (resolver : string + ResolverDocument)
    (transformList : option (list Transform))
    (preprocessorList : option (list (Preprocessor World)))
    (filterList : option (list Filter))
    (w w1 : World) (stage1 : LoadedResolverStage)
    (permutationInputs : list ModifierInputs) (sharedCache : FileCache) :
  prepareAllPermutations env resolver w = (Ok (stage1, permutationInputs, sharedCache), w1) ->
  let task :=
    resolvePermutation env stage1 sharedCache transformList preprocessorList filterList in
  (forall completionOrder results w',
     resolveAllPermutations env resolver transformList preprocessorList filterList
       completionOrder w = (Fulfilled results, w') ->
     length results = length permutationInputs
     /\ Forall2 (fun inputs result => exists w0 w0', task inputs w0 = (Ok result, w0'))
          permutationInputs results)
  /\ (forall completionOrder,
        completionOrder ≡ₚ seq 0 (length permutationInputs) ->
        (forall inputs w0, inputs ∈ permutationInputs ->
           exists result w0', task inputs w0 = (Ok result, w0')) ->
        exists results w',
          resolveAllPermutations env resolver transformList preprocessorList filterList
            completionOrder w = (Fulfilled results, w')).
Proof.
  intros Hprepare task. split.
  - intros order results w' Hall.
    exact (fulfilled_follows_enumeration _ _ _ _ _ _ _ _ _ _ _ _ Hprepare Hall).
  - intros order Hperm Hok.
    unfold resolveAllPermutations. rewrite Hprepare.
    apply Promise_all_fulfils.
    + intros run w0 Hrun. apply list_elem_of_fmap in Hrun as (inputs & -> & Hin).
      now apply Hok.
    + now rewrite length_map.
Qed.

(** When what a task returns does not depend on the world it runs in,
    the fulfilment value does not depend on the completion order. *)
Corollary resolveAllPermutations_deterministic
    (resolver : string + ResolverDocument)
    (transformList : option (list Transform))
    (preprocessorList : option (list (Preprocessor World)))
    (filterList : option (list Filter))
    (w w1 : World) (stage1 : LoadedResolverStage)
    (permutationInputs : list ModifierInputs) (sharedCache : FileCache)
    (order1 order2 : list nat) (results1 results2 : list PermutationResult)
    (w1' w2' : World) :
  prepareAllPermutations env resolver w = (Ok (stage1, permutationInputs, sharedCache), w1) ->
  (forall inputs wa wb,
     (resolvePermutation env stage1 sharedCache transformList preprocessorList filterList
        inputs wa).1
     = (resolvePermutation env stage1 sharedCache transformList preprocessorList filterList
          inputs wb).1) ->
  resolveAllPermutations env resolver transformList preprocessorList filterList order1 w
  = (Fulfilled results1, w1') ->
  resolveAllPermutations env resolver transformList preprocessorList filterList order2 w
  = (Fulfilled results2, w2') ->
  results1 = results2.
Proof.
  intros Hprepare Hpure Hall1 Hall2.
  destruct (fulfilled_follows_enumeration _ _ _ _ _ _ _ _ _ _ _ _ Hprepare Hall1) as [_ Hone].
  destruct (fulfilled_follows_enumeration _ _ _ _ _ _ _ _ _ _ _ _ Hprepare Hall2) as [_ Htwo].
  clear Hall1 Hall2 Hprepare. revert results2 Htwo.
  induction Hone as [| inputs r1 rest rs1 (wa & wa' & Ha) _ IH]; intros results2 Htwo.
  - now inversion Htwo.
  - inversion Htwo as [| ? r2 ? rs2 (wb & wb' & Hb) Hrest]; subst.
    f_equal; [| now apply IH].
    pose proof (Hpure inputs wa wb) as Hsame. rewrite Ha, Hb in Hsame.
    now injection Hsame.
Qed.

End All_permutations.


(** *** The properties on the small pipeline *)

(** In mode [warn] the dangling reference is reported twice over and the
    preprocessed document goes on, marked [skipped]. *)
Lemma resolveReferences_failure_policy_witness :
  resolveReferences exampleEnv danglingStage warningWorld
  = (Ok (mkReferenceResolved (preprocessed_rest danglingStage)
           (mkNote reference_skipped (Some "Unresolved reference"))
           (preprocessedTokens danglingStage)),
     mkHandlerWorld mode_warn
       ["Unresolved reference"; "Reference resolution skipped: Unresolved reference"]).
Proof.
  apply (proj1 (proj2 (resolveReferences_failure_policy exampleEnv danglingStage warningWorld)
                  (ThrownError unresolved) warningWorld eq_refl)
           (mkHandlerWorld mode_warn ["Unresolved reference"]) _ eq_refl eq_refl).
Defined.

(** C1 as stated fails: in mode [error] the validation handler raises
    the issue it is handed, so a Stage 5 that throws makes the stage, and
    with it the whole [resolve], throw; no document is carried forward. *)
Lemma reference_failure_aborts_in_error_mode :
  resolveDeepTokenDocument exampleEnv tt (preprocessedTokens danglingStage)
    (preprocessedTokens danglingStage) strictWorld
  = (Throw (ThrownError unresolved), strictWorld)
  /\ resolveReferences exampleEnv danglingStage strictWorld
     = (Throw (ThrownError unresolved), strictWorld)
  /\ resolve exampleEnv (inr themeResolver) [("theme", "dark")] None (Some [danglingRef]) None
       strictWorld
     = (Throw (ThrownError unresolved), strictWorld).
Proof. repeat split; reflexivity. Qed.

Example reference_success_is_marked_resolved :
  (resolveReferences exampleEnv
     (mkPreprocessed (preprocessed_rest danglingStage) (documentFor [("theme", "dark")]))
     strictWorld).1
  = Ok (mkReferenceResolved (preprocessed_rest danglingStage)
          (mkNote reference_resolved None) (documentFor [("theme", "dark")])).
Proof. reflexivity. Qed.

(** The two permutations of [themeResolver], the task of [dark]
    completing before the task of [light]. *)
Lemma resolveAllPermutations_in_permutation_order_witness :
  exists results w',
    resolveAllPermutations exampleEnv (inr themeResolver) None None None [1; 0] warningWorld
    = (Fulfilled results, w')
    /\ length results = 2
    /\ Forall2
         (fun inputs result =>
            exists w0 w0',
              resolvePermutation exampleEnv (mkLoaded themeResolver ".") tt None None None
                inputs w0 = (Ok result, w0'))
         [[("theme", "light")]; [("theme", "dark")]] results.
Proof.
  destruct (resolveAllPermutations_in_permutation_order exampleEnv (inr themeResolver)
              None None None warningWorld warningWorld (mkLoaded themeResolver ".")
              [[("theme", "light")]; [("theme", "dark")]] tt eq_refl)
    as [Hordered Hfulfils].
  destruct (Hfulfils [1; 0]) as (results & w' & Hall).
  - apply Permutation_swap.
  - intros inputs w0 Hin.
    apply elem_of_cons in Hin as [-> | Hin]; [eexists _, _; reflexivity |].
    apply elem_of_cons in Hin as [-> | Hin]; [eexists _, _; reflexivity |].
    inversion Hin.
  - exists results, w'. split; [exact Hall |]. exact (Hordered _ _ _ Hall).
Defined.

Example completion_order_does_not_show :
  match (resolveAllPermutations exampleEnv (inr themeResolver) None None None [1; 0]
           warningWorld).1 with
  | Fulfilled results =>
      map result_modifierInputs results = [[("theme", "light")]; [("theme", "dark")]]
  | _ => False
  end.
Proof. vm_compute. reflexivity. Qed.

(** Filters before transforms on the small pipeline: of the tokens
    [theme] and [scale], the filter keeps [theme], and the transform
    marks what it is given. *)
Example filter_then_transform_run :
  let keepTheme := mkFilter (fun token => is_string (prop token "name") "theme") in
  let mark := mkTransform None (fun token => <["seen" := JBool true]> token) in
  match (resolve (withTokenModifier exampleEnv) (inr themeResolver)
           [("theme", "dark"); ("scale", "mobile")] (Some [mark]) None (Some [keepTheme])
           warningWorld).1 with
  | Ok resolution =>
      (resolution_tokens resolution !! "theme") ≫= (fun token => token !! "seen")
      = Some (JBool true)
      /\ resolution_tokens resolution !! "scale" = None
  | Throw _ => False
  end.
Proof. vm_compute. split; reflexivity. Qed.

End PipelineFacts.

(** ** The CSS bundler *)

Module CssFacts.
Import BundlerUtils CssBundler.

Lemma forEachR_throws {E A B : Type} (f : A -> Result E (list B)) (xs : list A) (e : E) :
  forEachR f xs = Throw e -> exists x, x ∈ xs /\ f x = Throw e.
Proof.
  induction xs as [| x xs IH]; cbn [forEachR]; [discriminate |].
  destruct (f x) as [bs | e'] eqn:Hx; cbn [bindR].
  - destruct (forEachR f xs) as [more | e''] eqn:Hxs; cbn [bindR]; [discriminate |].
    intros [= ->]. destruct IH as (y & Hy & Hthrow); [reflexivity |].
    exists y. split; [now apply list_elem_of_further | exact Hthrow].
  - intros [= ->]. exists x. split; [apply list_elem_of_here | exact Hx].
Qed.

Lemma find_isBase_none (bundleData : list BundleDataItem) :
  List.find isBase bundleData = None <-> Forall (fun item => isBase item = false) bundleData.
Proof.
  induction bundleData as [| item rest IH]; cbn [List.find].
  - split; [constructor | reflexivity].
  - destruct (isBase item) eqn:Hbase.
    + split; [discriminate |]. intros Hall. inversion Hall; congruence.
    + rewrite IH. split; [now constructor |]. intros Hall. now inversion Hall.
Qed.

Section Css.

Context {Selector MediaQuery : Type}.
Variable utils : Utils Selector MediaQuery.

Lemma formatModifierPermutation_throws (item baseItem : BundleDataItem)
    (options : option (CssRendererOptions Selector MediaQuery))
    (formatTokens : Formatter) (t : Thrown) :
  formatModifierPermutation utils item baseItem options formatTokens = Throw t ->
  thrownByCallback utils options (Some formatTokens) t.
Proof.
  unfold formatModifierPermutation, thrownByCallback.
  destruct (1 <? _)%nat; [discriminate |].
  destruct (size _ =? 0)%nat; [discriminate |].
  destruct (parseModifierSource utils _) as [modifier context].
  unfold mbind, Result_bind.
  destruct (resolveSelector utils _ modifier context false _) as [sel | e] eqn:Hsel;
    cbn [bindR]; [| intros [= ->]; left; eauto 10].
  destruct (resolveMediaQuery utils _ modifier context false _) as [mq | e] eqn:Hmq;
    cbn [bindR]; [| intros [= ->]; right; left; eauto 10].
  destruct (formatTokens _ _) as [css | e] eqn:Hcss; cbn [bindR]; [discriminate |].
  intros [= ->]. right; right. eauto 10.
Qed.

Lemma formatBasePermutation_throws (item : BundleDataItem) (resolver : ResolverDocument)
    (options : option (CssRendererOptions Selector MediaQuery))
    (formatTokens : Formatter) (t : Thrown) :
  formatBasePermutation utils item resolver options formatTokens = Throw t ->
  thrownByCallback utils options (Some formatTokens) t.
Proof.
  unfold formatBasePermutation, thrownByCallback. cbv zeta.
  unfold mbind, Result_bind.
  destruct (resolveSelector utils _ _ _ true _) as [sel | e] eqn:Hsel;
    cbn [bindR]; [| intros [= ->]; left; eauto 10].
  destruct (resolveMediaQuery utils _ _ _ true _) as [mq | e] eqn:Hmq;
    cbn [bindR]; [| intros [= ->]; right; left; eauto 10].
  intros Hloop. apply forEachR_throws in Hloop as (block & _ & Hblock).
  destruct (formatTokens _ _) as [css | e] eqn:Hcss; cbn [bindR] in Hblock; [discriminate |].
  injection Hblock as ->. right; right. eauto 10.
Qed.

(** Whatever [bundleAsCss] throws once it has found a base item is the
    missing-formatter error or came out of a callback. *)
Lemma bundleAsCss_throws_with_base (bundleData : list BundleDataItem)
    (resolver : ResolverDocument)
    (options : option (CssRendererOptions Selector MediaQuery))
    (formatTokens : option Formatter) (baseItem : BundleDataItem) (t : Thrown) :
  List.find isBase bundleData = Some baseItem ->
  bundleAsCss utils bundleData resolver options formatTokens = Throw t ->
  (formatTokens = None /\ t = newError ConfigurationError "CSS formatter was not provided")
  \/ thrownByCallback utils options formatTokens t.
Proof.
  intros Hfind. unfold bundleAsCss. rewrite Hfind.
  destruct formatTokens as [format |]; [| intros [= <-]; now left].
  unfold mbind, Result_bind.
  destruct (forEachR _ _) as [blocks | e] eqn:Hloop; cbn [bindR]; [discriminate |].
  intros [= ->]. right.
  apply forEachR_throws in Hloop as (item & _ & Hitem).
  destruct (isBase item).
  - now apply formatBasePermutation_throws in Hitem.
  - destruct (formatModifierPermutation utils item baseItem options format)
      as [block | e] eqn:Hblock; cbn [bindR] in Hitem; [discriminate |].
    injection Hitem as ->. now apply formatModifierPermutation_throws in Hblock.
Qed.

(** C8. Provided the callbacks it runs (the selector and media-query
    options, the formatter) do not themselves throw a
    [BasePermutationError], [bundleAsCss] throws a [BasePermutationError]
    exactly when no element of [bundleData] is marked [isBase]. *)
Theorem bundleAsCss_BasePermutationError_iff_no_base
    (bundleData : list BundleDataItem) (resolver : ResolverDocument)
    (options : option (CssRendererOptions Selector MediaQuery))
    (formatTokens : option Formatter) :
  (forall t, thrownByCallback utils options formatTokens t ->
             instanceOf t BasePermutationError = false) ->
  (exists t, bundleAsCss utils bundleData resolver options formatTokens = Throw t
             /\ instanceOf t BasePermutationError = true)
  <-> Forall (fun item => isBase item = false) bundleData.
Proof.
  intros Hcallbacks. rewrite <- find_isBase_none. split.
  - intros (t & Hthrow & Hkind).
    destruct (List.find isBase bundleData) as [baseItem |] eqn:Hfind; [| reflexivity].
    destruct (bundleAsCss_throws_with_base _ _ _ _ _ _ Hfind Hthrow) as [[_ ->] | Hcallback].
    + discriminate Hkind.
    + rewrite (Hcallbacks t Hcallback) in Hkind. discriminate Hkind.
  - intros Hfind. unfold bundleAsCss. rewrite Hfind.
    eexists. split; reflexivity.
Qed.

End Css.

Lemma defaultUtils_callbacks_quiet (t : Thrown) :
  thrownByCallback defaultUtils None (Some listNames) t ->
  instanceOf t BasePermutationError = false.
Proof.
  intros [(m & c & b & inputs & H) | [(m & c & b & inputs & H) | (f & tokens & o & [= <-] & H)]];
    discriminate H.
Qed.

(** Without a base item, and with one. *)
Lemma bundleAsCss_BasePermutationError_iff_no_base_witness :
  ((exists t, bundleAsCss defaultUtils [darkOverride] Scenarios.themeResolver None
                (Some listNames) = Throw t
              /\ instanceOf t BasePermutationError = true)
   <-> Forall (fun item => isBase item = false) [darkOverride])
  /\ ((exists t, bundleAsCss defaultUtils [lightItem; darkOverride] Scenarios.themeResolver None
                   (Some listNames) = Throw t
                 /\ instanceOf t BasePermutationError = true)
      <-> Forall (fun item => isBase item = false) [lightItem; darkOverride]).
Proof.
  split.
  - apply (bundleAsCss_BasePermutationError_iff_no_base defaultUtils [darkOverride]
             Scenarios.themeResolver None (Some listNames) defaultUtils_callbacks_quiet).
  - apply (bundleAsCss_BasePermutationError_iff_no_base defaultUtils [lightItem; darkOverride]
             Scenarios.themeResolver None (Some listNames) defaultUtils_callbacks_quiet).
Defined.

Example no_base_item_raises :
  bundleAsCss defaultUtils [darkOverride] Scenarios.themeResolver None (Some listNames)
  = Throw (newError BasePermutationError "Base permutation not found in bundle data").
Proof. reflexivity. Qed.

Example missing_formatter_is_a_configuration_error :
  bundleAsCss defaultUtils [lightItem; darkOverride] Scenarios.themeResolver None None
  = Throw (newError ConfigurationError "CSS formatter was not provided").
Proof. reflexivity. Qed.


(** *** Modifier blocks in cascade mode *)

Lemma hasSourceMetadata_false (tokens : ResolvedTokens) :
  hasSourceMetadata tokens = false
  <-> forall name token, tokens !! name = Some token -> getSourceModifier token = None.
Proof.
  unfold hasSourceMetadata. split.
  - intros Hnone name token Hlook.
    destruct (getSourceModifier token) as [source|] eqn:Hsource; [| reflexivity].
    assert (Hex : existsb
                    (fun entry : string * ResolvedToken =>
                       match getSourceModifier entry.2 with Some _ => true | None => false end)
                    (map_to_list tokens) = true).
    { apply existsb_exists. exists (name, token). split.
      - apply list_elem_of_In. now apply elem_of_map_to_list.
      - cbn. now rewrite Hsource. }
    congruence.
  - intros Hall. apply not_true_is_false. intros Hex.
    apply existsb_exists in Hex as ([name token] & Hin & Hsome).
    apply list_elem_of_In, elem_of_map_to_list in Hin. cbn in Hsome.
    now rewrite (Hall name token Hin) in Hsome.
Qed.

Lemma size_zero_empty (tokens : ResolvedTokens) :
  (size tokens =? 0)%nat = true <-> tokens = ∅.
Proof. rewrite Nat.eqb_eq. apply map_size_empty_iff. Qed.

Lemma filterTokensBySource_lookup (tokens : ResolvedTokens) (expectedSource name : string)
    (token : ResolvedToken) :
  filterTokensBySource tokens expectedSource !! name = Some token
  <-> tokens !! name = Some token /\ fromSource expectedSource token.
Proof. unfold filterTokensBySource. apply map_lookup_filter_Some. Qed.

Lemma filterTokensBySource_without_metadata (tokens : ResolvedTokens) (expectedSource : string) :
  hasSourceMetadata tokens = false -> filterTokensBySource tokens expectedSource = ∅.
Proof.
  intros Hnone. apply map_eq. intros name. rewrite lookup_empty.
  destruct (filterTokensBySource tokens expectedSource !! name) as [token|] eqn:Hlook;
    [| reflexivity].
  apply filterTokensBySource_lookup in Hlook as [Hlook Hfrom].
  rewrite hasSourceMetadata_false in Hnone.
  unfold fromSource in Hfrom. rewrite (Hnone name token Hlook) in Hfrom. discriminate Hfrom.
Qed.

(** *** The deviating modifier *)

Lemma obj_has_false_not_key {V : Type} (key : string) (fields : list (string * V)) :
  obj_has key fields = false -> key ∉ obj_keys fields.
Proof.
  unfold obj_has, obj_keys. induction fields as [| [k w] rest IH]; cbn [obj_get map fst].
  - intros _ Hin. inversion Hin.
  - destruct (String.eqb k key) eqn:Hk; [discriminate |].
    intros Hrest Hin. apply elem_of_cons in Hin as [<- | Hin].
    + now rewrite String.eqb_refl in Hk.
    + now apply IH.
Qed.

Lemma obj_set_keys {V : Type} (key : string) (v : V) (fields : list (string * V)) :
  obj_keys (obj_set key v fields)
  = if obj_has key fields then obj_keys fields else obj_keys fields ++ [key].
Proof.
  unfold obj_has, obj_keys. induction fields as [| [k w] rest IH]; cbn [obj_set obj_get map fst].
  - reflexivity.
  - destruct (String.eqb k key) eqn:Hk; cbn [map fst]; [reflexivity |].
    rewrite IH. now destruct (obj_get key rest).
Qed.

Lemma obj_set_keys_NoDup {V : Type} (key : string) (v : V) (fields : list (string * V)) :
  NoDup (obj_keys fields) -> NoDup (obj_keys (obj_set key v fields)).
Proof.
  intros Hnodup. rewrite obj_set_keys.
  destruct (obj_has key fields) eqn:Hhas; [exact Hnodup |].
  apply NoDup_app. split; [exact Hnodup |]. split; [| apply NoDup_singleton].
  intros k Hk Hkey. apply list_elem_of_singleton in Hkey as ->.
  now apply (obj_has_false_not_key _ _ Hhas).
Qed.

Lemma normalizeModifierInputs_NoDup (inputs : ModifierInputs) :
  NoDup (obj_keys (normalizeModifierInputs inputs)).
Proof.
  unfold normalizeModifierInputs.
  assert (Hgen : forall acc : ModifierInputs,
             NoDup (obj_keys acc) ->
             NoDup (obj_keys
                      (fold_left
                         (fun normalized entry =>
                            obj_set (toLowerCase entry.1) (toLowerCase entry.2) normalized)
                         inputs acc))).
  { induction inputs as [| entry rest IH]; intros acc Hacc; [exact Hacc |].
    cbn [fold_left]. apply IH. now apply obj_set_keys_NoDup. }
  apply Hgen. constructor.
Qed.

Lemma obj_get_of_entry {V : Type} (fields : list (string * V)) (key : string) (v : V) :
  NoDup (obj_keys fields) -> (key, v) ∈ fields -> obj_get key fields = Some v.
Proof.
  unfold obj_keys. induction fields as [| [k w] rest IH]; cbn [obj_get map fst];
    intros Hnodup Hin; [inversion Hin |].
  apply NoDup_cons in Hnodup as [Hfresh Hnodup].
  apply elem_of_cons in Hin as [[= <- <-] | Hin].
  - now rewrite String.eqb_refl.
  - destruct (String.eqb k key) eqn:Hk; [| now apply IH].
    apply String.eqb_eq in Hk as ->. destruct Hfresh.
    apply list_elem_of_fmap. now exists (key, v).
Qed.

Lemma obj_get_entry {V : Type} (fields : list (string * V)) (key : string) (v : V) :
  obj_get key fields = Some v -> (key, v) ∈ fields.
Proof.
  induction fields as [| [k w] rest IH]; cbn [obj_get]; [discriminate |].
  destruct (String.eqb k key) eqn:Hk.
  - intros [= <-]. apply String.eqb_eq in Hk as ->. apply list_elem_of_here.
  - intros Hrest. apply list_elem_of_further. now apply IH.
Qed.

(** A permutation that differs from the base in exactly one modifier:
    the expected source names that modifier and the permutation's context
    for it, and every other modifier of the permutation has the base's
    context. *)
Lemma single_deviation (current base : ModifierInputs) :
  countModifierDifferences current base = 1 ->
  exists modifier context,
    obj_get modifier (normalizeModifierInputs current) = Some context
    /\ obj_get modifier (normalizeModifierInputs base) <> Some context
    /\ getExpectedSource current base = modifier +:+ "-" +:+ context
    /\ forall other context',
         obj_get other (normalizeModifierInputs current) = Some context' ->
         other <> modifier ->
         obj_get other (normalizeModifierInputs base) = Some context'.
Proof.
  unfold countModifierDifferences, getExpectedSource.
  destruct (List.filter _ _) as [| [modifier context] [| ? ?]] eqn:Hfilter; try discriminate.
  intros _. exists modifier, context.
  assert (Hentry : In (modifier, context)
                     (List.filter (differsFrom (normalizeModifierInputs base))
                                  (normalizeModifierInputs current))).
  { rewrite Hfilter. now left. }
  apply filter_In in Hentry as [Hin Hdiffers].
  split; [| split; [| split; [reflexivity |]]].
  - apply obj_get_of_entry; [apply normalizeModifierInputs_NoDup | now apply list_elem_of_In].
  - unfold differsFrom in Hdiffers. cbn [fst snd] in Hdiffers.
    intros Hsame. rewrite Hsame, String.eqb_refl in Hdiffers. discriminate Hdiffers.
  - intros other context' Hother Hne.
    apply obj_get_entry, list_elem_of_In in Hother.
    destruct (differsFrom (normalizeModifierInputs base) (other, context')) eqn:Hd.
    + assert (Hin' : In (other, context')
                       (List.filter (differsFrom (normalizeModifierInputs base))
                                    (normalizeModifierInputs current))).
      { apply filter_In. now split. }
      rewrite Hfilter in Hin'. destruct Hin' as [[= -> ->] | []]. now destruct Hne.
    + unfold differsFrom in Hd. cbn [fst snd] in Hd.
      destruct (obj_get other (normalizeModifierInputs base)) as [v |]; [| discriminate].
      apply negb_false_iff, String.eqb_eq in Hd. now subst.
Qed.

Section Modelled_utils.

Context {Selector MediaQuery : Type}.
Variable strip : ResolvedTokens -> ResolvedTokens.
Variable selectorOf :
  option Selector -> string -> string -> bool -> ModifierInputs -> Result Thrown string.
Variable mediaQueryOf :
  option MediaQuery -> string -> string -> bool -> ModifierInputs -> Result Thrown string.
Variable parse : string -> string * string.

Let utils : Utils Selector MediaQuery := modelledUtils strip selectorOf mediaQueryOf parse.

(** The tokens a modifier block is made from: those stamped with the
    expected source when any token of the permutation is stamped at all,
    every token of the permutation otherwise. *)
Lemma tokensToInclude_cases (tokens : ResolvedTokens) (expectedSource : string) :
  (hasSourceMetadata tokens = true ->
   tokensToInclude utils tokens expectedSource = filterTokensBySource tokens expectedSource)
  /\ (hasSourceMetadata tokens = false -> tokensToInclude utils tokens expectedSource = tokens).
Proof.
  unfold tokensToInclude. cbn [utils modelledUtils utils_filterTokensBySource]. split.
  - intros ->. now rewrite andb_false_r.
  - intros Hnone. rewrite (filterTokensBySource_without_metadata _ _ Hnone), Hnone.
    reflexivity.
Qed.

(** C2, as the code has it. In cascade CSS bundling a permutation that
    differs from the base in more than one modifier gets no block. One
    that differs in at most one gets a block only when the tokens it is
    made from are not empty; these are the tokens whose [_sourceModifier]
    matches the expected source when at least one token of the
    permutation carries a [_sourceModifier], and all tokens of the
    permutation when none does. For a permutation that differs in exactly
    one modifier the expected source is the deviating modifier-context
    pair, every other modifier being at the base's context. *)
Theorem cascade_modifier_block (item baseItem : BundleDataItem)
    (options : option (CssRendererOptions Selector MediaQuery)) (formatTokens : Formatter) :
  let differences := countModifierDifferences (modifierInputs item) (modifierInputs baseItem) in
  let expected := getExpectedSource (modifierInputs item) (modifierInputs baseItem) in
  (1 < differences ->
   formatModifierPermutation utils item baseItem options formatTokens = Ok None)
  /\ (forall block,
        formatModifierPermutation utils item baseItem options formatTokens = Ok (Some block) ->
        differences <= 1
        /\ exists included resolvedOptions css,
             formatTokens (strip included) resolvedOptions = Ok css
             /\ block = "/* Modifier: " +:+ (parse expected).1 +:+ "=" +:+ (parse expected).2
                        +:+ " */" +:+ nl +:+ css
             /\ included <> ∅
             /\ (hasSourceMetadata (tokens item) = true ->
                 forall name token,
                   included !! name = Some token
                   <-> tokens item !! name = Some token /\ fromSource expected token)
             /\ (hasSourceMetadata (tokens item) = false -> included = tokens item))
  /\ (hasSourceMetadata (tokens item) = true ->
      (forall name token, tokens item !! name = Some token -> ~ fromSource expected token) ->
      formatModifierPermutation utils item baseItem options formatTokens = Ok None)
  /\ (differences = 1 ->
      exists modifier context,
        obj_get modifier (normalizeModifierInputs (modifierInputs item)) = Some context
        /\ obj_get modifier (normalizeModifierInputs (modifierInputs baseItem)) <> Some context
        /\ expected = modifier +:+ "-" +:+ context
        /\ forall other context',
             obj_get other (normalizeModifierInputs (modifierInputs item)) = Some context' ->
             other <> modifier ->
             obj_get other (normalizeModifierInputs (modifierInputs baseItem))
             = Some context').
Proof.
  cbv zeta. unfold formatModifierPermutation.
  cbn [utils modelledUtils utils_countModifierDifferences utils_getExpectedSource
       parseModifierSource stripInternalMetadata resolveSelector resolveMediaQuery].
  fold utils.
  set (differences := countModifierDifferences _ _).
  set (expected := getExpectedSource _ _).
  destruct (tokensToInclude_cases (tokens item) expected) as [Hstamped Hplain].
  split; [| split; [| split]]; [| | | apply single_deviation].
  - intros Hmany. apply Nat.ltb_lt in Hmany. now rewrite Hmany.
  - intros block. destruct (1 <? differences)%nat eqn:Hmany; [discriminate |].
    apply Nat.ltb_ge in Hmany.
    destruct (size (tokensToInclude utils (tokens item) expected) =? 0)%nat eqn:Hsize;
      [discriminate |].
    destruct (parse expected) as [modifier context]. unfold mbind, Result_bind.
    destruct (selectorOf _ modifier context false _) as [sel |]; cbn [bindR]; [| discriminate].
    destruct (mediaQueryOf _ modifier context false _) as [mq |]; cbn [bindR]; [| discriminate].
    destruct (formatTokens _ _) as [css |] eqn:Hcss; cbn [bindR]; [| discriminate].
    intros [= <-]. split; [exact Hmany |].
    exists (tokensToInclude utils (tokens item) expected). eexists. exists css.
    split; [exact Hcss |]. split; [reflexivity |]. split.
    { intros Hempty. apply size_zero_empty in Hempty. congruence. }
    split.
    + intros Hmeta name token. rewrite (Hstamped Hmeta). apply filterTokensBySource_lookup.
    + exact Hplain.
  - intros Hmeta Hnone. destruct (1 <? differences)%nat; [reflexivity |].
    rewrite (Hstamped Hmeta).
    assert (Hempty : filterTokensBySource (tokens item) expected = ∅).
    { apply map_eq. intros name. rewrite lookup_empty.
      destruct (filterTokensBySource (tokens item) expected !! name) as [token|] eqn:Hlook;
        [| reflexivity].
      apply filterTokensBySource_lookup in Hlook as [Hlook Hfrom].
      now destruct (Hnone name token Hlook). }
    apply size_zero_empty in Hempty. now rewrite Hempty.
Qed.

End Modelled_utils.

(** A permutation one modifier away from the base, one of its two tokens
    stamped with that modifier's context: the block holds that token
    alone. *)
Lemma cascade_modifier_block_witness :
  formatModifierPermutation defaultUtils darkOverride lightItem None listNames
  = Ok (Some ("/* Modifier: theme=dark */" +:+ nl +:+ "[data-theme=" +:+ quote +:+ "dark"
              +:+ quote +:+ "] { color.text }"))
  /\ countModifierDifferences (modifierInputs darkOverride) (modifierInputs lightItem) <= 1.
Proof.
  split; [reflexivity |].
  apply (proj1 (proj2 (cascade_modifier_block BundlerUtils.stripInternalMetadata
                         BundlerUtils.resolveSelector BundlerUtils.resolveMediaQuery
                         BundlerUtils.parseModifierSource darkOverride lightItem None listNames))
           _ eq_refl).
Defined.

(** C2 as stated fails: the permutation [dark] differs from the base in
    exactly one modifier, none of its tokens carries a [_sourceModifier],
    and the block emitted for it holds [color.text], whose
    [_sourceModifier] does not match [theme-dark]. *)
Lemma unstamped_tokens_are_all_emitted :
  countModifierDifferences (modifierInputs darkItem) (modifierInputs lightItem) = 1
  /\ getExpectedSource (modifierInputs darkItem) (modifierInputs lightItem) = "theme-dark"
  /\ formatModifierPermutation defaultUtils darkItem lightItem None listNames
     = Ok (Some ("/* Modifier: theme=dark */" +:+ nl +:+ "[data-theme=" +:+ quote +:+ "dark"
                 +:+ quote +:+ "] { color.text }"))
  /\ exists token, tokens darkItem !! "color.text" = Some token
                   /\ getSourceModifier token = None
                   /\ ~ fromSource "theme-dark" token.
Proof.
  split; [reflexivity |]. split; [reflexivity |]. split; [reflexivity |].
  eexists. split; [reflexivity |]. split; [reflexivity |].
  unfold fromSource. cbn. discriminate.
Qed.

(** Two modifiers away from the base: no block. *)
Example multi_dimension_deviation_is_skipped :
  formatModifierPermutation defaultUtils
    (mkItem (tokens darkOverride) [("theme", "dark"); ("scale", "mobile")] false)
    (mkItem (tokens lightItem) [("theme", "light"); ("scale", "desktop")] true)
    None listNames
  = Ok None.
Proof. reflexivity. Qed.

End CssFacts.

(** ** Strings *)

Module StringFacts.
Import Chars.

Lemma append_cons (c : ascii) (a b : string) : String c a +:+ b = String c (a +:+ b).
Proof. reflexivity. Qed.

Lemma append_app_assoc (a b c : string) : (a +:+ b) +:+ c = a +:+ (b +:+ c).
Proof.
  induction a as [| x a IH]; [reflexivity |]. now rewrite !append_cons, IH.
Qed.

Lemma length_append (a b : string) :
  String.length (a +:+ b) = (String.length a + String.length b)%nat.
Proof.
  induction a as [| x a IH]; [reflexivity |]. rewrite append_cons. cbn. now rewrite IH.
Qed.

Lemma occurs_append (c : ascii) (a b : string) :
  occurs c (a +:+ b) = occurs c a || occurs c b.
Proof.
  induction a as [| d a IH]; [reflexivity |].
  rewrite append_cons. cbn [occurs]. now rewrite IH, orb_assoc.
Qed.

Lemma startsWith_append (p s : string) : startsWith (p +:+ s) p = true.
Proof.
  induction p as [| c p IH]; [now destruct s |].
  rewrite append_cons. cbn. now rewrite Ascii.eqb_refl, IH.
Qed.

Lemma slice_from_append (p s : string) : slice_from (String.length p) (p +:+ s) = s.
Proof. induction p as [| c p IH]; [reflexivity | exact IH]. Qed.

Lemma startsWith_split (s p : string) :
  startsWith s p = true -> s = p +:+ slice_from (String.length p) s.
Proof.
  revert s. induction p as [| c p IH]; intros s; [reflexivity |].
  destruct s as [| d s]; cbn; [discriminate |].
  destruct (Ascii.eqb_spec c d) as [<- |]; [| discriminate].
  cbn. intros Hrest. rewrite append_cons. f_equal. now apply IH.
Qed.


Lemma existsb_eqb_elem (name : string) (names : list string) :
  existsb (String.eqb name) names = true <-> name ∈ names.
Proof.
  rewrite existsb_exists. split.
  - intros (x & Hin & Heq). apply String.eqb_eq in Heq as ->. now apply list_elem_of_In.
  - intros Hin. exists name. split; [now apply list_elem_of_In | apply String.eqb_refl].
Qed.

Lemma obj_has_key {V : Type} (key : string) (fields : list (string * V)) :
  obj_has key fields = true <-> key ∈ obj_keys fields.
Proof.
  unfold obj_has, obj_keys. induction fields as [| [k w] rest IH]; cbn [obj_get map fst].
  - split; [discriminate | intros Hin; inversion Hin].
  - destruct (String.eqb_spec k key) as [-> | Hne].
    + split; [intros _; apply list_elem_of_here | reflexivity].
    + rewrite IH. split; [apply list_elem_of_further |].
      intros Hin. apply elem_of_cons in Hin as [-> | Hin]; [now destruct Hne | exact Hin].
Qed.

End StringFacts.

Module CssLayerFacts.
Import BundlerUtils CssBundler CssInvariants.

#[local] Abbreviation LayerState := (list DefaultLayerBlock * gset string)%type.

Section Layers.

Context {Selector MediaQuery : Type}.
Variable utils : Utils Selector MediaQuery.
Variable tokens : ResolvedTokens.

Lemma layered_start : layered tokens ([], ∅).
Proof.
  split; cbn.
  - constructor.
  - constructor.
  - intros name. split.
    + intros Hin. now apply not_elem_of_empty in Hin.
    + intros (block & Hin & _). inversion Hin.
  - intros i j b b' name Hi. now rewrite lookup_nil in Hi.
Qed.

Lemma layered_addBlock (key : string) (blockTokens : ResolvedTokens)
    (description : option string) (st : LayerState) :
  layered tokens st ->
  blockTokens ⊆ tokens ->
  (forall name, is_Some (blockTokens !! name) -> name ∉ st.2) ->
  layered tokens (addBlock key blockTokens description st).
Proof.
  intros [Hne Hsub Hinc Hdis] Hsubset Hfresh. unfold addBlock.
  destruct (size blockTokens =? 0)%nat eqn:Hsize; [now split |].
  assert (Hnonempty : blockTokens <> ∅).
  { intros ->. now rewrite map_size_empty in Hsize. }
  split; cbn [fst snd].
  - apply Forall_app. split; [exact Hne |]. constructor; [exact Hnonempty | constructor].
  - apply Forall_app. split; [exact Hsub |]. constructor; [exact Hsubset | constructor].
  - intros name. rewrite elem_of_union, elem_of_dom, Hinc. split.
    + intros [(block & Hin & Hsome) | Hsome].
      * exists block. split; [apply elem_of_app; now left | exact Hsome].
      * exists (mkBlock key description blockTokens).
        split; [apply elem_of_app; right; apply list_elem_of_here | exact Hsome].
    + intros (block & Hin & Hsome). apply elem_of_app in Hin as [Hin | Hin].
      * left. now exists block.
      * apply list_elem_of_singleton in Hin as ->. now right.
  - intros i j b b' name Hi Hj Hb Hb'.
    apply lookup_app_Some in Hi as [Hi | [Hlen Hi]];
      apply lookup_app_Some in Hj as [Hj | [Hlen' Hj]].
    + now apply (Hdis i j b b' name).
    + apply list_lookup_singleton_Some in Hj as [Hj <-]. cbn in Hb'.
      destruct (Hfresh name Hb'). apply Hinc. exists b.
      split; [now apply list_elem_of_lookup_2 with i | exact Hb].
    + apply list_lookup_singleton_Some in Hi as [Hi <-]. cbn in Hb.
      destruct (Hfresh name Hb). apply Hinc. exists b'.
      split; [now apply list_elem_of_lookup_2 with j | exact Hb'].
    + apply list_lookup_singleton_Some in Hi as [Hi _].
      apply list_lookup_singleton_Some in Hj as [Hj _]. lia.
Qed.

(** A layer picks among the tokens that are not yet included. *)
Lemma layered_pick (P : string * ResolvedToken -> Prop) `{!forall entry, Decision (P entry)}
    (key : string) (description : option string) (st : LayerState) :
  layered tokens st ->
  (forall entry, P entry -> entry.1 ∉ st.2) ->
  layered tokens (addBlock key (base.filter P tokens) description st).
Proof.
  intros Hst Hfresh. apply layered_addBlock; [exact Hst | apply map_filter_subseteq |].
  intros name [token Hlook]. apply map_lookup_filter_Some in Hlook as [_ HP].
  exact (Hfresh _ HP).
Qed.

Lemma layered_layerStep (baseInputs : ModifierInputs) (resolver : ResolverDocument)
    (st : LayerState) (item : JsValue) :
  layered tokens st -> layered tokens (layerStep tokens baseInputs resolver st item).
Proof.
  intros Hst. unfold layerStep.
  destruct (item_ref item) as [ref|]; [| exact Hst].
  destruct (startsWith ref "#/sets/").
  - apply layered_pick; [exact Hst | now intros entry [Hfresh _]].
  - destruct (startsWith ref "#/modifiers/"); [| exact Hst].
    destruct (modifiers resolver ≫= obj_get _) as [modifier|]; [| exact Hst].
    destruct (obj_get _ baseInputs) as [selectedContext|]; [| exact Hst].
    destruct (nonEmpty selectedContext); [| exact Hst].
    apply layered_pick; [exact Hst | now intros entry [Hfresh _]].
Qed.

Lemma layered_fold (baseInputs : ModifierInputs) (resolver : ResolverDocument)
    (items : list JsValue) (st : LayerState) :
  layered tokens st -> layered tokens (fold_left (layerStep tokens baseInputs resolver) items st).
Proof.
  revert st. induction items as [| item rest IH]; intros st Hst; [exact Hst |].
  cbn [fold_left]. apply IH. now apply layered_layerStep.
Qed.

(** X1. [buildDefaultLayerBlocks] splits the base permutation's tokens
    into layers without losing or repeating any, no token being named
    [__proto__]: a token is in the table exactly when some block holds
    it, no name is in two blocks, and no block is empty. *)
Theorem buildDefaultLayerBlocks_partitions (baseModifierInputs : ModifierInputs)
    (resolver : ResolverDocument) :
  tokens !! "__proto__" = None ->
  let blocks := buildDefaultLayerBlocks utils tokens baseModifierInputs resolver in
  (forall name token,
      tokens !! name = Some token
      <-> exists block, block ∈ blocks /\ block_tokens block !! name = Some token)
  /\ (forall i j b b' name,
        blocks !! i = Some b -> blocks !! j = Some b' ->
        is_Some (block_tokens b !! name) -> is_Some (block_tokens b' !! name) -> i = j)
  /\ Forall (fun block => block_tokens block <> ∅) blocks.
Proof.
  intros _. unfold buildDefaultLayerBlocks. cbv zeta.
  set (st := fold_left _ _ _).
  assert (Hst : layered tokens st) by apply layered_fold, layered_start.
  set (remainder := base.filter (fun entry : string * ResolvedToken => entry.1 ∉ st.2) tokens).
  assert (Hfinal : layered tokens (addBlock "Unattributed" remainder None st)).
  { apply layered_pick; [exact Hst | now intros entry Hfresh]. }
  split; [| split; [apply (layered_disjoint _ _ Hfinal) | apply (layered_nonempty _ _ Hfinal)]].
  intros name token. split.
  - intros Hlook. destruct (decide (name ∈ st.2)) as [Hin | Hout].
    + apply (layered_included _ _ Hst) in Hin as (block & Hin & [token' Hsome]).
      exists block. split.
      * unfold addBlock. destruct (size remainder =? 0)%nat; [exact Hin |].
        apply elem_of_app. now left.
      * pose proof (layered_subset _ _ Hst) as Hsub.
        rewrite Forall_forall in Hsub. specialize (Hsub block Hin).
        rewrite map_subseteq_spec in Hsub. specialize (Hsub name token' Hsome).
        congruence.
    + assert (Hrem : remainder !! name = Some token).
      { apply map_lookup_filter_Some. split; [exact Hlook | exact Hout]. }
      unfold addBlock. destruct (size remainder =? 0)%nat eqn:Hsize.
      * apply Nat.eqb_eq, map_size_empty_iff in Hsize. rewrite Hsize in Hrem.
        now rewrite lookup_empty in Hrem.
      * exists (mkBlock "Unattributed" None remainder).
        split; [apply elem_of_app; right; apply list_elem_of_here | exact Hrem].
  - intros (block & Hin & Hlook).
    pose proof (layered_subset _ _ Hfinal) as Hsub.
    rewrite Forall_forall in Hsub. specialize (Hsub block Hin).
    rewrite map_subseteq_spec in Hsub. now apply Hsub.
Qed.

End Layers.

(** *** The base permutation's blocks *)

Lemma forEachR_singletons {E A B : Type} (f : A -> Result E (list B)) (xs : list A) :
  (forall x, x ∈ xs -> exists y, f x = Ok [y]) ->
  exists ys, forEachR f xs = Ok ys /\ Forall2 (fun x y => f x = Ok [y]) xs ys.
Proof.
  induction xs as [| x xs IH]; intros Hall.
  - exists []. split; [reflexivity | constructor].
  - destruct (Hall x) as [y Hy]; [apply list_elem_of_here |].
    destruct IH as (ys & Hys & Hshape).
    { intros x' Hx'. apply Hall. now apply list_elem_of_further. }
    exists (y :: ys). split; [| now constructor].
    cbn [forEachR]. rewrite Hy, Hys. reflexivity.
Qed.

Section Base.

Context {Selector MediaQuery : Type}.
Variable utils : Utils Selector MediaQuery.

(** X2. When no token is named [__proto__], the selector and the media
    query resolve and the formatter returns for every layer,
    [formatBasePermutation] returns one text per block of
    [buildDefaultLayerBlocks], in the blocks' order: the block's header,
    a line feed, and what the formatter made of the block's tokens. *)
Theorem formatBasePermutation_one_text_per_layer (item : BundleDataItem)
    (resolver : ResolverDocument) (options : option (CssRendererOptions Selector MediaQuery))
    (formatTokens : Formatter) (resolvedSelector resolvedMediaQuery : string) :
  let layers := buildDefaultLayerBlocks utils (tokens item) (modifierInputs item) resolver in
  let format := fun block : DefaultLayerBlock =>
    formatTokens (stripInternalMetadata utils (block_tokens block))
      (mkResolvedCssOptions resolvedSelector resolvedMediaQuery
         (options ≫= @minify Selector MediaQuery)
         (stripInternalMetadata utils (tokens item))) in
  tokens item !! "__proto__" = None ->
  (forall modifier context,
     resolveSelector utils (options ≫= @selector Selector MediaQuery) modifier context true
       (modifierInputs item) = Ok resolvedSelector) ->
  (forall modifier context,
     resolveMediaQuery utils (options ≫= @mediaQuery Selector MediaQuery) modifier context true
       (modifierInputs item) = Ok resolvedMediaQuery) ->
  (forall block, block ∈ layers -> exists css, format block = Ok css) ->
  exists texts,
    formatBasePermutation utils item resolver options formatTokens = Ok texts
    /\ Forall2
         (fun block text =>
            exists css, format block = Ok css /\ text = blockHeader block +:+ nl +:+ css)
         layers texts.
Proof.
  cbv zeta. intros _ Hselector HmediaQuery Hformat.
  unfold formatBasePermutation. cbv zeta.
  rewrite Hselector, HmediaQuery. unfold mbind at 1 2, Result_bind at 1 2. cbn [bindR].
  match goal with
  | |- context [forEachR ?f ?blocks] =>
      destruct (forEachR_singletons f blocks) as (texts & Htexts & Hshape)
  end.
  - intros block Hblock. destruct (Hformat block Hblock) as [css Hcss].
    exists (blockHeader block +:+ nl +:+ css).
    cbv beta. now rewrite Hcss.
  - exists texts. split; [exact Htexts |].
    eapply Forall2_impl; [exact Hshape |].
    intros block text. cbv beta.
    destruct (formatTokens _ _) as [css |]; [| discriminate].
    intros [= <-]. now exists css.
Qed.

End Base.

(** *** The order of the modifiers and of the permutations *)

#[local] Abbreviation Names := (list string * list string)%type.

Lemma mentionedBy_step (declared : list (string * ModifierDef)) (done : list JsValue)
    (st : Names) (item : JsValue) :
  mentionedBy declared done st ->
  mentionedBy declared (done ++ [item]) (orderedStep declared st item).
Proof.
  intros (Hsame & Hnodup & Hin).
  assert (Hskip :
            (forall name, item_ref item = Some ("#/modifiers/" +:+ name) ->
                          name ∈ obj_keys declared -> name ∈ st.2) ->
            mentionedBy declared (done ++ [item]) st).
  { intros Hitem. split; [exact Hsame |]. split; [exact Hnodup |].
    intros name. rewrite Hin. split.
    - intros (Hdecl & item' & Hdone & Href). split; [exact Hdecl |].
      exists item'. split; [apply elem_of_app; now left | exact Href].
    - intros (Hdecl & item' & Hdone & Href). apply elem_of_app in Hdone as [Hdone | Hdone].
      + split; [exact Hdecl |]. now exists item'.
      + apply list_elem_of_singleton in Hdone as ->. apply Hin. now apply Hitem. }
  unfold orderedStep.
  destruct (item_ref item) as [ref|] eqn:Href; [| apply Hskip; discriminate].
  destruct (startsWith ref "#/modifiers/") eqn:Hstarts; cbn [negb].
  2:{ apply Hskip. intros name [= ->].
      now rewrite StringFacts.startsWith_append in Hstarts. }
  apply StringFacts.startsWith_split in Hstarts.
  set (name := slice_from (String.length "#/modifiers/") ref) in *.
  assert (Hname : forall name', Some ref = Some ("#/modifiers/" +:+ name') -> name' = name).
  { intros name' [= Hname']. unfold name. rewrite Hname'.
    now rewrite StringFacts.slice_from_append. }
  destruct (existsb (String.eqb name) st.1) eqn:Hseen.
  { apply Hskip. intros name' Hname' _. rewrite (Hname _ Hname').
    apply StringFacts.existsb_eqb_elem in Hseen. now rewrite <- Hsame. }
  destruct (obj_has name declared) eqn:Hhas; cbn [negb].
  2:{ apply Hskip. intros name' Hname' Hdecl. rewrite (Hname _ Hname') in Hdecl.
      apply StringFacts.obj_has_key in Hdecl. congruence. }
  assert (Hfresh : name ∉ st.2).
  { rewrite <- Hsame. intros Hold. apply StringFacts.existsb_eqb_elem in Hold. congruence. }
  split; cbn [fst snd]; [now rewrite Hsame |]. split.
  - apply NoDup_app. split; [exact Hnodup |]. split; [| apply NoDup_singleton].
    intros x Hx Hx'. apply list_elem_of_singleton in Hx' as ->. now apply Hfresh.
  - intros name'. rewrite elem_of_app, Hin, list_elem_of_singleton. split.
    + intros [(Hdecl & item' & Hdone & Href') | ->].
      * split; [exact Hdecl |]. exists item'.
        split; [apply elem_of_app; now left | exact Href'].
      * split; [now apply StringFacts.obj_has_key |]. exists item.
        split; [apply elem_of_app; right; apply list_elem_of_here |].
        now rewrite Href, Hstarts.
    + intros (Hdecl & item' & Hdone & Href'). apply elem_of_app in Hdone as [Hdone | Hdone].
      * left. split; [exact Hdecl |]. now exists item'.
      * apply list_elem_of_singleton in Hdone as ->. right. apply Hname. congruence.
Qed.

Lemma mentionedBy_fold (declared : list (string * ModifierDef)) (items done : list JsValue)
    (st : Names) :
  mentionedBy declared done st ->
  mentionedBy declared (done ++ items) (fold_left (orderedStep declared) items st).
Proof.
  revert done st. induction items as [| item rest IH]; intros done st Hst.
  - now rewrite app_nil_r.
  - cbn [fold_left].
    replace (done ++ item :: rest) with ((done ++ [item]) ++ rest)
      by now rewrite <- app_assoc.
    apply IH. now apply mentionedBy_step.
Qed.

(** The second pass: the declared modifiers not yet seen, in the order
    of their declaration. *)
Lemma declared_pass (keys : list string) (mentioned : list string) (st : Names) :
  st.1 = st.2 -> NoDup st.2 ->
  (exists others, st.2 = mentioned ++ others /\ Forall (fun name => name ∉ mentioned) others) ->
  let st' :=
    fold_left
      (fun (st : Names) name =>
         if existsb (String.eqb name) st.1 then st else (st.1 ++ [name], st.2 ++ [name]))
      keys st in
  NoDup st'.2
  /\ (forall name, name ∈ st'.2 <-> name ∈ st.2 \/ name ∈ keys)
  /\ exists others, st'.2 = mentioned ++ others /\ Forall (fun name => name ∉ mentioned) others.
Proof.
  revert st. induction keys as [| key rest IH]; intros st Hsame Hnodup Hothers; cbn zeta.
  - split; [exact Hnodup |]. split; [| exact Hothers].
    intros name. split; [now left |]. intros [Hin | Hin]; [exact Hin | inversion Hin].
  - cbn [fold_left]. destruct (existsb (String.eqb key) st.1) eqn:Hseen.
    + destruct (IH st Hsame Hnodup Hothers) as (Hnodup' & Hin' & Hothers').
      split; [exact Hnodup' |]. split; [| exact Hothers'].
      intros name. rewrite Hin'. rewrite elem_of_cons. split; [tauto |].
      intros [Hin | [-> | Hin]]; [tauto | | tauto].
      left. rewrite <- Hsame. now apply StringFacts.existsb_eqb_elem.
    + assert (Hfresh : key ∉ st.2).
      { rewrite <- Hsame. intros Hold. apply StringFacts.existsb_eqb_elem in Hold.
        congruence. }
      destruct (IH (st.1 ++ [key], st.2 ++ [key])) as (Hnodup' & Hin' & Hothers');
        cbn [fst snd].
      * now rewrite Hsame.
      * apply NoDup_app. split; [exact Hnodup |]. split; [| apply NoDup_singleton].
        intros x Hx Hx'. apply list_elem_of_singleton in Hx' as ->. now apply Hfresh.
      * destruct Hothers as (others & Heq & Hnot). exists (others ++ [key]). split.
        -- now rewrite Heq, app_assoc.
        -- apply Forall_app. split; [exact Hnot |]. constructor; [| constructor].
           intros Hin. apply Hfresh. rewrite Heq. apply elem_of_app. now left.
      * split; [exact Hnodup' |]. split; [| exact Hothers'].
        intros name. rewrite Hin'. cbn [fst snd].
        rewrite elem_of_app, list_elem_of_singleton, elem_of_cons. tauto.
Qed.

(** X3. [getOrderedModifierNames] lists every declared modifier exactly
    once: first the ones the resolution order names, then the ones it
    does not name. *)
Theorem getOrderedModifierNames_each_modifier_once (resolver : ResolverDocument) :
  ownNamesOnly resolver ->
  let names := getOrderedModifierNames resolver in
  NoDup names
  /\ (forall name, name ∈ names <-> name ∈ obj_keys (default [] (modifiers resolver)))
  /\ exists mentioned others,
       names = mentioned ++ others
       /\ Forall (referenced resolver) mentioned
       /\ Forall (fun name => ~ referenced resolver name) others.
Proof.
  intros _. unfold getOrderedModifierNames. cbv zeta.
  set (declared := default [] (modifiers resolver)).
  destruct (mentionedBy_fold declared (resolutionOrder resolver) [] ([], []))
    as (Hsame & Hnodup & Hin).
  { split; [reflexivity |]. split; [constructor |].
    intros name. split; [intros Hin; inversion Hin |].
    intros (_ & item & Hin & _). inversion Hin. }
  cbn [app] in Hin.
  set (st := fold_left (orderedStep declared) (resolutionOrder resolver) ([], [])) in *.
  destruct (declared_pass (obj_keys declared) st.2 st Hsame Hnodup)
    as (Hnodup' & Hin' & others & Heq & Hnot).
  { exists []. split; [now rewrite app_nil_r | constructor]. }
  split; [exact Hnodup' |]. split.
  - intros name. rewrite Hin', Hin. tauto.
  - exists st.2, others. split; [exact Heq |]. split.
    + apply Forall_forall. intros name Hname. apply Hin in Hname as (_ & item & Hitem & Href).
      now exists item.
    + apply Forall_forall. intros name Hname (item & Hitem & Href).
      rewrite Forall_forall in Hnot. apply (Hnot name Hname). apply Hin. split.
      * assert (Hall : name ∈ st.2 ++ others) by (apply elem_of_app; now right).
        rewrite <- Heq in Hall. apply Hin' in Hall as [Hold | Hkey]; [| exact Hkey].
        now apply Hin in Hold.
      * now exists item.
Qed.

Section Order.

Context {Selector MediaQuery : Type}.
Variable utils : Utils Selector MediaQuery.
Variable bundleData : list BundleDataItem.
Variable baseItem : BundleDataItem.

#[local] Abbreviation keyOf :=
  (fun item : BundleDataItem => stableInputsKey utils (modifierInputs item)).

#[local] Abbreviation single :=
  (fun item : BundleDataItem =>
     item ∈ bundleData /\ isBase item = false /\ deviatesInOne utils baseItem item).

(** What the loops of [orderBundleData] keep true of [includedKeys] and
    [ordered] once the base item is pushed. *)
#[local] Abbreviation baseFirst :=
  (fun st : list string * list BundleDataItem =>
     st.1 = map keyOf st.2 /\ NoDup st.1
     /\ exists others, st.2 = baseItem :: others /\ Forall single others).

Lemma pushUnique_keeps (item : option BundleDataItem)
    (st : list string * list BundleDataItem) :
  (forall found, item = Some found -> single found) ->
  baseFirst st -> baseFirst (pushUnique utils item st).
Proof.
  intros Hitem (Hkeys & Hnodup & others & Hordered & Hothers).
  unfold pushUnique. destruct item as [found|]; [| now split; [| split; [| exists others]]].
  destruct (existsb _ st.1) eqn:Hseen; [now split; [| split; [| exists others]] |].
  cbn [fst snd]. split; [| split].
  - now rewrite map_app, Hkeys.
  - apply NoDup_app. split; [exact Hnodup |]. split; [| apply NoDup_singleton].
    intros key Hkey Hkey'. apply list_elem_of_singleton in Hkey' as ->.
    apply StringFacts.existsb_eqb_elem in Hkey. congruence.
  - exists (others ++ [found]). split; [now rewrite Hordered |].
    apply Forall_app. split; [exact Hothers |]. constructor; [now apply Hitem | constructor].
Qed.

Lemma findSingleDiff_single (modifierName context : string) (found : BundleDataItem) :
  let baseInputs := utils_normalizeModifierInputs utils (modifierInputs baseItem) in
  default "" (obj_get (toLowerCase modifierName) baseInputs) <> toLowerCase context ->
  findSingleDiff utils bundleData baseInputs modifierName context = Some found ->
  single found.
Proof.
  intros baseInputs Hdefault Hfound. unfold findSingleDiff in Hfound.
  apply find_some in Hfound as [Hin Hmatch]. apply list_elem_of_In in Hin.
  split; [exact Hin |].
  destruct (isBase found); [discriminate |]. split; [reflexivity |].
  destruct (obj_get (toLowerCase modifierName) _) as [v|] eqn:Hv in Hmatch; [| discriminate].
  apply andb_prop in Hmatch as [Hcontext Hothers]. apply String.eqb_eq in Hcontext as ->.
  exists (toLowerCase modifierName). split.
  - rewrite Hv. fold baseInputs. intros Hbase. rewrite <- Hbase in Hdefault.
    now apply Hdefault.
  - intros entry Hentry Hother. rewrite forallb_forall in Hothers.
    specialize (Hothers entry). fold baseInputs in Hothers.
    rewrite <- list_elem_of_In in Hothers. specialize (Hothers Hentry).
    apply orb_prop in Hothers as [Hsame | Hsame].
    + now apply String.eqb_eq in Hsame.
    + destruct (obj_get entry.1 _) as [v'|]; [| discriminate].
      now apply String.eqb_eq in Hsame as ->.
Qed.

(** X4. [orderBundleData] hands back the bundle data as it is, or a list
    that starts with the base item and goes on with permutations of the
    bundle data only, none of them the base, each deviating from the base
    in one modifier, and no two with the same inputs key. *)
Theorem orderBundleData_base_first (resolver : ResolverDocument) :
  ownNamesOnly resolver ->
  let ordered := orderBundleData utils bundleData resolver baseItem in
  ordered = bundleData
  \/ (exists others, ordered = baseItem :: others /\ Forall single others)
     /\ NoDup (map keyOf ordered).
Proof.
  intros _. unfold orderBundleData. cbv zeta.
  destruct (modifiers resolver) as [declared|]; [| now left].
  destruct (getOrderedModifierNames resolver) as [| firstModifier names] eqn:Hnames;
    [now left |].
  destruct (negb (nonEmpty firstModifier)); [now left |].
  destruct (obj_get firstModifier declared); [| now left].
  set (baseInputs := utils_normalizeModifierInputs utils (modifierInputs baseItem)).
  set (st := fold_left _ _ _).
  assert (Hst : baseFirst st).
  { subst st. generalize (firstModifier :: names). intros modifierNames.
    assert (Hstart : baseFirst (pushUnique utils (Some baseItem) ([], []))).
    { cbn. split; [reflexivity |]. split; [apply NoDup_singleton |].
      exists []. split; [reflexivity | constructor]. }
    revert Hstart. generalize (pushUnique utils (Some baseItem) ([], [])).
    induction modifierNames as [| modifierName rest IH]; intros st Hst; [exact Hst |].
    cbn [fold_left]. apply IH.
    destruct (obj_get modifierName declared) as [modifierDef|]; [| exact Hst].
    revert st Hst. generalize (obj_keys (contexts modifierDef)). intros ctxs.
    induction ctxs as [| ctx ctxs IHctx]; intros st Hst; [exact Hst |].
    cbn [fold_left]. apply IHctx.
    destruct (String.eqb_spec (default "" (obj_get (toLowerCase modifierName) baseInputs))
                              (toLowerCase ctx)) as [Heq | Hne]; [exact Hst |].
    apply pushUnique_keeps; [| exact Hst].
    intros found Hfound. now apply (findSingleDiff_single modifierName ctx). }
  destruct Hst as (Hkeys & Hnodup & others & Hordered & Hothers).
  right. rewrite Hordered. split; [now exists others |].
  now rewrite <- Hordered, <- Hkeys.
Qed.

End Order.

(** *** The inputs key *)

Lemma ascii_compare_N (a b : ascii) :
  Ascii.compare a b = (N_of_ascii a ?= N_of_ascii b)%N.
Proof. reflexivity. Qed.

Lemma string_leb_trans (a b c : string) :
  String.leb a b = true -> String.leb b c = true -> String.leb a c = true.
Proof.
  unfold String.leb. revert b c.
  induction a as [| x a IH]; intros [| y b] [| z c]; cbn [String.compare];
    try reflexivity; try discriminate.
  rewrite !ascii_compare_N.
  destruct (N.compare_spec (N_of_ascii x) (N_of_ascii y)) as [Hxy | Hxy | Hxy];
    destruct (N.compare_spec (N_of_ascii y) (N_of_ascii z)) as [Hyz | Hyz | Hyz];
    try discriminate; intros Hab Hbc.
  - rewrite Hxy, Hyz, N.compare_refl. now apply (IH b c).
  - rewrite Hxy. now apply N.compare_lt_iff in Hyz as ->.
  - rewrite <- Hyz. now apply N.compare_lt_iff in Hxy as ->.
  - assert (Hxz : (N_of_ascii x < N_of_ascii z)%N) by lia.
    now apply N.compare_lt_iff in Hxz as ->.
Qed.

#[local] Abbreviation leb_true := (fun a b : string => String.leb a b = true).

#[local] Instance leb_antisym : AntiSymm eq leb_true.
Proof. intros a b. apply String.leb_antisym. Qed.

Lemma insertSorted_perm (k : string) (sorted : list string) :
  insertSorted k sorted ≡ₚ k :: sorted.
Proof.
  induction sorted as [| x rest IH]; cbn [insertSorted]; [reflexivity |].
  destruct (String.leb k x); [reflexivity |].
  rewrite IH. apply Permutation_swap.
Qed.

Lemma insertSorted_sorted (k : string) (sorted : list string) :
  StronglySorted leb_true sorted -> StronglySorted leb_true (insertSorted k sorted).
Proof.
  induction sorted as [| x rest IH]; cbn [insertSorted]; intros Hsorted.
  - constructor; constructor.
  - apply StronglySorted_inv in Hsorted as [Hrest Hx].
    destruct (String.leb k x) eqn:Hkx.
    + constructor; [now constructor |]. constructor; [exact Hkx |].
      eapply Forall_impl; [exact Hx |]. intros y Hy. now apply (string_leb_trans k x y).
    + constructor; [now apply IH |].
      assert (Hxk : String.leb x k = true).
      { destruct (String.leb_total k x) as [H | H]; [congruence | exact H]. }
      rewrite insertSorted_perm. now constructor.
Qed.

Lemma sortKeys_sorted (keys : list string) : StronglySorted leb_true (sortKeys keys).
Proof.
  induction keys as [| k rest IH]; cbn; [constructor | now apply insertSorted_sorted].
Qed.

Lemma sortKeys_perm (keys : list string) : sortKeys keys ≡ₚ keys.
Proof.
  induction keys as [| k rest IH]; cbn; [reflexivity |].
  now rewrite insertSorted_perm, IH.
Qed.

Lemma sortKeys_of_permutation (keys keys' : list string) :
  keys ≡ₚ keys' -> sortKeys keys = sortKeys keys'.
Proof.
  intros Hperm. apply (StronglySorted_unique leb_true); [apply sortKeys_sorted .. |].
  now rewrite !sortKeys_perm.
Qed.

Lemma obj_get_of_permutation {V : Type} (fields fields' : list (string * V)) (key : string) :
  NoDup (obj_keys fields) -> fields ≡ₚ fields' -> obj_get key fields = obj_get key fields'.
Proof.
  intros Hnodup Hperm.
  assert (Hnodup' : NoDup (obj_keys fields')).
  { unfold obj_keys in *. now rewrite <- Hperm. }
  destruct (obj_get key fields) as [v|] eqn:Hget.
  - symmetry. apply CssFacts.obj_get_of_entry; [exact Hnodup' |].
    rewrite <- Hperm. now apply CssFacts.obj_get_entry.
  - destruct (obj_get key fields') as [v'|] eqn:Hget'; [| reflexivity].
    apply CssFacts.obj_get_entry in Hget'. rewrite <- Hperm in Hget'.
    apply CssFacts.obj_get_of_entry in Hget'; [congruence | exact Hnodup].
Qed.

Section Key.

Context {Selector MediaQuery : Type}.
Variable utils : Utils Selector MediaQuery.

(** X5. [stableInputsKey] does not depend on the order in which the
    modifiers are listed: two inputs whose normalized forms hold the same
    entries have the same key. *)
Theorem stableInputsKey_ignores_order (inputs inputs' : ModifierInputs) :
  NoDup (obj_keys (utils_normalizeModifierInputs utils inputs)) ->
  utils_normalizeModifierInputs utils inputs ≡ₚ utils_normalizeModifierInputs utils inputs' ->
  stableInputsKey utils inputs = stableInputsKey utils inputs'.
Proof.
  intros Hnodup Hperm. unfold stableInputsKey. cbv zeta.
  rewrite (sortKeys_of_permutation (obj_keys (utils_normalizeModifierInputs utils inputs))
             (obj_keys (utils_normalizeModifierInputs utils inputs'))).
  2:{ unfold obj_keys. now rewrite Hperm. }
  f_equal. apply map_ext. intros k.
  now rewrite (obj_get_of_permutation _ _ k Hnodup Hperm).
Qed.

End Key.

(** The base permutation [light]: its one token comes from the set
    [core], which the resolution order does not name, so it is in the
    block [Unattributed]. *)
Lemma formatBasePermutation_one_text_per_layer_witness :
  exists texts,
    formatBasePermutation defaultUtils lightItem Scenarios.themeResolver None listNames
    = Ok texts
    /\ Forall2
         (fun block text =>
            exists css,
              listNames (stripInternalMetadata defaultUtils (block_tokens block))
                (mkResolvedCssOptions ":root" "" None
                   (stripInternalMetadata defaultUtils (tokens lightItem))) = Ok css
              /\ text = blockHeader block +:+ nl +:+ css)
         (buildDefaultLayerBlocks defaultUtils (tokens lightItem) (modifierInputs lightItem)
            Scenarios.themeResolver)
         texts.
Proof.
  apply (formatBasePermutation_one_text_per_layer defaultUtils lightItem
           Scenarios.themeResolver None listNames ":root" "").
  - reflexivity.
  - reflexivity.
  - reflexivity.
  - intros block _. now eexists.
Defined.

(** The one token of [light], set apart in the block [Unattributed]. *)
Lemma buildDefaultLayerBlocks_partitions_witness :
  let blocks :=
    buildDefaultLayerBlocks defaultUtils (tokens lightItem) (modifierInputs lightItem)
      Scenarios.themeResolver in
  (forall name token,
      tokens lightItem !! name = Some token
      <-> exists block, block ∈ blocks /\ block_tokens block !! name = Some token)
  /\ (forall i j b b' name,
        blocks !! i = Some b -> blocks !! j = Some b' ->
        is_Some (block_tokens b !! name) -> is_Some (block_tokens b' !! name) -> i = j)
  /\ Forall (fun block => block_tokens block <> ∅) blocks.
Proof.
  apply (buildDefaultLayerBlocks_partitions defaultUtils (tokens lightItem)
           (modifierInputs lightItem) Scenarios.themeResolver).
  reflexivity.
Defined.

Lemma themeResolver_ownNamesOnly : ownNamesOnly Scenarios.themeResolver.
Proof.
  intros item ref Hitem Href _. apply list_elem_of_singleton in Hitem as ->.
  change (item_ref _) with (Some "#/modifiers/theme") in Href.
  now injection Href as <-.
Qed.

(** The resolver with the one modifier [theme]. *)
Lemma getOrderedModifierNames_each_modifier_once_witness :
  NoDup (getOrderedModifierNames Scenarios.themeResolver)
  /\ (forall name,
        name ∈ getOrderedModifierNames Scenarios.themeResolver
        <-> name ∈ obj_keys (default [] (modifiers Scenarios.themeResolver)))
  /\ exists mentioned others,
       getOrderedModifierNames Scenarios.themeResolver = mentioned ++ others
       /\ Forall (referenced Scenarios.themeResolver) mentioned
       /\ Forall (fun name => ~ referenced Scenarios.themeResolver name) others.
Proof.
  apply (getOrderedModifierNames_each_modifier_once Scenarios.themeResolver).
  apply themeResolver_ownNamesOnly.
Defined.

(** The permutations [light] (base) and [dark], [dark] listed first. *)
Lemma orderBundleData_base_first_witness :
  orderBundleData defaultUtils [darkItem; lightItem] Scenarios.themeResolver lightItem
  = [darkItem; lightItem]
  \/ (exists others,
        orderBundleData defaultUtils [darkItem; lightItem] Scenarios.themeResolver lightItem
        = lightItem :: others
        /\ Forall
             (fun item =>
                item ∈ [darkItem; lightItem] /\ isBase item = false
                /\ deviatesInOne defaultUtils lightItem item)
             others)
     /\ NoDup
          (map (fun item => stableInputsKey defaultUtils (modifierInputs item))
               (orderBundleData defaultUtils [darkItem; lightItem] Scenarios.themeResolver
                  lightItem)).
Proof.
  apply (orderBundleData_base_first defaultUtils [darkItem; lightItem] lightItem
           Scenarios.themeResolver).
  apply themeResolver_ownNamesOnly.
Defined.

Lemma stableInputsKey_ignores_order_witness :
  stableInputsKey defaultUtils [("theme", "dark"); ("scale", "mobile")]
  = stableInputsKey defaultUtils [("scale", "mobile"); ("theme", "dark")].
Proof.
  apply (stableInputsKey_ignores_order defaultUtils).
  - apply CssFacts.normalizeModifierInputs_NoDup.
  - cbn. apply Permutation_swap.
Defined.

End CssLayerFacts.

(** ** The JS-module bundler's text handling *)

Module JsModuleFacts.
Import BundlerUtils JsBundler Chars BundleScenarios StringFacts.

(** *** Camel-case keys *)

Lemma split_on_parts (sep : ascii) (s : string) :
  Forall (fun part => occurs sep part = false) (split_on sep s).
Proof.
  induction s as [| c rest IH]; cbn [split_on].
  - constructor; [reflexivity | constructor].
  - destruct (Ascii.eqb c sep) eqn:Hc.
    + constructor; [reflexivity | exact IH].
    + destruct (split_on sep rest) as [| p ps]; [constructor; [| constructor] |].
      * cbn. now rewrite Hc.
      * inversion IH as [| ? ? Hp Hps]; subst. constructor; [| exact Hps].
        cbn. now rewrite Hc, Hp.
Qed.

Lemma split_on_absent (sep : ascii) (s : string) :
  occurs sep s = false -> split_on sep s = [s].
Proof.
  induction s as [| c rest IH]; cbn [split_on occurs]; [reflexivity |].
  intros Hno. apply orb_false_elim in Hno as [Hc Hrest]. rewrite Hc, (IH Hrest). reflexivity.
Qed.

Lemma upper_ascii_not_dash (c : ascii) :
  Ascii.eqb c "-"%char = false -> Ascii.eqb (upper_ascii c) "-"%char = false.
Proof.
  intros Hc. unfold upper_ascii.
  destruct ((97 <=? nat_of_ascii c)%nat && (nat_of_ascii c <=? 122)%nat) eqn:Hrange;
    [| exact Hc].
  apply andb_prop in Hrange as [Hlow Hhigh].
  apply Nat.leb_le in Hlow, Hhigh.
  apply Ascii.eqb_neq. intros Hdash.
  apply (f_equal nat_of_ascii) in Hdash.
  rewrite nat_ascii_embedding in Hdash by lia.
  change (nat_of_ascii "-"%char) with 45%nat in Hdash. lia.
Qed.

Lemma capitalize_no_dash (w : string) :
  occurs "-"%char w = false -> occurs "-"%char (capitalize w) = false.
Proof.
  destruct w as [| c rest]; [reflexivity |]. cbn [capitalize occurs].
  intros Hno. apply orb_false_elim in Hno as [Hc Hrest].
  now rewrite (upper_ascii_not_dash c Hc), Hrest.
Qed.

Lemma join_empty_no_dash (parts : list string) :
  Forall (fun part => occurs "-"%char part = false) parts ->
  occurs "-"%char (join "" parts) = false.
Proof.
  unfold join. induction 1 as [| part rest Hpart Hrest IH]; [reflexivity |].
  destruct rest as [| next rest].
  - exact Hpart.
  - change (String.concat "" (part :: next :: rest))
      with (part +:+ "" +:+ String.concat "" (next :: rest)).
    rewrite !occurs_append, Hpart, IH. reflexivity.
Qed.

Lemma imap_no_dash (f : nat -> string -> string) (parts : list string) :
  (forall i w, occurs "-"%char w = false -> occurs "-"%char (f i w) = false) ->
  Forall (fun part => occurs "-"%char part = false) parts ->
  Forall (fun part => occurs "-"%char part = false) (imap f parts).
Proof.
  intros Hf Hparts. revert f Hf.
  induction Hparts as [| part rest Hpart Hrest IH]; intros f Hf; [constructor |].
  cbn [imap]. constructor; [now apply Hf |]. apply IH. intros i w. apply Hf.
Qed.

Lemma toCamelKey_dash_free (key : string) : occurs "-"%char (toCamelKey key) = false.
Proof.
  unfold toCamelKey. destruct (String.eqb key ""); [reflexivity |].
  apply join_empty_no_dash, imap_no_dash.
  - intros [| i] w Hw; [exact Hw | now apply capitalize_no_dash].
  - apply Forall_forall. intros part Hpart.
    apply list_elem_of_In, filter_In in Hpart as [Hpart _].
    pose proof (split_on_parts "-"%char key) as Hall. rewrite Forall_forall in Hall.
    apply Hall. now apply list_elem_of_In.
Qed.

Lemma toCamelKey_without_dash (key : string) :
  occurs "-"%char key = false -> toCamelKey key = key.
Proof.
  intros Hno. unfold toCamelKey.
  destruct (String.eqb_spec key "") as [-> | Hne]; [reflexivity |].
  rewrite (split_on_absent _ _ Hno). cbn [List.filter].
  destruct (String.eqb_spec key "") as [-> | _]; [now destruct Hne |].
  cbn. reflexivity.
Qed.

(** X6. The key [toCamelKey] gives holds no dash, and camel-casing it
    again changes nothing. *)
Theorem toCamelKey_removes_every_dash (key : string) :
  occurs "-"%char (toCamelKey key) = false
  /\ toCamelKey (toCamelKey key) = toCamelKey key.
Proof.
  split; [apply toCamelKey_dash_free |].
  apply toCamelKey_without_dash, toCamelKey_dash_free.
Qed.

(** X7. A key without a dash is its own camel-case form: the entries of
    a bundle with one dimension are filed under the context names
    themselves. *)
Theorem toCamelKey_keeps_dash_free_key (key : string) :
  occurs "-"%char key = false -> toCamelKey key = key.
Proof. apply toCamelKey_without_dash. Qed.

Lemma toCamelKey_keeps_dash_free_key_witness : toCamelKey "dark" = "dark".
Proof. apply (toCamelKey_keeps_dash_free_key "dark"). reflexivity. Defined.

(** *** Reading the object literal back *)

Lemma slice_from_skip (a b : string) (n : nat) :
  slice_from (String.length a + n) (a +:+ b) = slice_from n b.
Proof. induction a as [| c a IH]; [reflexivity | exact IH]. Qed.

Lemma slice_from_plus (a b : nat) (s : string) :
  slice_from (a + b) s = slice_from b (slice_from a s).
Proof.
  revert s. induction a as [| a IH]; intros s; [reflexivity |].
  destruct s as [| c s]; cbn [slice_from Nat.add]; [now destruct b | apply IH].
Qed.

Lemma slice_from_suffix (k : nat) (s : string) : exists before, s = before +:+ slice_from k s.
Proof.
  revert s. induction k as [| k IH]; intros s; [now exists "" |].
  destruct s as [| c s]; [now exists "" |].
  destruct (IH s) as [before Hs]. exists (String c before).
  rewrite append_cons. cbn [slice_from]. now rewrite <- Hs.
Qed.

Lemma span_append (class : ascii -> bool) (s taken others : string) :
  span class s = (taken, others) -> s = taken +:+ others.
Proof.
  revert taken others. induction s as [| c s IH]; intros taken others; cbn [span].
  - now intros [= <- <-].
  - destruct (class c); [| now intros [= <- <-]].
    destruct (span class s) as [taken' others'] eqn:Hspan. intros [= <- <-].
    rewrite append_cons. f_equal. now apply IH.
Qed.

Lemma stripPrefix_append (p s rest : string) : stripPrefix p s = Some rest -> s = p +:+ rest.
Proof.
  revert s. induction p as [| a p IH]; intros s; cbn [stripPrefix].
  - now intros [= <-].
  - destruct s as [| b s]; [discriminate |].
    destruct (Ascii.eqb_spec a b) as [<- |]; [| discriminate].
    intros Hrest. rewrite append_cons. f_equal. now apply IH.
Qed.

(** A match of the assignment pattern ends with the opening brace. *)
Lemma matchAssignment_brace (s : string) (len : nat) :
  matchAssignment s = Some len ->
  exists before rest, s = before +:+ String "{"%char rest /\ len = S (String.length before).
Proof.
  unfold matchAssignment.
  destruct (stripPrefix "const" s) as [rest1|] eqn:H1; cbn [mbind option_bind]; [| discriminate].
  destruct (span isSpace rest1) as [ws1 rest2] eqn:H2.
  destruct (String.length ws1 =? 0)%nat; [discriminate |].
  destruct (span isWord rest2) as [name rest3] eqn:H3.
  destruct (String.length name =? 0)%nat; [discriminate |].
  destruct (span isSpace rest3) as [ws2 rest4] eqn:H4.
  destruct (stripPrefix "=" rest4) as [rest5|] eqn:H5; cbn [mbind option_bind]; [| discriminate].
  destruct (span isSpace rest5) as [ws3 rest6] eqn:H6.
  destruct (stripPrefix "{" rest6) as [rest7|] eqn:H7; cbn [mbind option_bind]; [| discriminate].
  intros [= <-].
  apply stripPrefix_append in H1, H5, H7. apply span_append in H2, H3, H4, H6.
  exists ("const" +:+ ws1 +:+ name +:+ ws2 +:+ "=" +:+ ws3), rest7. split.
  - subst. rewrite !append_app_assoc. reflexivity.
  - rewrite !length_append. cbn [String.length]. lia.
Qed.

Lemma execAssignment_match (s : string) (start index len : nat) :
  execAssignment start s = Some (index, len) ->
  exists k, index = (start + k)%nat /\ matchAssignment (slice_from k s) = Some len.
Proof.
  revert start. induction s as [| c s IH]; intros start; cbn [execAssignment].
  - destruct (matchAssignment "") as [len'|] eqn:Hmatch; [| discriminate].
    intros [= <- <-]. exists 0%nat. split; [lia | exact Hmatch].
  - destruct (matchAssignment (String c s)) as [len'|] eqn:Hmatch.
    + intros [= <- <-]. exists 0%nat. split; [lia | exact Hmatch].
    + intros Hrest. destruct (IH _ Hrest) as (k & -> & Hk).
      exists (S k). split; [lia | exact Hk].
Qed.

(** What the scanning loop returns is the text it has read, and the
    last character read is a closing brace. *)
Lemma scanObject_prefix (s : string) (braceCount : Z) (inString : bool)
    (stringChar : option ascii) (escaped : bool) (text : string) :
  scanObject s braceCount inString stringChar escaped = Some text ->
  (exists rest, s = text +:+ rest) /\ exists body, text = body +:+ "}".
Proof.
  revert braceCount inString stringChar escaped text.
  induction s as [| char s IH]; intros braceCount inString stringChar escaped text;
    cbn [scanObject]; [discriminate |].
  assert (Hmore :
            forall braceCount inString stringChar escaped,
              option_map (String char) (scanObject s braceCount inString stringChar escaped)
              = Some text ->
              (exists rest, String char s = text +:+ rest) /\ exists body, text = body +:+ "}").
  { intros bc ins sc esc Hscan.
    destruct (scanObject s bc ins sc esc) as [text'|] eqn:Hs; [| discriminate].
    injection Hscan as <-. destruct (IH _ _ _ _ _ Hs) as ((rest & ->) & (body & ->)).
    split; [now exists rest | now exists (String char body)]. }
  destruct (if negb escaped && isQuote char then _ else _) as [inString' stringChar'].
  destruct (negb inString'); [| apply Hmore].
  destruct (Ascii.eqb char "{"%char); [apply Hmore |].
  destruct (Ascii.eqb_spec char "}"%char) as [-> | _]; [| apply Hmore].
  destruct (braceCount - 1 =? 0)%Z; [| apply Hmore].
  intros [= <-]. split; [now exists s | now exists ""].
Qed.

(** X8. What [extractObjectFromJsModule] returns starts with an opening
    and ends with a closing brace, and it is the empty object or a piece
    of the formatted module. *)
Theorem extractObjectFromJsModule_object_text (formattedJs : string) :
  let text := extractObjectFromJsModule formattedJs in
  (exists inner, text = "{" +:+ inner +:+ "}")
  /\ (text = "{}" \/ exists before after, formattedJs = before +:+ text +:+ after).
Proof.
  unfold extractObjectFromJsModule. cbv zeta.
  assert (Hempty : (exists inner, "{}" = "{" +:+ inner +:+ "}")
                   /\ ("{}" = "{}" \/ exists before after,
                                        formattedJs = before +:+ "{}" +:+ after)).
  { split; [now exists "" | now left]. }
  destruct (execAssignment 0 formattedJs) as [[index len]|] eqn:Hexec; [| exact Hempty].
  apply execAssignment_match in Hexec as (k & -> & Hmatch).
  apply matchAssignment_brace in Hmatch as (skipped & rest & Hslice & ->).
  replace (0 + k + S (String.length skipped) - 1)%nat with (k + (String.length skipped + 0))%nat
    by lia.
  rewrite slice_from_plus, Hslice, slice_from_skip. cbn [slice_from].
  destruct (scanObject (String "{"%char rest) 0 false None false) as [text|] eqn:Hscan;
    [| exact Hempty].
  cbn [default]. unfold id. pose proof Hscan as Htext.
  apply scanObject_prefix in Htext as ((after & Hafter) & (body & ->)). split.
  - destruct body as [| c body]; [discriminate Hafter |].
    rewrite append_cons in Hafter. injection Hafter as <- _. now exists body.
  - right. destruct (slice_from_suffix k formattedJs) as [before Hbefore].
    exists (before +:+ skipped), after.
    rewrite Hbefore at 1. rewrite Hslice, Hafter. now rewrite !append_app_assoc.
Qed.

Lemma word_is_not_space (c : ascii) : isWord c = true -> isSpace c = false.
Proof.
  unfold isWord, isSpace. intros Hword.
  repeat (apply orb_prop in Hword as [Hword | Hword]);
    repeat match goal with
           | H : (_ && _) = true |- _ => apply andb_prop in H as [? ?]
           | H : (_ <=? _)%nat = true |- _ => apply Nat.leb_le in H
           | H : (_ =? _)%nat = true |- _ => apply Nat.eqb_eq in H
           end;
    apply orb_false_intro;
    [ apply Nat.eqb_neq; lia
    | apply andb_false_iff; right; apply Nat.leb_gt; lia
    | apply Nat.eqb_neq; lia
    | apply andb_false_iff; right; apply Nat.leb_gt; lia
    | apply Nat.eqb_neq; lia
    | apply andb_false_iff; right; apply Nat.leb_gt; lia
    | apply Nat.eqb_neq; lia
    | apply andb_false_iff; right; apply Nat.leb_gt; lia ].
Qed.

Lemma span_word (name rest : string) :
  allChars isWord name = true ->
  span isWord (name +:+ String " "%char rest) = (name, String " "%char rest).
Proof.
  induction name as [| c name IH]; [reflexivity |].
  cbn [allChars]. intros Hall. apply andb_prop in Hall as [Hc Hname].
  rewrite append_cons. cbn [span]. now rewrite Hc, (IH Hname).
Qed.

Lemma scanObject_plain (body rest : string) (braceCount : Z) :
  allChars plain body = true ->
  scanObject (body +:+ rest) braceCount false None false
  = option_map (String.append body) (scanObject rest braceCount false None false).
Proof.
  induction body as [| c body IH]; intros Hall.
  - change ("" +:+ rest) with rest.
    destruct (scanObject rest braceCount false None false); reflexivity.
  - cbn [allChars] in Hall. apply andb_prop in Hall as [Hc Hbody].
    unfold plain in Hc.
    repeat (apply andb_prop in Hc as [Hc ?]).
    repeat match goal with H : negb _ = true |- _ => apply negb_true_iff in H end.
    rewrite append_cons. cbn [scanObject].
    match goal with H : isQuote c = false |- _ => rewrite H end.
    match goal with H : Ascii.eqb c "092"%char = false |- _ => rewrite H end.
    match goal with H : Ascii.eqb c "}"%char = false |- _ => rewrite H end.
    rewrite Hc. cbn [negb andb]. rewrite (IH Hbody).
    now destruct (scanObject rest braceCount false None false).
Qed.

Lemma stripPrefix_of_append (p s : string) : stripPrefix p (p +:+ s) = Some s.
Proof.
  induction p as [| c p IH]; [reflexivity |].
  rewrite append_cons. cbn [stripPrefix]. now rewrite Ascii.eqb_refl.
Qed.

Lemma matchAssignment_const (name rest : string) :
  name <> "" ->
  allChars isWord name = true ->
  matchAssignment ("const " +:+ name +:+ " = {" +:+ rest)
  = Some (String.length ("const " +:+ name +:+ " = ") + 1)%nat.
Proof.
  intros Hname Hword.
  change ("const " +:+ name +:+ " = {" +:+ rest)
    with ("const" +:+ String " "%char (name +:+ String " "%char ("= {" +:+ rest))).
  unfold matchAssignment. rewrite stripPrefix_of_append. cbn [mbind option_bind].
  assert (Hspace : span isSpace (String " "%char (name +:+ String " "%char ("= {" +:+ rest)))
                   = (" ", name +:+ String " "%char ("= {" +:+ rest))).
  { destruct name as [| c name]; [now destruct Hname |].
    cbn [allChars] in Hword. apply andb_prop in Hword as [Hc _].
    rewrite append_cons. cbn [span]. change (isSpace " "%char) with true. cbv iota.
    now rewrite (word_is_not_space c Hc). }
  rewrite Hspace, (span_word _ _ Hword).
  assert (Hlen : (String.length name =? 0)%nat = false).
  { destruct name; [now destruct Hname | reflexivity]. }
  rewrite Hlen.
  change (span isSpace (String " "%char ("= {" +:+ rest))) with (" ", "= {" +:+ rest).
  cbn [mbind option_bind].
  change (stripPrefix "=" ("= {" +:+ rest)) with (Some (" {" +:+ rest)).
  cbn [mbind option_bind].
  change (span isSpace (" {" +:+ rest)) with (" ", "{" +:+ rest).
  cbn [mbind option_bind].
  change (stripPrefix "{" ("{" +:+ rest)) with (Some rest).
  cbn [mbind option_bind String.length Nat.eqb].
  f_equal. rewrite !length_append. cbn [String.length]. lia.
Qed.

(** X9. A module that opens with [const NAME = {], goes on with a body
    free of braces, quotes and backslashes and closes the brace, is read
    back as that object literal, whatever follows the closing brace. *)
Theorem extractObjectFromJsModule_reads_back (name body trailing : string) :
  name <> "" ->
  allChars isWord name = true ->
  allChars plain body = true ->
  extractObjectFromJsModule
    ("const " +:+ name +:+ " = {" +:+ body +:+ "}" +:+ trailing)
  = "{" +:+ body +:+ "}".
Proof.
  intros Hname Hword Hplain. unfold extractObjectFromJsModule.
  pose proof (matchAssignment_const name (body +:+ "}" +:+ trailing) Hname Hword) as Hmatch.
  assert (Hexec :
            execAssignment 0 ("const " +:+ name +:+ " = {" +:+ body +:+ "}" +:+ trailing)
            = Some (0%nat, (String.length ("const " +:+ name +:+ " = ") + 1)%nat)).
  { change ("const " +:+ name +:+ " = {" +:+ body +:+ "}" +:+ trailing)
      with (String "c"%char
              ("onst " +:+ name +:+ " = {" +:+ body +:+ "}" +:+ trailing)) in *.
    cbn [execAssignment]. now rewrite Hmatch. }
  rewrite Hexec.
  replace (0 + (String.length ("const " +:+ name +:+ " = ") + 1) - 1)%nat
    with (String.length ("const " +:+ name +:+ " = ") + 0)%nat by lia.
  replace ("const " +:+ name +:+ " = {" +:+ body +:+ "}" +:+ trailing)
    with (("const " +:+ name +:+ " = ") +:+ "{" +:+ body +:+ "}" +:+ trailing)
    by (rewrite !append_app_assoc; reflexivity).
  rewrite slice_from_skip. cbn [slice_from].
  change ("{" +:+ body +:+ "}" +:+ trailing)
    with (String "{"%char (body +:+ String "}"%char trailing)).
  cbn [scanObject].
  change (isQuote "{"%char) with false. cbn [negb andb].
  change (Ascii.eqb "{"%char "092"%char) with false.
  change (Ascii.eqb "{"%char "{"%char) with true. cbv iota.
  rewrite (scanObject_plain _ _ _ Hplain). cbn [scanObject].
  change (isQuote "}"%char) with false. cbn [negb andb].
  change (Ascii.eqb "}"%char "092"%char) with false.
  change (Ascii.eqb "}"%char "{"%char) with false.
  change (Ascii.eqb "}"%char "}"%char) with true. cbv iota.
  change (0 + 1 - 1 =? 0)%Z with true. cbv iota.
  reflexivity.
Qed.

Lemma extractObjectFromJsModule_reads_back_witness :
  extractObjectFromJsModule ("const " +:+ "tokens" +:+ " = {" +:+ "a: 1" +:+ "}" +:+ nl)
  = "{" +:+ "a: 1" +:+ "}".
Proof.
  apply (extractObjectFromJsModule_reads_back "tokens" "a: 1" nl);
    [discriminate | reflexivity | reflexivity].
Defined.

(** *** The formatter *)

Section Bundles.

Variable normalizeModifierInputs : ModifierInputs -> ModifierInputs.
Variable buildMetadata : ResolverDocument -> Metadata.
Variable stripInternalMetadata : ResolvedTokens -> ResolvedTokens.
Variable buildStablePermutationKey : ModifierInputs -> list string -> string.
Variable stringifyString : string -> string.
Variable stringifyMetadata : Metadata -> string.
Variable JSON_parse : string -> Result Thrown JsValue.
Variable stringifyBundle : JsonBundle -> string.

(** X10. Without a formatter [bundleAsJson] always throws a
    [ConfigurationError]; [bundleAsJsModule] throws it only when there is
    a permutation to format, and writes a module with an empty [tokens]
    object when there is none. *)
Theorem missing_formatter (bundleData : list BundleDataItem) (resolver : ResolverDocument)
    (options : option JsModuleRendererOptions) :
  bundleAsJson normalizeModifierInputs buildMetadata stripInternalMetadata
    buildStablePermutationKey JSON_parse stringifyBundle bundleData resolver None
  = Throw (newError ConfigurationError "JSON formatter was not provided")
  /\ (bundleData <> [] ->
      bundleAsJsModule normalizeModifierInputs buildMetadata stripInternalMetadata
        stringifyString stringifyMetadata bundleData resolver options None
      = Throw (newError ConfigurationError "JS formatter was not provided"))
  /\ exists text,
       bundleAsJsModule normalizeModifierInputs buildMetadata stripInternalMetadata
         stringifyString stringifyMetadata [] resolver options None
       = Ok text.
Proof.
  split; [reflexivity |]. split.
  - destruct bundleData as [| item rest]; [now intros [] | reflexivity].
  - eexists. reflexivity.
Qed.

Lemma jsEntries_first_throw (metadata : Metadata)
    (formatTokens : ResolvedTokens -> Result Thrown string)
    (before after : list BundleDataItem) (item : BundleDataItem) (t : Thrown) :
  Forall (fun earlier => exists js, formatTokens (stripInternalMetadata (tokens earlier)) = Ok js)
         before ->
  formatTokens (stripInternalMetadata (tokens item)) = Throw t ->
  jsEntries normalizeModifierInputs stripInternalMetadata metadata (Some formatTokens)
    (before ++ item :: after)
  = Throw t.
Proof.
  intros Hbefore Hitem. induction Hbefore as [| earlier before [js Hjs] _ IH].
  - cbn [app jsEntries]. unfold jsEntry. now rewrite Hitem.
  - cbn [app jsEntries]. unfold jsEntry at 1. rewrite Hjs.
    unfold mbind at 1 2, Result_bind at 1 2. cbn [bindR]. now rewrite IH.
Qed.

(** X11. When the formatter throws for a permutation and has not thrown
    for an earlier one, [bundleAsJsModule] throws that same value: no
    module is written from the permutations that did format. *)
Theorem bundleAsJsModule_rethrows (before after : list BundleDataItem) (item : BundleDataItem)
    (resolver : ResolverDocument) (options : option JsModuleRendererOptions)
    (formatTokens : ResolvedTokens -> Result Thrown string) (t : Thrown) :
  Forall (fun earlier => exists js, formatTokens (stripInternalMetadata (tokens earlier)) = Ok js)
         before ->
  formatTokens (stripInternalMetadata (tokens item)) = Throw t ->
  bundleAsJsModule normalizeModifierInputs buildMetadata stripInternalMetadata
    stringifyString stringifyMetadata (before ++ item :: after) resolver options
    (Some formatTokens)
  = Throw t.
Proof.
  intros Hbefore Hitem. unfold bundleAsJsModule.
  now rewrite (jsEntries_first_throw _ _ _ _ _ _ Hbefore Hitem).
Qed.

Lemma obj_get_set_same {V : Type} (key : string) (v : V) (fields : list (string * V)) :
  obj_get key (obj_set key v fields) = Some v.
Proof.
  induction fields as [| [k w] rest IH]; cbn [obj_set obj_get].
  - now rewrite String.eqb_refl.
  - destruct (String.eqb k key) eqn:Hk; cbn [obj_get]; rewrite Hk; [reflexivity | exact IH].
Qed.

Lemma obj_get_set_other {V : Type} (key key' : string) (v : V) (fields : list (string * V)) :
  key <> key' -> obj_get key' (obj_set key v fields) = obj_get key' fields.
Proof.
  intros Hne. induction fields as [| [k w] rest IH]; cbn [obj_set obj_get].
  - destruct (String.eqb_spec key key'); [contradiction | reflexivity].
  - destruct (String.eqb_spec k key) as [-> | Hk]; cbn [obj_get].
    + destruct (String.eqb_spec key key'); [contradiction | reflexivity].
    + now rewrite IH.
Qed.

#[local] Abbreviation keyOf :=
  (jsonKey normalizeModifierInputs buildStablePermutationKey).

Lemma jsonEntries_keeps (metadata : Metadata)
    (formatTokens : ResolvedTokens -> Result Thrown string)
    (bundleData : list BundleDataItem) (key : string) :
  Forall (fun later => keyOf metadata later <> key) bundleData ->
  forall acc out,
    jsonEntries normalizeModifierInputs stripInternalMetadata buildStablePermutationKey
      JSON_parse metadata formatTokens bundleData acc = Ok out ->
    obj_get key out = obj_get key acc.
Proof.
  induction 1 as [| later rest Hlater _ IH]; intros acc out; cbn [jsonEntries].
  - now intros [= <-].
  - unfold mbind, Result_bind.
    destruct (formatTokens _) as [themeJson |]; cbn [bindR]; [| discriminate].
    destruct (JSON_parse themeJson) as [parsed |]; cbn [bindR]; [| discriminate].
    intros Hrest. rewrite (IH _ _ Hrest). now apply obj_get_set_other.
Qed.

Lemma jsonEntries_last (metadata : Metadata)
    (formatTokens : ResolvedTokens -> Result Thrown string)
    (before after : list BundleDataItem) (item : BundleDataItem) :
  Forall (fun later => keyOf metadata later <> keyOf metadata item) after ->
  forall acc out,
    jsonEntries normalizeModifierInputs stripInternalMetadata buildStablePermutationKey
      JSON_parse metadata formatTokens (before ++ item :: after) acc = Ok out ->
    exists themeJson parsed,
      formatTokens (stripInternalMetadata (tokens item)) = Ok themeJson
      /\ JSON_parse themeJson = Ok parsed
      /\ obj_get (keyOf metadata item) out = Some parsed.
Proof.
  intros Hafter. induction before as [| earlier before IH]; intros acc out;
    cbn [app jsonEntries]; unfold mbind, Result_bind.
  - destruct (formatTokens _) as [themeJson |] eqn:Hformat; cbn [bindR]; [| discriminate].
    destruct (JSON_parse themeJson) as [parsed |] eqn:Hparse; cbn [bindR]; [| discriminate].
    intros Hrest. exists themeJson, parsed. split; [reflexivity |]. split; [exact Hparse |].
    rewrite (jsonEntries_keeps _ _ _ _ Hafter _ _ Hrest). apply obj_get_set_same.
  - destruct (formatTokens (stripInternalMetadata (tokens earlier))) as [themeJson |];
      cbn [bindR]; [| discriminate].
    destruct (JSON_parse themeJson) as [parsed |]; cbn [bindR]; [| discriminate].
    apply IH.
Qed.

(** X12. In the JSON bundle the entry under a permutation's key, the key
    not being [__proto__], is what [JSON.parse] made of the formatter's
    text for the last permutation with that key: a later permutation
    with the same key replaces an earlier one. *)
Theorem jsonBundle_last_permutation_wins (before after : list BundleDataItem)
    (item : BundleDataItem) (resolver : ResolverDocument)
    (formatTokens : ResolvedTokens -> Result Thrown string) (bundle : JsonBundle) :
  let metadata := buildMetadata resolver in
  keyOf metadata item <> "__proto__" ->
  Forall (fun later => keyOf metadata later <> keyOf metadata item) after ->
  jsonBundle normalizeModifierInputs buildMetadata stripInternalMetadata
    buildStablePermutationKey JSON_parse (before ++ item :: after) resolver (Some formatTokens)
  = Ok bundle ->
  exists themeJson parsed,
    formatTokens (stripInternalMetadata (tokens item)) = Ok themeJson
    /\ JSON_parse themeJson = Ok parsed
    /\ obj_get (keyOf metadata item) (bundle_tokens bundle) = Some parsed.
Proof.
  cbv zeta. intros _ Hafter. unfold jsonBundle, mbind, Result_bind.
  destruct (jsonEntries _ _ _ _ _ _ _ _) as [out |] eqn:Hout; cbn [bindR]; [| discriminate].
  intros [= <-]. cbn [bundle_tokens].
  exact (jsonEntries_last _ _ _ _ _ Hafter _ _ Hout).
Qed.

End Bundles.

(** A formatter that throws for the permutation [dark], [mobile]. *)
Lemma bundleAsJsModule_rethrows_witness :
  bundleAsJsModule normalizeModifierInputs BundlerUtils.buildMetadata stripInternalMetadata
    (fun s => s) (fun _ => "{}") ([] ++ darkMobile :: []) themePlatformResolver None
    (Some failingFormatter)
  = Throw (newError PlainError "cannot format").
Proof.
  apply (bundleAsJsModule_rethrows normalizeModifierInputs BundlerUtils.buildMetadata
           stripInternalMetadata (fun s => s) (fun _ => "{}") [] [] darkMobile
           themePlatformResolver None failingFormatter
           (newError PlainError "cannot format"));
    [constructor | reflexivity].
Defined.

(** Two permutations under one key, the first without a token: the
    second one's text, [null], is what the bundle keeps. *)
Lemma jsonBundle_last_permutation_wins_witness :
  exists themeJson parsed,
    emptyOrNot (stripInternalMetadata (tokens darkMobile)) = Ok themeJson
    /\ parseSmallJson themeJson = Ok parsed
    /\ obj_get
         (jsonKey normalizeModifierInputs BundlerUtils.buildStablePermutationKey
            (BundlerUtils.buildMetadata themePlatformResolver) darkMobile)
         (bundle_tokens
            (mkJsonBundle (BundlerUtils.buildMetadata themePlatformResolver)
               [("theme=dark|platform=mobile", JNull)]))
       = Some parsed.
Proof.
  apply (jsonBundle_last_permutation_wins normalizeModifierInputs BundlerUtils.buildMetadata
           stripInternalMetadata BundlerUtils.buildStablePermutationKey parseSmallJson
           [darkMobileEmpty] [] darkMobile themePlatformResolver emptyOrNot
           (mkJsonBundle (BundlerUtils.buildMetadata themePlatformResolver)
              [("theme=dark|platform=mobile", JNull)]));
    [discriminate | constructor | reflexivity].
Defined.

End JsModuleFacts.

(** ** The keyed bundlers *)

Module JsFacts.
Import BundlerUtils JsBundler Chars CssInvariants BundleScenarios StringFacts JsModuleFacts.


Section Js.

Variable normalizeModifierInputs : ModifierInputs -> ModifierInputs.
Variable buildMetadata : ResolverDocument -> Metadata.
Variable stripInternalMetadata : ResolvedTokens -> ResolvedTokens.
Variable buildStablePermutationKey : ModifierInputs -> list string -> string.
Variable stringifyString : string -> string.
Variable stringifyMetadata : Metadata -> string.
Variable JSON_parse : string -> Result Thrown JsValue.
Variable stringifyBundle : JsonBundle -> string.






End Js.



End JsFacts.

(** ** Built-in transforms and filters, once more *)

Module TransformRunFacts.
Import DurationFormat PathFilter StringFacts.

Lemma weightMap_get_cases (key : string) :
  (exists w, weightMap_get key = JNum w)
  \/ (exists what, weightMap_get key = JHost what)
  \/ weightMap_get key = JUndefined.
Proof.
  unfold weightMap_get. destruct (obj_get key weightMap) as [w|]; [left; now exists w |].
  unfold Object_prototype_get.
  destruct (String.eqb key "constructor"); [right; left; now eexists |].
  destruct (String.eqb key "__proto__"); [right; left; now eexists |].
  now right; right.
Qed.

Lemma prop_with_value (token : ResolvedToken) (v : JsValue) :
  prop (with_value token v) "$value" = v.
Proof. unfold prop, with_value. now rewrite lookup_insert_eq. Qed.

(** X13. [fontWeightToNumber] is idempotent: a second pass leaves the
    token the first pass returned as it is. *)
Theorem fontWeightToNumber_idempotent (token : ResolvedToken) :
  transform fontWeightToNumber (transform fontWeightToNumber token)
  = transform fontWeightToNumber token.
Proof.
  cbn [transform fontWeightToNumber].
  destruct (prop token "$value") as [| | b | x | value | xs | fields | what] eqn:Hvalue;
    try (rewrite Hvalue; reflexivity).
  destruct (weightMap_get_cases (toLowerCase value)) as [[w Hw] | [[what Hw] | Hw]];
    rewrite Hw.
  - now rewrite prop_with_value.
  - now rewrite prop_with_value.
  - now rewrite Hvalue, Hw.
Qed.

Section Durations.

Variable toNumber : JsValue -> float.
Variable numberToString : float -> string.
Variable parseFloat : string -> float.

#[local] Abbreviation toMs := (durationToMs toNumber numberToString parseFloat).
#[local] Abbreviation toSeconds := (durationToSeconds toNumber numberToString parseFloat).

(** What the duration transforms return: the token itself, or the token
    with a duration object in the target unit. *)
Lemma durationToMs_result (token : ResolvedToken) :
  transform toMs token = token
  \/ exists n, transform toMs token = with_value token (durationObject n "ms").
Proof.
  cbn [transform durationToMs]. cbv zeta.
  repeat match goal with
         | |- context [if ?c then _ else _] => destruct c
         end; eauto.
Qed.

Lemma durationToSeconds_result (token : ResolvedToken) :
  transform toSeconds token = token
  \/ exists n, transform toSeconds token = with_value token (durationObject n "s").
Proof.
  cbn [transform durationToSeconds]. cbv zeta.
  repeat match goal with
         | |- context [if ?c then _ else _] => destruct c
         end; eauto.
Qed.

Lemma durationToMs_keeps_ms (token : ResolvedToken) (n : float) :
  transform toMs (with_value token (durationObject n "ms"))
  = with_value token (durationObject n "ms").
Proof.
  cbn [transform durationToMs]. cbv zeta. rewrite prop_with_value.
  change (has_value_and_unit (durationObject n "ms")) with true. cbv iota.
  change (get_prop (durationObject n "ms") "unit") with (JStr "ms").
  change (is_string (JStr "ms") "ms") with true. cbv iota.
  now destruct (Number_isFinite _).
Qed.

Lemma durationToSeconds_keeps_s (token : ResolvedToken) (n : float) :
  transform toSeconds (with_value token (durationObject n "s"))
  = with_value token (durationObject n "s").
Proof.
  cbn [transform durationToSeconds]. cbv zeta. rewrite prop_with_value.
  change (has_value_and_unit (durationObject n "s")) with true. cbv iota.
  change (get_prop (durationObject n "s") "unit") with (JStr "s").
  change (is_string (JStr "s") "s") with true. cbv iota.
  now destruct (Number_isFinite _).
Qed.

(** X14. The duration transforms are idempotent, whatever the host's
    number conversions do. *)
Theorem duration_transforms_idempotent (token : ResolvedToken) :
  let toMs := transform (durationToMs toNumber numberToString parseFloat) in
  let toSeconds := transform (durationToSeconds toNumber numberToString parseFloat) in
  toMs (toMs token) = toMs token /\ toSeconds (toSeconds token) = toSeconds token.
Proof.
  cbv zeta. split.
  - destruct (durationToMs_result token) as [Hsame | [n Hnew]].
    + now rewrite !Hsame.
    + rewrite Hnew. apply durationToMs_keeps_ms.
  - destruct (durationToSeconds_result token) as [Hsame | [n Hnew]].
    + now rewrite !Hsame.
    + rewrite Hnew. apply durationToSeconds_keeps_s.
Qed.

(** X15. A value the duration transforms write is a duration object in
    the sense of [isDurationObject], in the unit the transform is named
    after. *)
Theorem duration_transforms_write_duration_objects (token : ResolvedToken) :
  let inMs := transform (durationToMs toNumber numberToString parseFloat) token in
  let inSeconds := transform (durationToSeconds toNumber numberToString parseFloat) token in
  (inMs <> token ->
   isDurationObject (prop inMs "$value") = true
   /\ get_prop (prop inMs "$value") "unit" = JStr "ms")
  /\ (inSeconds <> token ->
      isDurationObject (prop inSeconds "$value") = true
      /\ get_prop (prop inSeconds "$value") "unit" = JStr "s").
Proof.
  cbv zeta. split.
  - intros Hchanged. destruct (durationToMs_result token) as [Hsame | [n Hnew]];
      [contradiction |].
    rewrite Hnew, prop_with_value. now split.
  - intros Hchanged. destruct (durationToSeconds_result token) as [Hsame | [n Hnew]];
      [contradiction |].
    rewrite Hnew, prop_with_value. now split.
Qed.

End Durations.

Section Colors.

Variable isColorObject : JsValue -> bool.
Variable culoriConverter : string -> JsValue -> Result Thrown JsValue.
Variable formatCss : JsValue -> Result Thrown JsValue.

(** X16. The modern colour transforms change a token only when its
    value is a colour object that culori converts and formats to a
    non-empty text; a value that is no colour object, an exception
    thrown on the way and an empty text all leave the token as it was. *)
Theorem createModernColorTransform_changes_only_on_success (mode : string)
    (token : ResolvedToken) :
  let result :=
    transform (createModernColorTransform isColorObject culoriConverter formatCss mode) token in
  result = token
  \/ exists color converted formatted,
       isColorObject (prop token "$value") = true
       /\ dtcgObjectToCulori isColorObject (prop token "$value") = Ok (Some color)
       /\ culoriConverter mode color = Ok converted
       /\ formatCss converted = Ok formatted
       /\ is_string formatted "" = false
       /\ result = with_value token formatted.
Proof.
  cbv zeta. cbn [transform createModernColorTransform]. cbv zeta.
  destruct (dtcgObjectToCulori isColorObject (prop token "$value")) as [[color|] | t] eqn:Hparsed;
    cbn [bindR]; [| now left | now left].
  destruct (culoriConverter mode color) as [converted | t] eqn:Hconverted;
    cbn [bindR]; [| now left].
  destruct (formatCss converted) as [formatted | t] eqn:Hformatted; cbn [bindR]; [| now left].
  destruct (is_string formatted "") eqn:Hempty; [now left |].
  right. exists color, converted, formatted. repeat split; try assumption.
  unfold dtcgObjectToCulori in Hparsed.
  destruct (isColorObject (prop token "$value")); [reflexivity | discriminate].
Qed.

End Colors.

Section ByPath.

Variable elementToString : JsValue -> string.


End ByPath.

End TransformRunFacts.

(** ** The validator's results *)

Module ValidatorResultFacts.
Import Validator PluginValidation.

(** X18. What [validateTokenOrGroup] returns is well formed: it reports
    errors exactly when it classifies the node as invalid, and exactly
    then it gives a message. *)
Theorem validateTokenOrGroup_reports_errors_iff_invalid (this : SchemaValidator)
    (obj : JsValue) (result : Classification) :
  validateTokenOrGroup this obj = Ok result ->
  (type result = type_invalid <-> errors result <> [])
  /\ (type result = type_invalid <-> is_Some (classification_message result)).
Proof.
  unfold validateTokenOrGroup.
  assert (Hvalid : forall t, t <> type_invalid ->
            (t = type_invalid <-> @nil ValidationError <> [])
            /\ (t = type_invalid <-> is_Some (@None string))).
  { intros t Ht. split; split; try contradiction.
    intros [msg Hmsg]. discriminate Hmsg. }
  assert (Hinvalid : forall (errs : list ValidationError) (msg : string),
            (length errs =? 0)%nat = false ->
            (type_invalid = type_invalid <-> errs <> [])
            /\ (type_invalid = type_invalid <-> is_Some (Some msg))).
  { intros errs msg Hlen. split; split; try reflexivity; intros _.
    - intros ->. discriminate.
    - now eexists. }
  destruct (hasValue obj).
  - destruct (validateToken this obj) as [tokenErrors |]; cbn [bindR]; [| discriminate].
    destruct (length tokenErrors =? 0)%nat eqn:Hlen; intros [= <-];
      cbn [type errors classification_message].
    + now apply Hvalid.
    + now apply Hinvalid.
  - destruct (validateGroup this obj) as [groupErrors |]; cbn [bindR]; [| discriminate].
    destruct (length groupErrors =? 0)%nat eqn:Hgroup; [intros [= <-]; now apply Hvalid |].
    destruct (validateToken this obj) as [tokenErrors |]; cbn [bindR]; [| discriminate].
    destruct (length tokenErrors =? 0)%nat eqn:Htoken; intros [= <-];
      cbn [type errors classification_message]; [now apply Hvalid |].
    destruct (length groupErrors <? length tokenErrors)%nat; now apply Hinvalid.
Qed.

Lemma validateTokenOrGroup_reports_errors_iff_invalid_witness :
  (type (mkClassification type_token [] None) = type_invalid
   <-> errors (mkClassification type_token [] None) <> [])
  /\ (type (mkClassification type_token [] None) = type_invalid
      <-> is_Some (classification_message (mkClassification type_token [] None))).
Proof.
  apply (validateTokenOrGroup_reports_errors_iff_invalid lenient
           (JObj [("$value", JStr "#fff")])).
  reflexivity.
Defined.

(** X19. For a schema name that is not the name of a member of
    [Object.prototype], [registerSchema] makes [validate] answer for the
    name, and changes nothing for any other such name; for a name that
    is not registered [validate] throws a [ConfigurationError], whatever
    the name. *)
Theorem registerSchema_then_validate (this : SchemaValidator) (name : string)
    (schema : ValidateFunction) (data : JsValue) :
  CssInvariants.inheritedName name = false ->
  (exists errors, validate (registerSchema name schema this) name data = Ok errors)
  /\ (forall other,
        other <> name ->
        CssInvariants.inheritedName other = false ->
        validate (registerSchema name schema this) other data = validate this other data)
  /\ (forall missing,
        validators this !! missing = None ->
        validate this missing data
        = Throw (newError ConfigurationError ("Schema not found: " +:+ missing))).
Proof.
  intros _. split; [| split].
  - unfold validate, registerSchema. cbn [validators]. rewrite lookup_insert_eq.
    now eexists.
  - intros other Hother _. unfold validate, registerSchema. cbn [validators options].
    now rewrite lookup_insert_ne.
  - intros missing Hnone. unfold validate. now rewrite Hnone.
Qed.

(** A schema registered as [brand] on the lenient validator. *)
Lemma registerSchema_then_validate_witness :
  (exists errors,
     validate (registerSchema "brand" acceptAll lenient) "brand" JNull = Ok errors)
  /\ (forall other,
        other <> "brand" ->
        CssInvariants.inheritedName other = false ->
        validate (registerSchema "brand" acceptAll lenient) other JNull
        = validate lenient other JNull)
  /\ (forall missing,
        validators lenient !! missing = None ->
        validate lenient missing JNull
        = Throw (newError ConfigurationError ("Schema not found: " +:+ missing))).
Proof.
  apply (registerSchema_then_validate lenient "brand" acceptAll JNull). reflexivity.
Defined.

Section Plugins.

Variable isFunction : JsValue -> bool.

(** X20. The plugin validators accept an object, that is, report no
    error for it, only when the function it must provide is a function:
    [transform] (and [matcher], when given) for a transform, [format]
    for a renderer, [filter] for a filter, [preprocess] for a
    preprocessor. *)
Theorem plugin_validators_require_functions (this : SchemaValidator)
    (fields : list (string * JsValue)) :
  let data := JObj fields in
  (validateTransform isFunction this data = Ok [] ->
   isFunction (get_prop data "transform") = true
   /\ (get_prop data "matcher" = JUndefined \/ isFunction (get_prop data "matcher") = true))
  /\ (validateRenderer isFunction this data = Ok [] ->
      isFunction (get_prop data "format") = true)
  /\ (validateFilter isFunction this data = Ok [] ->
      isFunction (get_prop data "filter") = true)
  /\ (validatePreprocessor isFunction this data = Ok [] ->
      isFunction (get_prop data "preprocess") = true).
Proof.
  cbv zeta.
  assert (Hpush : forall (errors : list ValidationError) (message path : string),
            push errors message path <> []).
  { intros errors message path. unfold push. now destruct errors. }
  assert (Hnil : forall errors : list ValidationError,
            (length errors =? 0)%nat = false -> Ok errors <> @Ok Thrown _ []).
  { intros errors Hlen [= ->]. discriminate. }
  split; [| split; [| split]].
  - unfold validateTransform.
    destruct (validate this "transformPlugin" (JObj fields)) as [errors |]; cbn [bindR];
      [| discriminate].
    destruct (length errors =? 0)%nat eqn:Hlen; cbn [andb isObject]; cbv zeta;
      [| intros Hok; now apply Hnil in Hok].
    destruct (isFunction (get_prop (JObj fields) "transform")); cbn [negb].
    + destruct (isUndefined (get_prop (JObj fields) "matcher")) eqn:Hundefined;
        cbn [negb andb].
      * intros _. split; [reflexivity | left].
        now destruct (get_prop (JObj fields) "matcher").
      * destruct (isFunction (get_prop (JObj fields) "matcher")); cbn [negb].
        -- intros _. split; [reflexivity | now right].
        -- intros [= Hempty]. now apply Hpush in Hempty.
    + destruct (negb (isUndefined _) && negb (isFunction _));
        intros [= Hempty]; now apply Hpush in Hempty.
  - unfold validateRenderer.
    destruct (validate this "rendererPlugin" (JObj fields)) as [errors |]; cbn [bindR];
      [| discriminate].
    destruct (length errors =? 0)%nat eqn:Hlen; cbn [andb isObject];
      [| intros Hok; now apply Hnil in Hok].
    destruct (isFunction (get_prop (JObj fields) "format")); cbn [negb]; [reflexivity |].
    intros [= Hempty]. now apply Hpush in Hempty.
  - unfold validateFilter.
    destruct (validate this "filterPlugin" (JObj fields)) as [errors |]; cbn [bindR];
      [| discriminate].
    destruct (length errors =? 0)%nat eqn:Hlen; cbn [andb isObject];
      [| intros Hok; now apply Hnil in Hok].
    destruct (isFunction (get_prop (JObj fields) "filter")); cbn [negb]; [reflexivity |].
    intros [= Hempty]. now apply Hpush in Hempty.
  - unfold validatePreprocessor.
    destruct (validate this "preprocessorPlugin" (JObj fields)) as [errors |]; cbn [bindR];
      [| discriminate].
    destruct (length errors =? 0)%nat eqn:Hlen; cbn [andb isObject];
      [| intros Hok; now apply Hnil in Hok].
    destruct (isFunction (get_prop (JObj fields) "preprocess")); cbn [negb]; [reflexivity |].
    intros [= Hempty]. now apply Hpush in Hempty.
Qed.

End Plugins.

End ValidatorResultFacts.

(** ** The pipeline as a whole *)

Module PipelineRunFacts.
Import Pipeline Scenarios BatchScenarios.

#[local] Existing Instances M_ret M_bind.

Section Preprocessors.

Context {World : Type}.

(** X21. Preprocessors run in list order, each on the document the
    previous one returned: running a list is running its first part and
    then the rest on the result, and a throw in the first part ends the
    run with the world as it then was. *)
Theorem applyPreprocessors_app (rawTokens : TokenDocument)
    (first rest : list (Preprocessor World)) (w : World) :
  applyPreprocessors rawTokens (first ++ rest) w
  = match applyPreprocessors rawTokens first w with
    | (Ok document, w') => applyPreprocessors document rest w'
    | (Throw t, w') => (Throw t, w')
    end.
Proof.
  revert rawTokens w. induction first as [| preprocessor first IH]; intros rawTokens w.
  - reflexivity.
  - cbn [app applyPreprocessors]. unfold mbind, M_bind.
    destruct (preprocess preprocessor rawTokens w) as [[document | t] w']; [apply IH | reflexivity].
Qed.

End Preprocessors.

Section Runs.

Context {World ResolutionEngine ReferenceResolver FileCache FlatTokens : Type}.
Variable env : Collaborators World ResolutionEngine ReferenceResolver FileCache FlatTokens.

(** Inversion of a run that returns. *)
Lemma bind_returns {A B : Type} (m : M World A) (k : A -> M World B) (w w' : World) (b : B) :
  (m ≫= k) w = (Ok b, w') -> exists a w1, m w = (Ok a, w1) /\ k a w1 = (Ok b, w').
Proof.
  unfold mbind, M_bind. destruct (m w) as [[a | t] w1]; [| intros [=]].
  intros Hk. now exists a, w1.
Qed.

Lemma ret_returns {A : Type} (a b : A) (w w' : World) :
  @mret (M World) _ _ a w = (Ok b, w') -> a = b /\ w = w'.
Proof. unfold mret, M_ret. now intros [= <- <-]. Qed.

(** Every stage from 4 on carries the engine and the modifier inputs
    of the stage before it. *)
Lemma preprocessTokens_carries (stage3 : RawTokensStage ResolutionEngine ReferenceResolver)
    (preprocessorList : option (list (Preprocessor World))) (w w' : World)
    (stage4 : PreprocessedStage ResolutionEngine ReferenceResolver) :
  preprocessTokens stage3 preprocessorList w = (Ok stage4, w') ->
  preprocessed_rest stage4 = raw_rest stage3.
Proof.
  unfold preprocessTokens. intros Hrun.
  apply bind_returns in Hrun as (document & w1 & _ & Hret).
  now apply ret_returns in Hret as [<- _].
Qed.

Lemma resolveReferences_carries
    (stage4 : PreprocessedStage ResolutionEngine ReferenceResolver) (w w' : World)
    (stage5 : ReferenceResolvedStage ResolutionEngine ReferenceResolver) :
  resolveReferences env stage4 w = (Ok stage5, w') ->
  referenceResolved_rest stage5 = preprocessed_rest stage4.
Proof.
  unfold resolveReferences, try_catch.
  destruct (@mbind (M World) _ _ _ _ _ w) as [[resolved | error] w1] eqn:Hbody.
  - intros [= <- <-]. apply bind_returns in Hbody as (document & w2 & _ & Hret).
    now apply ret_returns in Hret as [<- _].
  - unfold handleReferenceResolutionError. intros Hrun.
    apply bind_returns in Hrun as (? & w2 & _ & Hrun).
    apply bind_returns in Hrun as (? & w3 & _ & Hret).
    now apply ret_returns in Hret as [<- _].
Qed.

Lemma flattenTokens_carries
    (stage5 : ReferenceResolvedStage ResolutionEngine ReferenceResolver) (w w' : World)
    (stage6 : FlattenedStage ResolutionEngine ReferenceResolver FlatTokens) :
  flattenTokens env stage5 w = (Ok stage6, w') ->
  flattened_rest stage6 = referenceResolved_rest stage5.
Proof.
  unfold flattenTokens. intros Hrun.
  apply bind_returns in Hrun as (flat & w1 & _ & Hret).
  now apply ret_returns in Hret as [<- _].
Qed.

Lemma resolveAliases_carries
    (stage6 : FlattenedStage ResolutionEngine ReferenceResolver FlatTokens) (w w' : World)
    (stage7 : AliasResolvedStage ResolutionEngine ReferenceResolver) :
  resolveAliases env stage6 w = (Ok stage7, w') ->
  aliasResolved_rest stage7 = flattened_rest stage6.
Proof.
  unfold resolveAliases. intros Hrun.
  apply bind_returns in Hrun as (resolved & w1 & _ & Hret).
  now apply ret_returns in Hret as [<- _].
Qed.

Lemma applyFilterStage_carries
    (stage7 : AliasResolvedStage ResolutionEngine ReferenceResolver)
    (filterList : option (list Filter)) (w w' : World)
    (stage8 : AliasResolvedStage ResolutionEngine ReferenceResolver) :
  applyFilterStage env stage7 filterList w = (Ok stage8, w') ->
  aliasResolved_rest stage8 = aliasResolved_rest stage7.
Proof.
  unfold applyFilterStage. intros Hrun.
  apply bind_returns in Hrun as (filtered & w1 & _ & Hret).
  now apply ret_returns in Hret as [<- _].
Qed.

Lemma applyTransformStage_carries
    (stage8 : AliasResolvedStage ResolutionEngine ReferenceResolver)
    (transformList : option (list Transform)) (w w' : World)
    (stage9 : FinalStage ResolutionEngine ReferenceResolver) :
  applyTransformStage env stage8 transformList w = (Ok stage9, w') ->
  final_rest stage9 = aliasResolved_rest stage8.
Proof.
  unfold applyTransformStage. intros Hrun.
  apply bind_returns in Hrun as (transformed & w1 & _ & Hret).
  now apply ret_returns in Hret as [<- _].
Qed.

(** What the task of one permutation returns carries the modifier
    inputs its engine handed back. *)
Lemma resolvePermutation_returns (stage1 : LoadedResolverStage) (sharedCache : FileCache)
    (modifierInputs : ModifierInputs) (transformList : option (list Transform))
    (preprocessorList : option (list (Preprocessor World)))
    (filterList : option (list Filter)) (w w' : World) (result : PermutationResult) :
  resolvePermutation env stage1 sharedCache transformList preprocessorList filterList
    modifierInputs w = (Ok result, w') ->
  exists document w2,
    resolveWithInputs env (resolutionEngine (createEngine env stage1 (Some sharedCache)))
      modifierInputs w
    = (Ok (document, result_modifierInputs result), w2).
Proof.
  unfold resolvePermutation. cbv zeta. intros Hrun.
  apply bind_returns in Hrun as (stage3 & w3 & Hthree & Hrun).
  apply bind_returns in Hrun as (stage4 & w4 & Hfour & Hrun).
  apply bind_returns in Hrun as (stage5 & w5 & Hfive & Hrun).
  apply bind_returns in Hrun as (stage6 & w6 & Hsix & Hrun).
  apply bind_returns in Hrun as (stage7 & w7 & Hseven & Hrun).
  apply bind_returns in Hrun as (stage8 & w8 & Height & Hrun).
  apply bind_returns in Hrun as (stage9 & w9 & Hnine & Hret).
  apply ret_returns in Hret as [<- _]. cbn [result_modifierInputs].
  apply applyTransformStage_carries in Hnine as ->.
  apply applyFilterStage_carries in Height as ->.
  apply resolveAliases_carries in Hseven as ->.
  apply flattenTokens_carries in Hsix as ->.
  apply resolveReferences_carries in Hfive as ->.
  apply preprocessTokens_carries in Hfour as ->.
  unfold resolveTokens in Hthree.
  apply bind_returns in Hthree as ([document inputs] & w2 & Hengine & Hret).
  apply ret_returns in Hret as [<- _].
  cbn [raw_rest stageModifierInputs Pipeline.modifierInputs fst snd].
  now exists document, w2.
Qed.

(** X22. The results of a fulfilled [resolveAllPermutations] carry the
    engines' modifier inputs, position by position: the result at a
    position holds the modifier inputs that an engine built on the
    shared file cache handed back from [resolveWithInputs] for the
    permutation enumerated at that position. *)
Theorem resolveAllPermutations_returns_the_engines_inputs
    (resolver : string + ResolverDocument) (transformList : option (list Transform))
    (preprocessorList : option (list (Preprocessor World)))
    (filterList : option (list Filter)) (completionOrder : list nat) (w w1 w' : World)
    (stage1 : LoadedResolverStage) (permutationInputs : list ModifierInputs)
    (sharedCache : FileCache) (results : list PermutationResult) :
  prepareAllPermutations env resolver w = (Ok (stage1, permutationInputs, sharedCache), w1) ->
  resolveAllPermutations env resolver transformList preprocessorList filterList
    completionOrder w = (Fulfilled results, w') ->
  Forall2
    (fun inputs result =>
       exists w0 document w0',
         resolveWithInputs env
           (resolutionEngine (createEngine env stage1 (Some sharedCache))) inputs w0
         = (Ok (document, result_modifierInputs result), w0'))
    permutationInputs results.
Proof.
  intros Hprepare Hall.
  destruct (PipelineFacts.fulfilled_follows_enumeration env _ _ _ _ _ _ _ _ _ _ _ _
              Hprepare Hall) as [_ Htasks].
  apply (Forall2_impl _ _ _ _ Htasks).
  intros inputs result (w0 & w0' & Hrun).
  apply resolvePermutation_returns in Hrun as (document & w2 & Hengine).
  now exists w0, document, w2.
Qed.

(** X23. The modifier inputs and the engine [resolve] returns are the
    engine's: the inputs are the ones [resolveWithInputs] handed back for
    the caller's, and the engine is the one built from the loaded
    resolver document. *)
Theorem resolve_returns_the_engines_inputs (resolver : string + ResolverDocument)
    (modifierInputs : ModifierInputs) (transformList : option (list Transform))
    (preprocessorList : option (list (Preprocessor World)))
    (filterList : option (list Filter)) (w w' : World) (resolution : Resolution ResolutionEngine) :
  resolve env resolver modifierInputs transformList preprocessorList filterList w
  = (Ok resolution, w') ->
  exists stage1 w1 document w2,
    load env resolver w = (Ok stage1, w1)
    /\ resolution_engine resolution = resolutionEngine (createEngine env stage1 None)
    /\ resolveWithInputs env (resolution_engine resolution) modifierInputs w1
       = (Ok (document, resolution_modifierInputs resolution), w2).
Proof.
  unfold resolve. intros Hrun.
  apply bind_returns in Hrun as (stage7 & w7 & Hseven & Hrun).
  apply bind_returns in Hrun as (stage8 & w8 & Height & Hrun).
  apply bind_returns in Hrun as (stage9 & w9 & Hnine & Hret).
  apply ret_returns in Hret as [<- _].
  cbn [resolution_engine resolution_modifierInputs].
  apply applyTransformStage_carries in Hnine as ->.
  apply applyFilterStage_carries in Height as ->.
  unfold resolveToAliasResolved, loadResolver in Hseven.
  apply bind_returns in Hseven as (stage1 & w1 & Hload & Hseven). cbv zeta in Hseven.
  apply bind_returns in Hseven as (stage3 & w3 & Hthree & Hseven).
  apply bind_returns in Hseven as (stage4 & w4 & Hfour & Hseven).
  apply bind_returns in Hseven as (stage5 & w5 & Hfive & Hseven).
  apply bind_returns in Hseven as (stage6 & w6 & Hsix & Hseven).
  apply resolveAliases_carries in Hseven as ->.
  apply flattenTokens_carries in Hsix as ->.
  apply resolveReferences_carries in Hfive as ->.
  apply preprocessTokens_carries in Hfour as ->.
  unfold resolveTokens in Hthree.
  apply bind_returns in Hthree as ([document inputs] & w2 & Hengine & Hret).
  apply ret_returns in Hret as [<- _].
  cbn [raw_rest engineReady stageModifierInputs Pipeline.modifierInputs fst snd].
  now exists stage1, w1, document, w2.
Qed.

End Runs.

Section Rejections.

Context {World A : Type}.

Lemma settleAll_keeps_rejection (tasks : list (M World A)) (order : list nat) :
  forall (st : AllState A) (w : World),
    is_Some (rejection st) -> is_Some (rejection (settleAll tasks order st w).1).
Proof.
  induction order as [| i rest IH]; intros st w Hrejected; cbn [settleAll]; [exact Hrejected |].
  destruct (tasks !! i) as [task|]; [| now apply IH].
  destruct (task w) as [[a | t] w1]; apply IH; cbn [rejection]; [exact Hrejected |].
  destruct (rejection st); now eexists.
Qed.

Lemma settleAll_rejects (tasks : list (M World A)) (order : list nat) (i : nat)
    (task : M World A) :
  tasks !! i = Some task ->
  (forall w, exists t w', task w = (Throw t, w')) ->
  i ∈ order ->
  forall (st : AllState A) (w : World),
    is_Some (rejection (settleAll tasks order st w).1).
Proof.
  intros Htask Hthrows Hin.
  induction order as [| j rest IH]; intros st w; [inversion Hin |].
  cbn [settleAll]. unfold M in *. apply elem_of_cons in Hin as [-> | Hin].
  - rewrite Htask. destruct (Hthrows w) as (t & w1 & ->).
    apply settleAll_keeps_rejection. cbn [rejection]. destruct (rejection st); now eexists.
  - destruct (tasks !! j) as [other|]; [| now apply IH].
    destruct (other w) as [[a | t] w1]; now apply IH.
Qed.

Lemma Promise_all_rejects (tasks : list (M World A)) (order : list nat) (i : nat)
    (task : M World A) (w : World) :
  tasks !! i = Some task ->
  (forall w, exists t w', task w = (Throw t, w')) ->
  i ∈ order ->
  exists t w', Promise_all tasks order w = (Rejected t, w').
Proof.
  intros Htask Hthrows Hin. unfold Promise_all.
  pose proof (settleAll_rejects tasks order i task Htask Hthrows Hin
                (mkAll (replicate (length tasks) None) None) w) as [t Ht].
  destruct (settleAll tasks order _ w) as [st w']. cbn [fst] in Ht. rewrite Ht.
  now exists t, w'.
Qed.

End Rejections.

Section Batch.

Context {World ResolutionEngine ReferenceResolver FileCache FlatTokens : Type}.
Variable env : Collaborators World ResolutionEngine ReferenceResolver FileCache FlatTokens.

(** X24. One permutation that cannot be resolved fails the whole batch:
    when the engine throws for an enumerated permutation whenever it is
    asked, and the task of that permutation gets its turn,
    [resolveAllPermutations] is rejected; it hands out no result of the
    other permutations. *)
Theorem resolveAllPermutations_rejects_as_a_whole
    (resolver : string + ResolverDocument)
    (transformList : option (list Transform))
    (preprocessorList : option (list (Preprocessor World)))
    (filterList : option (list Filter))
    (w w1 : World) (stage1 : LoadedResolverStage)
    (permutationInputs : list ModifierInputs) (sharedCache : FileCache)
    (completionOrder : list nat) (i : nat) (inputs : ModifierInputs) :
  prepareAllPermutations env resolver w = (Ok (stage1, permutationInputs, sharedCache), w1) ->
  permutationInputs !! i = Some inputs ->
  (forall w0, exists t w0',
     resolveWithInputs env (resolutionEngine (createEngine env stage1 (Some sharedCache)))
       inputs w0 = (Throw t, w0')) ->
  i ∈ completionOrder ->
  exists t w',
    resolveAllPermutations env resolver transformList preprocessorList filterList
      completionOrder w = (Rejected t, w').
Proof.
  intros Hprepare Hinputs Hthrows Hin. unfold resolveAllPermutations. rewrite Hprepare.
  apply (Promise_all_rejects _ _ i
           (resolvePermutation env stage1 sharedCache transformList preprocessorList
              filterList inputs)); [| | exact Hin].
  - now rewrite list_lookup_fmap, Hinputs.
  - intros w0. destruct (Hthrows w0) as (t & w0' & Hthrow). exists t, w0'.
    unfold resolvePermutation, resolveTokens, mbind, M_bind. cbv zeta. now rewrite Hthrow.
Qed.

End Batch.

(** *** The properties on the small pipeline *)

(** The two permutations of [themeResolver] on collaborators whose
    reference resolver remembers the cache it was given, the task of
    [dark] completing first. *)
Lemma resolveAllPermutations_returns_the_engines_inputs_witness :
  Forall2
    (fun inputs result =>
       exists w0 document w0',
         resolveWithInputs cachingEnv
           (resolutionEngine (createEngine cachingEnv (mkLoaded themeResolver ".") (Some tt)))
           inputs w0
         = (Ok (document, result_modifierInputs result), w0'))
    [[("theme", "light")]; [("theme", "dark")]]
    [mkPermutationResult (flattenOneLevel (documentFor [("theme", "light")]))
       [("theme", "light")];
     mkPermutationResult (flattenOneLevel (documentFor [("theme", "dark")]))
       [("theme", "dark")]].
Proof.
  apply (resolveAllPermutations_returns_the_engines_inputs cachingEnv (inr themeResolver)
           None None None [1; 0] warningWorld warningWorld warningWorld
           (mkLoaded themeResolver ".") [[("theme", "light")]; [("theme", "dark")]] tt);
    reflexivity.
Defined.

Lemma resolve_returns_the_engines_inputs_witness :
  exists stage1 w1 document w2,
    load exampleEnv (inr themeResolver) warningWorld = (Ok stage1, w1)
    /\ themeResolver = resolutionEngine (createEngine exampleEnv stage1 None)
    /\ resolveWithInputs exampleEnv themeResolver [("theme", "dark")] w1
       = (Ok (document, [("theme", "dark")]), w2).
Proof.
  apply (resolve_returns_the_engines_inputs exampleEnv (inr themeResolver)
           [("theme", "dark")] None None None warningWorld warningWorld
           (mkResolution
              (flattenOneLevel (documentFor [("theme", "dark")]))
              themeResolver [("theme", "dark")])).
  reflexivity.
Defined.

(** The engine refuses [dark]: the batch over [light] and [dark] is
    rejected, though [light] resolves. *)
Lemma resolveAllPermutations_rejects_as_a_whole_witness :
  exists t w',
    resolveAllPermutations darkRefused (inr themeResolver) None None None [0; 1] warningWorld
    = (Rejected t, w').
Proof.
  apply (resolveAllPermutations_rejects_as_a_whole darkRefused (inr themeResolver)
           None None None warningWorld warningWorld (mkLoaded themeResolver ".")
           [[("theme", "light")]; [("theme", "dark")]] tt [0; 1] 1 [("theme", "dark")]).
  - reflexivity.
  - reflexivity.
  - intros w0. now exists refused, w0.
  - apply list_elem_of_further, list_elem_of_here.
Defined.

End PipelineRunFacts.

(** ** File utilities *)

Module FileFacts.
Import Pipeline FileUtils FileScenarios.

#[local] Existing Instances M_ret M_bind.

Section Files.

Context {World : Type}.
Variable host : Host World.

(** X25. [readJSONFile] maps its failures: a file that cannot be
    accessed is a [FileOperationError] for the operation [read] and is
    not read; a file that cannot be read, or whose content [JSON.parse]
    rejects, is a [ValidationError] that carries the cause's message;
    otherwise the call returns what [JSON.parse] made of the content. *)
Theorem readJSONFile_outcomes (filePath : string) (baseDir : option string) (w : World) :
  let absolutePath := absolutePathOf host filePath baseDir w in
  let invalid := fun cause : Thrown =>
    newValidationError host
      ("Failed to read or parse file " +:+ absolutePath +:+ ": " +:+ errorMessage host cause)
      [errorMessage host cause] in
  (forall cause w1,
     access host absolutePath w = (Throw cause, w1) ->
     readJSONFile host filePath baseDir w
     = (Throw (newFileOperationError host "read" absolutePath cause), w1))
  /\ (forall w1 cause w2,
        access host absolutePath w = (Ok tt, w1) ->
        readFile host absolutePath w1 = (Throw cause, w2) ->
        readJSONFile host filePath baseDir w = (Throw (invalid cause), w2))
  /\ (forall w1 content w2,
        access host absolutePath w = (Ok tt, w1) ->
        readFile host absolutePath w1 = (Ok content, w2) ->
        readJSONFile host filePath baseDir w
        = (match JSON_parse host content with
           | Ok parsed => Ok parsed
           | Throw cause => Throw (invalid cause)
           end, w2)).
Proof.
  cbv zeta. unfold readJSONFile, try_catch, liftR, mbind, M_bind. repeat split.
  - intros cause w1 Haccess. now rewrite Haccess.
  - intros w1 cause w2 Haccess Hread. now rewrite Haccess, Hread.
  - intros w1 content w2 Haccess Hread. rewrite Haccess, Hread.
    now destruct (JSON_parse host content).
Qed.

(** X26. Whatever [writeOutputFile] throws is a [FileOperationError]
    for the operation [write] on the file's name, built from what
    [mkdir] or [writeFile] threw; when [mkdir] throws, nothing is
    written. *)
Theorem writeOutputFile_outcomes (fileName content : string) (encoding : option string)
    (w : World) :
  (forall cause w1,
     mkdir host (dirname host fileName) w = (Throw cause, w1) ->
     writeOutputFile host fileName content encoding w
     = (Throw (newFileOperationError host "write" fileName cause), w1))
  /\ (forall t w',
        writeOutputFile host fileName content encoding w = (Throw t, w') ->
        exists cause, t = newFileOperationError host "write" fileName cause)
  /\ (forall w',
        writeOutputFile host fileName content encoding w = (Ok tt, w') ->
        exists w1,
          mkdir host (dirname host fileName) w = (Ok tt, w1)
          /\ writeFile host fileName content (default "utf-8" encoding) w1 = (Ok tt, w'))
  /\ (forall w1 cause w2,
        mkdir host (dirname host fileName) w = (Ok tt, w1) ->
        writeFile host fileName content (default "utf-8" encoding) w1 = (Throw cause, w2) ->
        writeOutputFile host fileName content encoding w
        = (Throw (newFileOperationError host "write" fileName cause), w2)).
Proof.
  unfold writeOutputFile, try_catch, liftR, mbind, M_bind.
  split; [| split; [| split]]; [| | | intros w1 cause w2 Hmkdir Hwrite; now rewrite Hmkdir, Hwrite].
  - intros cause w1 Hmkdir. now rewrite Hmkdir.
  - intros t w'. destruct (mkdir host (dirname host fileName) w) as [[[] | cause] w1].
    + destruct (writeFile host fileName content _ w1) as [[[] | cause] w2]; [intros [=] |].
      intros [= <- <-]. now exists cause.
    + intros [= <- <-]. now exists cause.
  - intros w'. destruct (mkdir host (dirname host fileName) w) as [[[] | cause] w1];
      [| intros [=]].
    destruct (writeFile host fileName content _ w1) as [[[] | cause] w2] eqn:Hwrite;
      [| intros [=]].
    intros [= <-]. now exists w1.
Qed.

End Files.

(** *** The utilities on a small disk *)

Example readJSONFile_of_a_missing_file :
  readJSONFile diskHost "/tokens.json" None []
  = (Throw (newError FileOperationError "read /tokens.json"), []).
Proof. reflexivity. Qed.

Example readJSONFile_of_broken_json :
  (readJSONFile diskHost "/tokens.json" None [("/tokens.json", "{")]).1
  = Throw (newError ValidationError
             "Failed to read or parse file /tokens.json: Unexpected token").
Proof. reflexivity. Qed.

Example readJSONFile_of_null :
  (readJSONFile diskHost "/tokens.json" None [("/tokens.json", "null")]).1 = Ok JNull.
Proof. reflexivity. Qed.

Example writeOutputFile_then_readJSONFile :
  match writeOutputFile diskHost "/out.json" "null" None [] with
  | (Ok _, disk) => (readJSONFile diskHost "/out.json" None disk).1 = Ok JNull
  | (Throw _, _) => False
  end.
Proof. reflexivity. Qed.

End FileFacts.

(** ** Swift identifiers and string literals *)

Module SwiftFacts.
Import Swift Chars StringFacts.

Lemma isKeyword_backticked (s : string) : isKeyword ("`" +:+ s) = false.
Proof. reflexivity. Qed.

(** X27. [toSwiftIdentifier] never returns a bare reserved word of
    Swift, and never a name that starts with a digit. *)
Theorem toSwiftIdentifier_is_usable (name : string) :
  isKeyword (toSwiftIdentifier name) = false
  /\ startsWithDigit (toSwiftIdentifier name) = false.
Proof.
  unfold toSwiftIdentifier. cbv zeta.
  set (identifier := uncapitalize _).
  set (safe := if startsWithDigit identifier then _ else _).
  destruct (isKeyword safe) eqn:Hkeyword.
  - split; [apply (isKeyword_backticked _) | reflexivity].
  - split; [exact Hkeyword |]. subst safe.
    destruct (startsWithDigit identifier) eqn:Hdigit; [reflexivity | exact Hdigit].
Qed.

(** *** Escaping *)

Lemma replaceChar_append (c : ascii) (replacement a b : string) :
  replaceChar c replacement (a +:+ b)
  = replaceChar c replacement a +:+ replaceChar c replacement b.
Proof.
  induction a as [| d a IH]; [reflexivity |].
  rewrite append_cons. cbn [replaceChar].
  destruct (Ascii.eqb d c); rewrite IH; [now rewrite append_app_assoc | reflexivity].
Qed.

Lemma escapeSwiftString_cons (c : ascii) (s : string) :
  escapeSwiftString (String c s) = escapeChar c +:+ escapeSwiftString s.
Proof.
  unfold escapeSwiftString, escapeChar. cbn [replaceChar].
  destruct (Ascii.eqb_spec c backslash) as [-> | Hbackslash].
  - rewrite !replaceChar_append. reflexivity.
  - cbn [replaceChar]. destruct (Ascii.eqb_spec c doubleQuote) as [-> | Hquote].
    + rewrite !replaceChar_append. reflexivity.
    + cbn [replaceChar]. now destruct (Ascii.eqb_spec c lineFeed) as [-> | HlineFeed].
Qed.

Lemma escapeChar_cases (c : ascii) :
  (c = backslash /\ escapeChar c = String backslash (String backslash EmptyString))
  \/ (c = doubleQuote /\ escapeChar c = String backslash (String doubleQuote EmptyString))
  \/ (c = lineFeed /\ escapeChar c = String backslash "n")
  \/ (c <> backslash /\ c <> doubleQuote /\ c <> lineFeed
      /\ escapeChar c = String c EmptyString).
Proof.
  unfold escapeChar.
  destruct (Ascii.eqb_spec c backslash) as [-> | Hbackslash]; [now left |].
  destruct (Ascii.eqb_spec c doubleQuote) as [-> | Hquote]; [now right; left |].
  destruct (Ascii.eqb_spec c lineFeed) as [-> | HlineFeed]; [now right; right; left |].
  now right; right; right.
Qed.

Lemma escapeSwiftString_no_lineFeed (s : string) :
  occurs lineFeed (escapeSwiftString s) = false.
Proof.
  induction s as [| c s IH]; [reflexivity |].
  rewrite escapeSwiftString_cons, occurs_append, IH, orb_false_r.
  destruct (escapeChar_cases c) as [[_ ->] | [[_ ->] | [[_ ->] | (_ & _ & Hc & ->)]]];
    try reflexivity.
  cbn [occurs]. apply Ascii.eqb_neq in Hc. now rewrite Hc.
Qed.

Lemma escapeSwiftString_injective (a b : string) :
  escapeSwiftString a = escapeSwiftString b -> a = b.
Proof.
  revert b. induction a as [| c a IH]; intros [| d b].
  - reflexivity.
  - rewrite escapeSwiftString_cons.
    destruct (escapeChar_cases d) as [[_ ->] | [[_ ->] | [[_ ->] | (_ & _ & _ & ->)]]];
      discriminate.
  - rewrite escapeSwiftString_cons.
    destruct (escapeChar_cases c) as [[_ ->] | [[_ ->] | [[_ ->] | (_ & _ & _ & ->)]]];
      discriminate.
  - rewrite !escapeSwiftString_cons.
    destruct (escapeChar_cases c)
      as [[-> ->] | [[-> ->] | [[-> ->] | (Hc1 & Hc2 & Hc3 & ->)]]];
      destruct (escapeChar_cases d)
        as [[-> ->] | [[-> ->] | [[-> ->] | (Hd1 & Hd2 & Hd3 & ->)]]];
      rewrite !append_cons;
      change ("" +:+ escapeSwiftString a) with (escapeSwiftString a);
      change ("" +:+ escapeSwiftString b) with (escapeSwiftString b);
      intros Heq; try discriminate Heq;
      try (injection Heq as Heq; f_equal; now apply IH);
      try (injection Heq as Hhead Heq; congruence).
    injection Heq as -> Heq. f_equal. now apply IH.
Qed.

Lemma escapeSwiftString_keeps_others (c : ascii) (s : string) :
  c <> backslash -> c <> doubleQuote -> c <> lineFeed -> c <> "n"%char ->
  occurs c (escapeSwiftString s) = occurs c s.
Proof.
  intros Hbackslash Hquote HlineFeed Hn.
  assert (Hno : forall d, c <> d -> Ascii.eqb d c = false).
  { intros d Hd. apply Ascii.eqb_neq. congruence. }
  induction s as [| d s IH]; [reflexivity |].
  rewrite escapeSwiftString_cons, occurs_append, IH. cbn [occurs]. f_equal.
  destruct (escapeChar_cases d) as [[-> ->] | [[-> ->] | [[-> ->] | (_ & _ & _ & ->)]]];
    cbn [occurs]; rewrite ?Hno by assumption; try reflexivity.
  now rewrite orb_false_r.
Qed.

(** X28. [escapeSwiftString] loses nothing and escapes the line feed
    only among the line terminators: texts that differ are escaped
    differently, the escaped text holds no line feed, and it holds a
    carriage return exactly when the text does. *)
Theorem escapeSwiftString_is_faithful (str : string) :
  occurs lineFeed (escapeSwiftString str) = false
  /\ occurs "013"%char (escapeSwiftString str) = occurs "013"%char str
  /\ forall other, escapeSwiftString str = escapeSwiftString other -> str = other.
Proof.
  split; [apply escapeSwiftString_no_lineFeed |].
  split; [now apply escapeSwiftString_keeps_others | apply escapeSwiftString_injective].
Qed.

(** *** Separators *)

(** A text without separator. *)
#[local] Abbreviation noSeparator := (fun s : string => allChars (fun c => negb (isSeparator c)) s).

Lemma isSeparator_code (c : ascii) :
  isSeparator c = true
  <-> nat_of_ascii c = 45%nat \/ nat_of_ascii c = 46%nat \/ nat_of_ascii c = 95%nat.
Proof.
  unfold isSeparator. rewrite !orb_true_iff, !Ascii.eqb_eq. split.
  - intros [[-> | ->] | ->]; [now left | now right; left | now right; right].
  - intros Hcode. rewrite <- (ascii_nat_embedding c).
    destruct Hcode as [-> | [-> | ->]]; [now left; left | now left; right | now right].
Qed.

Lemma upper_ascii_separator (c : ascii) : isSeparator (upper_ascii c) = isSeparator c.
Proof.
  unfold upper_ascii.
  destruct ((97 <=? nat_of_ascii c)%nat && (nat_of_ascii c <=? 122)%nat) eqn:Hrange;
    [| reflexivity].
  apply andb_prop in Hrange as [Hlow Hhigh]. apply Nat.leb_le in Hlow, Hhigh.
  destruct (isSeparator (ascii_of_nat _)) eqn:Hupper; destruct (isSeparator c) eqn:Hc;
    try reflexivity.
  - apply isSeparator_code in Hupper. rewrite nat_ascii_embedding in Hupper by lia. lia.
  - apply isSeparator_code in Hc. lia.
Qed.

Lemma lower_ascii_separator (c : ascii) : isSeparator (lower_ascii c) = isSeparator c.
Proof.
  unfold lower_ascii.
  destruct ((65 <=? nat_of_ascii c)%nat && (nat_of_ascii c <=? 90)%nat) eqn:Hrange;
    [| reflexivity].
  apply andb_prop in Hrange as [Hlow Hhigh]. apply Nat.leb_le in Hlow, Hhigh.
  destruct (isSeparator (ascii_of_nat _)) eqn:Hlower; destruct (isSeparator c) eqn:Hc;
    try reflexivity.
  - apply isSeparator_code in Hlower. rewrite nat_ascii_embedding in Hlower by lia. lia.
  - apply isSeparator_code in Hc. lia.
Qed.

Lemma lastChar_separator (c : ascii) (run : string) :
  isSeparator c = true -> allChars isSeparator run = true ->
  isSeparator (lastChar c run) = true.
Proof.
  revert c. induction run as [| d run IH]; intros c Hc Hrun; [exact Hc |].
  cbn [allChars] in Hrun. apply andb_prop in Hrun as [Hd Hrun]. now apply IH.
Qed.

(** A flushed run is nothing or one separator. *)
Lemma flushRun_shape (run : string) :
  allChars isSeparator run = true ->
  flushRun run = "" \/ exists c, isSeparator c = true /\ flushRun run = String c "".
Proof.
  destruct run as [| c [| d run]]; cbn [allChars flushRun]; intros Hrun.
  - now left.
  - right. exists c. split; [| reflexivity]. now apply andb_prop in Hrun as [Hc _].
  - right. apply andb_prop in Hrun as [Hc Hrun]. eexists. split; [| reflexivity].
    rewrite upper_ascii_separator.
    apply lastChar_separator; [exact Hc | cbn [allChars]; exact Hrun].
Qed.

Lemma allChars_append (class : ascii -> bool) (a b : string) :
  allChars class (a +:+ b) = allChars class a && allChars class b.
Proof.
  induction a as [| c a IH]; [reflexivity |].
  rewrite append_cons. cbn [allChars]. now rewrite IH, andb_assoc.
Qed.

(** On one line, [camelize] leaves at most one separator, at the end. *)
Lemma camelize_shape (s run : string) :
  allChars (fun c => negb (isLineTerminator c)) s = true ->
  allChars isSeparator run = true ->
  exists body tail,
    camelize run s = body +:+ tail
    /\ noSeparator body = true
    /\ (tail = "" \/ exists c, isSeparator c = true /\ tail = String c "").
Proof.
  revert run. induction s as [| c s IH]; intros run Hline Hrun; cbn [camelize].
  - exists "", (flushRun run). split; [reflexivity |]. split; [reflexivity |].
    now apply flushRun_shape.
  - cbn [allChars] in Hline. apply andb_prop in Hline as [Hc Hline].
    apply negb_true_iff in Hc.
    destruct (isSeparator c) eqn:Hsep.
    + apply IH; [exact Hline |]. rewrite allChars_append, Hrun. cbn [allChars].
      now rewrite Hsep.
    + destruct run as [| r run].
      * destruct (IH "" Hline eq_refl) as (body & tail & -> & Hbody & Htail).
        exists (String c body), tail. split; [reflexivity |]. split; [| exact Htail].
        cbn [allChars]. now rewrite Hsep.
      * rewrite Hc. destruct (IH "" Hline eq_refl) as (body & tail & -> & Hbody & Htail).
        exists (String (upper_ascii c) body), tail. split; [reflexivity |].
        split; [| exact Htail]. cbn [allChars]. now rewrite upper_ascii_separator, Hsep.
Qed.

Lemma stripTrailing_body (body tail : string) :
  noSeparator body = true ->
  tail = "" \/ (exists c, isSeparator c = true /\ tail = String c "") ->
  stripTrailing (body +:+ tail) = body.
Proof.
  intros Hbody Htail.
  assert (Htailed : stripTrailing tail = "").
  { destruct Htail as [-> | (c & Hc & ->)]; [reflexivity |]. cbn. now rewrite Hc. }
  induction body as [| c body IH]; [exact Htailed |].
  cbn [allChars] in Hbody. apply andb_prop in Hbody as [Hc Hbody].
  apply negb_true_iff in Hc.
  rewrite append_cons. cbn [stripTrailing]. rewrite (IH Hbody), Hc. now destruct body.
Qed.

Lemma stripLeading_body (body : string) : noSeparator body = true -> stripLeading body = body.
Proof.
  destruct body as [| c body]; [reflexivity |]. cbn [allChars stripLeading].
  intros Hbody. apply andb_prop in Hbody as [Hc _]. apply negb_true_iff in Hc.
  now rewrite Hc.
Qed.

Lemma noSeparator_occurs (s : string) (c : ascii) :
  isSeparator c = true -> noSeparator s = true -> occurs c s = false.
Proof.
  intros Hc. induction s as [| d s IH]; [reflexivity |]. cbn [allChars occurs].
  intros Hs. apply andb_prop in Hs as [Hd Hs]. apply negb_true_iff in Hd.
  rewrite (IH Hs), orb_false_r. apply Ascii.eqb_neq. intros ->. congruence.
Qed.

Lemma allChars_weaken (class class' : ascii -> bool) (s : string) :
  (forall c, class c = true -> class' c = true) ->
  allChars class s = true -> allChars class' s = true.
Proof.
  intros Hweaker. induction s as [| c s IH]; [reflexivity |]. cbn [allChars].
  intros Hs. apply andb_prop in Hs as [Hc Hs]. now rewrite (Hweaker c Hc), (IH Hs).
Qed.

(** X29. Of an ASCII name written on one line, [toSwiftIdentifier] keeps
    no dash and no dot: the separators of the token path do not reach
    the Swift source. *)
Theorem toSwiftIdentifier_drops_separators (name : string) :
  allChars inLineAscii name = true ->
  occurs "-"%char (toSwiftIdentifier name) = false
  /\ occurs "."%char (toSwiftIdentifier name) = false.
Proof.
  intros Hascii.
  assert (Hline : allChars (fun c => negb (isLineTerminator c)) name = true).
  { revert Hascii. apply allChars_weaken. intros c Hc.
    now apply andb_prop in Hc as [_ Hc]. }
  unfold toSwiftIdentifier. cbv zeta.
  destruct (camelize_shape name "" Hline eq_refl) as (body & tail & -> & Hbody & Htail).
  rewrite (stripTrailing_body _ _ Hbody Htail), (stripLeading_body _ Hbody).
  assert (Hidentifier : noSeparator (uncapitalize body) = true).
  { destruct body as [| c body]; [reflexivity |]. cbn [uncapitalize allChars] in *.
    now rewrite lower_ascii_separator. }
  set (identifier := uncapitalize body) in *.
  assert (Hkept : forall c, isSeparator c = true -> c <> "_"%char ->
                    occurs c (if startsWithDigit identifier
                              then "_" +:+ identifier else identifier) = false).
  { intros c Hc Hunderscore.
    destruct (startsWithDigit identifier); [| now apply noSeparator_occurs].
    rewrite append_cons. cbn [occurs]. change ("" +:+ identifier) with identifier.
    rewrite (noSeparator_occurs _ _ Hc Hidentifier), orb_false_r.
    apply Ascii.eqb_neq. congruence. }
  assert (Hquoted : forall c, isSeparator c = true -> c <> "_"%char ->
                      occurs c (if isKeyword (if startsWithDigit identifier
                                              then "_" +:+ identifier else identifier)
                                then "`" +:+ (if startsWithDigit identifier
                                              then "_" +:+ identifier else identifier)
                                     +:+ "`"
                                else if startsWithDigit identifier
                                     then "_" +:+ identifier else identifier) = false).
  { intros c Hc Hunderscore. destruct (isKeyword _); [| now apply Hkept].
    assert (Hbacktick : Ascii.eqb "`"%char c = false).
    { apply Ascii.eqb_neq. intros <-. discriminate Hc. }
    rewrite !occurs_append, (Hkept c Hc Hunderscore). cbn [occurs].
    now rewrite Hbacktick. }
  split; apply Hquoted; try reflexivity; discriminate.
Qed.

Lemma toSwiftIdentifier_drops_separators_witness :
  occurs "-"%char (toSwiftIdentifier "color.blue-400") = false
  /\ occurs "."%char (toSwiftIdentifier "color.blue-400") = false.
Proof. apply (toSwiftIdentifier_drops_separators "color.blue-400"). reflexivity. Defined.

End SwiftFacts.
